(** * FontCrawler: a shallow embedding of font-crawler.js

    The repository ships three revisions of one library:
    - [FontCrawler]   : src/font-crawler.js, the current, time-budgeted crawler;
    - [CountBudgeted] : the first revision (asyncMax entries per frame);
    - [Draft]         : the intermediate revision (time-budgeted, with
                        useTextNodesOnly and an _addPseudoEntries stage).

    The host environment (DOM queries, selector matching, computed style,
    requestAnimationFrame, the clock) is a parameter of the model.  Host
    functions are total and the tree does not change during a crawl; the
    window runs the frames of this crawler only, oldest first.  A font-usage
    map is the finite map of the own properties of the source object; the
    object is a plain one, so it inherits the members of Object.prototype.
    The call stack of the engine is finite: the host gives the number of
    nested calls of a slice it allows.  Timestamps are exact rationals. *)

From Stdlib Require Import QArith OrdersEx Ascii String.
From stdpp Require Import gmap strings list fin_maps sorting.

Local Open Scope string_scope.
Local Open Scope list_scope.

(** ** JavaScript primitives used by the crawler *)

Module Js.

(** Code units matched by the regular expression class \s and removed by
    String.prototype.trim, restricted to the one-byte range. *)
Definition is_whitespace (c : ascii) : bool :=
  let n := nat_of_ascii c in
  ((9 <=? n)%nat && (n <=? 13)%nat) || (n =? 32)%nat || (n =? 160)%nat.

(** Code units matched by the class \w. *)
Definition is_word (c : ascii) : bool :=
  let n := nat_of_ascii c in
  ((48 <=? n)%nat && (n <=? 57)%nat) || ((65 <=? n)%nat && (n <=? 90)%nat)
  || ((97 <=? n)%nat && (n <=? 122)%nat) || (n =? 95)%nat.

Fixpoint trimStart (s : string) : string :=
  match s with
  | String c s' => if is_whitespace c then trimStart s' else s
  | EmptyString => EmptyString
  end.

Fixpoint trimEnd (s : string) : string :=
  match s with
  | String c s' =>
      match trimEnd s' with
      | EmptyString => if is_whitespace c then EmptyString else String c EmptyString
      | t => String c t
      end
  | EmptyString => EmptyString
  end.

(** String.prototype.trim *)
Definition trim (s : string) : string := trimEnd (trimStart s).

(** A word between double quotes. *)
Definition quoted (s : string) : string :=
  String (ascii_of_nat 34) (s +:+ String (ascii_of_nat 34) EmptyString).

(** ToBoolean on a string: only the empty string is falsy. *)
Definition truthy (s : string) : bool :=
  match s with EmptyString => false | _ => true end.

(** s.replace(/^:+/, "") *)
Fixpoint strip_leading_colons (s : string) : string :=
  match s with
  | String ":" s' => strip_leading_colons s'
  | _ => s
  end.

(** s.replace(/[^\w\-,]/g, "") *)
Fixpoint keep_word_dash_comma (s : string) : string :=
  match s with
  | String c s' =>
      if is_word c || Ascii.eqb c "-" || Ascii.eqb c ","
      then String c (keep_word_dash_comma s')
      else keep_word_dash_comma s'
  | EmptyString => EmptyString
  end.

(** s.split(","): [cur] is the piece being read. *)
Fixpoint split_on_comma (cur : string) (s : string) : list string :=
  match s with
  | EmptyString => [cur]
  | String c s' =>
      if Ascii.eqb c ","
      then cur :: split_on_comma "" s'
      else split_on_comma (cur +:+ String c "") s'
  end.

(** s.split(/\s*,\s*/).  A match starts at the first whitespace of a run
    that ends in a comma and extends over the whitespace after the comma.
    [cur] is the piece being read, [ws] a whitespace run that is dropped if
    a comma follows it and kept otherwise, [after] tells that the last
    separator is still being consumed. *)
Fixpoint split_comma_ws (after : bool) (cur ws : string) (s : string) : list string :=
  match s with
  | EmptyString => [cur +:+ ws]
  | String c s' =>
      if Ascii.eqb c "," then cur :: split_comma_ws true "" "" s'
      else if is_whitespace c then
        if after then split_comma_ws true cur ws s'
        else split_comma_ws false cur (ws +:+ String c "") s'
      else split_comma_ws false (cur +:+ ws +:+ String c "") "" s'
  end.

Definition split_comma (s : string) : list string := split_comma_ws false "" "" s.

(** Array.prototype.indexOf on an array of strings: the first index, or -1. *)
Fixpoint indexOf (l : list string) (x : string) : Z :=
  match l with
  | [] => -1
  | y :: l' =>
      if String.eqb y x then 0
      else match indexOf l' x with
           | Zneg _ => -1
           | i => i + 1
           end
  end%Z.

(** Array.prototype.sort() without a comparator orders strings by their code
    units.  The order is total and antisymmetric, so the sorted array is
    determined by its elements; insertion sort computes it. *)
Fixpoint insert_sorted (x : string) (l : list string) : list string :=
  match l with
  | [] => [x]
  | y :: l' => if String.leb x y then x :: l else y :: insert_sorted x l'
  end.

Definition sort (l : list string) : list string := foldr insert_sorted [] l.

(** Numbers, as far as the scheduling budgets need them.  Finite values are
    exact rationals; rounding of IEEE doubles is not modelled. *)
Inductive number : Type :=
| Num (q : Q)
| NaN
| PosInfinity
| NegInfinity.

Definition Qltb (x y : Q) : bool := negb (Qle_bool y x).

(** x < y for a finite x *)
Definition lt_num (x : Q) (y : number) : bool :=
  match y with
  | Num q => Qltb x q
  | PosInfinity => true
  | NaN | NegInfinity => false
  end.

(** y < 0 *)
Definition is_negative (y : number) : bool :=
  match y with
  | Num q => Qltb q 0
  | NegInfinity => true
  | NaN | PosInfinity => false
  end.

(** ToBoolean on a number: 0 and NaN are falsy. *)
Definition truthy_num (y : number) : bool :=
  match y with
  | Num q => negb (Qeq_bool q 0)
  | NaN => false
  | PosInfinity | NegInfinity => true
  end.

(** y / 1000 *)
Definition div1000 (y : number) : number :=
  match y with
  | Num q => Num (q / 1000)
  | other => other
  end.

(** The exceptions the engine throws: a call of something that is not a
    function, and the exhaustion of the call stack. *)
Definition TypeError : string := "TypeError".
Definition RangeError : string := "RangeError".

(** The property names every plain object inherits from Object.prototype:
    [name in {}] is true for them, and the member found is a function (an
    object for __proto__), never an array. *)
Definition inherited (name : string) : bool :=
  existsb (String.eqb name)
    ["constructor"; "hasOwnProperty"; "isPrototypeOf"; "propertyIsEnumerable";
     "toLocaleString"; "toString"; "valueOf"; "__proto__";
     "__defineGetter__"; "__defineSetter__"; "__lookupGetter__"; "__lookupSetter__"].

End Js.

(** ** The host environment

    Elements are opaque handles.  The DOM, selector matching and style
    computation are functions supplied by the host; the tree does not change
    during a crawl. *)

Definition TEXT_NODE : Z := 3.

(** What the crawler reads of a child node: child.nodeType,
    child.textContent and child.parentNode.textContent. *)
Record ChildNode : Type := {
  nodeType : Z;
  textContent : string;
  parentNode_textContent : string
}.

(** A CSSStyleDeclaration, read through getPropertyValue. *)
Definition CSSStyleDeclaration : Type := string -> string.

Record Host (Element : Type) : Type := {
  querySelectorAll : Element -> string -> list Element;
  matches : Element -> string -> bool;
  childNodes : Element -> list ChildNode;
  getComputedStyle : Element -> option string -> CSSStyleDeclaration;
  (** (new Date()).getTime() at the k-th reading of the clock *)
  getTime : nat -> Z;
  (** How many times a slice called by an animation frame can call itself
      before the call stack of the engine is exhausted. *)
  callStack : nat
}.

Arguments querySelectorAll {Element}.
Arguments matches {Element}.
Arguments childNodes {Element}.
Arguments getComputedStyle {Element}.
Arguments getTime {Element}.
Arguments callStack {Element}.

(** The css object built by _handleElement. *)
Record Css : Type := {
  fontFamily : string;
  fontWeight : string;
  fontStyle : string
}.

(** The font-usage map: a JavaScript object used as a dictionary from family
    to an array of variant tokens.  The finite map holds its own properties;
    its prototype is Object.prototype. *)
Abbreviation Source := (gmap string (list string)).

(** [key in source] *)
Definition hasProperty (source : Source) (key : string) : bool :=
  match source !! key with
  | Some _ => true
  | None => Js.inherited key
  end.

(** ** The window: animation frames, the clock, the objects of a crawl *)

Inductive Event : Type :=
| Invoked (callback : nat) (source : nat)   (* callback.call(this, source) *)
| Uncaught (exception : string).            (* an exception escaped a frame callback *)

(** Completion of a call: a value, or a thrown exception. *)
Inductive Completion (A : Type) : Type :=
| Returned (a : A)
| Thrown (exception : string).
Arguments Returned {A}.
Arguments Thrown {A}.

(** Array.prototype.reduce with an initial value, for a callback that may
    throw. *)
Fixpoint reduce {A B : Type} (f : B -> A -> Completion B) (l : list A) (carry : B)
  : Completion B :=
  match l with
  | [] => Returned carry
  | x :: l' =>
      match f carry x with
      | Returned carry' => reduce f l' carry'
      | Thrown e => Thrown e
      end
  end.

Section Window.
Context {Task : Type}.

Record World : Type := {
  __frameInterval : option nat;      (* this.__frameInterval, a request id *)
  __frameTimestamp : option Q;       (* this.__frameTimestamp *)
  animationFrames : list (nat * Task);
  nextHandle : nat;
  heap : list Source;                (* the source objects, by reference *)
  clockReads : nat;
  events : list Event
}.

Definition set_frameInterval (v : option nat) (w : World) : World :=
  {| __frameInterval := v; __frameTimestamp := __frameTimestamp w;
     animationFrames := animationFrames w; nextHandle := nextHandle w;
     heap := heap w; clockReads := clockReads w; events := events w |}.

Definition set_frameTimestamp (v : option Q) (w : World) : World :=
  {| __frameInterval := __frameInterval w; __frameTimestamp := v;
     animationFrames := animationFrames w; nextHandle := nextHandle w;
     heap := heap w; clockReads := clockReads w; events := events w |}.

Definition set_animationFrames (v : list (nat * Task)) (w : World) : World :=
  {| __frameInterval := __frameInterval w; __frameTimestamp := __frameTimestamp w;
     animationFrames := v; nextHandle := nextHandle w;
     heap := heap w; clockReads := clockReads w; events := events w |}.

Definition set_nextHandle (v : nat) (w : World) : World :=
  {| __frameInterval := __frameInterval w; __frameTimestamp := __frameTimestamp w;
     animationFrames := animationFrames w; nextHandle := v;
     heap := heap w; clockReads := clockReads w; events := events w |}.

Definition set_heap (v : list Source) (w : World) : World :=
  {| __frameInterval := __frameInterval w; __frameTimestamp := __frameTimestamp w;
     animationFrames := animationFrames w; nextHandle := nextHandle w;
     heap := v; clockReads := clockReads w; events := events w |}.

Definition set_clockReads (v : nat) (w : World) : World :=
  {| __frameInterval := __frameInterval w; __frameTimestamp := __frameTimestamp w;
     animationFrames := animationFrames w; nextHandle := nextHandle w;
     heap := heap w; clockReads := v; events := events w |}.

Definition set_events (v : list Event) (w : World) : World :=
  {| __frameInterval := __frameInterval w; __frameTimestamp := __frameTimestamp w;
     animationFrames := animationFrames w; nextHandle := nextHandle w;
     heap := heap w; clockReads := clockReads w; events := v |}.

(** A crawler that has just been constructed, in a window with no frame
    requested.  Request ids start at 1. *)
Definition fresh : World :=
  {| __frameInterval := None; __frameTimestamp := None;
     animationFrames := []; nextHandle := 1;
     heap := []; clockReads := 0; events := [] |}.

(** Calls read and mutate the world.  The world after a throw keeps every
    mutation made before it. *)
Definition M (A : Type) : Type := World -> Completion A * World.

Definition ret {A} (a : A) : M A := fun w => (Returned a, w).
Definition throw {A} (e : string) : M A := fun w => (Thrown e, w).
Definition bind {A B} (m : M A) (k : A -> M B) : M B :=
  fun w => match m w with
           | (Returned a, w') => k a w'
           | (Thrown e, w') => (Thrown e, w')
           end.
Definition lift {A} (c : Completion A) : M A := fun w => (c, w).
Definition modify (f : World -> World) : M unit := fun w => (Returned tt, f w).
Definition gets {A} (f : World -> A) : M A := fun w => (Returned (f w), w).

(** window.requestAnimationFrame(callback) *)
Definition requestAnimationFrame (callback : Task) : M nat :=
  fun w =>
    let handle := nextHandle w in
    (Returned handle,
     set_nextHandle (S handle)
       (set_animationFrames (animationFrames w ++ [(handle, callback)]) w)).

(** window.cancelAnimationFrame(requestID) *)
Definition cancelAnimationFrame (requestID : nat) : M unit :=
  modify (fun w =>
    set_animationFrames
      (filter (fun p => fst p ≠ requestID) (animationFrames w)) w).

(** A new empty object; the result is its reference. *)
Definition newObject : M nat :=
  fun w => (Returned (length (heap w)), set_heap (heap w ++ [∅]) w).

(** A method that mutates the object [source] refers to and may throw: the
    object is left as it was when it throws.  (A reference always refers to
    an object of the heap.) *)
Definition updateObject (method : Source -> Completion Source) (source : nat) : M unit :=
  fun w =>
    match heap w !! source with
    | Some object =>
        match method object with
        | Returned object' => (Returned tt, set_heap (<[source := object']> (heap w)) w)
        | Thrown e => (Thrown e, w)
        end
    | None => (Returned tt, w)
    end.

(** callback.call(this, source) for a user callback *)
Definition invoke (callback : nat) (source : nat) : M unit :=
  modify (fun w => set_events (events w ++ [Invoked callback source]) w).

(** Run the oldest requested animation frame callback.  An exception that
    escapes it is reported and the window carries on. *)
Definition runAnimationFrame (run : Task -> M unit) (w : World) : World :=
  match animationFrames w with
  | [] => w
  | (_, task) :: rest =>
      match run task (set_animationFrames rest w) with
      | (Returned _, w') => w'
      | (Thrown e, w') => set_events (events w' ++ [Uncaught e]) w'
      end
  end.

Fixpoint runAnimationFrames (run : Task -> M unit) (n : nat) (w : World) : World :=
  match n with
  | O => w
  | S n' => runAnimationFrames run n' (runAnimationFrame run w)
  end.

End Window.

Arguments World : clear implicits.
Arguments M : clear implicits.

Declare Scope js_scope.
Delimit Scope js_scope with js.
Notation "'let*' x ':=' m 'in' k" := (bind m (fun x => k))
  (at level 10, x pattern, m at level 100, k at level 200) : js_scope.
Notation "m ';;' k" := (bind m (fun _ => k))
  (at level 100, k at level 200, right associativity) : js_scope.

(** ** src/font-crawler.js *)

Module FontCrawler.

(** What usePseudoElement, or the function it holds, may yield. *)
Inductive PseudoNames : Type :=
| NamesString (s : string)
| NamesArray (names : list string)
| NamesOther.                      (* neither a string nor an array *)

(** The usePseudoElement option: {String|Array|Function|Null}. *)
Inductive PseudoOption (Element : Type) : Type :=
| PseudoNull
| PseudoString (s : string)
| PseudoArray (names : list string)
| PseudoFunction (f : Element -> option string -> PseudoNames).
Arguments PseudoNull {Element}.
Arguments PseudoString {Element}.
Arguments PseudoArray {Element}.
Arguments PseudoFunction {Element}.

Record Options (Element : Type) : Type := {
  querySelector : string;
  includeTarget : bool;
  includeElements : option string;
  excludeElements : option string;
  usePseudoElement : PseudoOption Element;
  filter : option (Element -> option string -> bool);
  excludeFontFamilies : option (list string);
  asyncIntervalDuration : Js.number
}.
Arguments querySelector {Element}.
Arguments includeTarget {Element}.
Arguments includeElements {Element}.
Arguments excludeElements {Element}.
Arguments usePseudoElement {Element}.
Arguments filter {Element}.
Arguments excludeFontFamilies {Element}.
Arguments asyncIntervalDuration {Element}.

(** _defaults *)
Definition _defaults {Element : Type} : Options Element := {|
  querySelector := "*";
  includeTarget := true;
  includeElements :=
    Some ("input:not([type=" +:+ Js.quoted "checkbox" +:+ "]):not([type=" +:+ Js.quoted "hidden"
          +:+ "]):not([type=" +:+ Js.quoted "radio" +:+ "]):not([type=" +:+ Js.quoted "range"
          +:+ "]),textarea");
  excludeElements := Some "base,head,link,meta,script,style,title";
  usePseudoElement := PseudoNull;
  filter := None;
  excludeFontFamilies := None;
  asyncIntervalDuration := Js.Num 16
|}.

(** Object.assign({}, options, { asyncIntervalDuration: d }) *)
Definition with_asyncIntervalDuration {Element : Type} (d : Js.number)
    (o : Options Element) : Options Element := {|
  querySelector := querySelector o;
  includeTarget := includeTarget o;
  includeElements := includeElements o;
  excludeElements := excludeElements o;
  usePseudoElement := usePseudoElement o;
  filter := filter o;
  excludeFontFamilies := excludeFontFamilies o;
  asyncIntervalDuration := d
|}.

(** The functions handed to requestAnimationFrame.  [callback] is the
    argument of crawlAsync: [Some c] a function, [None] anything else. *)
Inductive Task (Element : Type) : Type :=
| Delayed_querySelectorElements (callback : option nat)
| Delayed_filterElements (elements : list Element) (callback : option nat)
| Delayed_usePseudoElementEntries (entries : list (Element * option string)) (callback : option nat)
| Delayed_filterEntries (entries : list (Element * option string)) (callback : option nat)
| Bound_crawlAsyncCallback (entries : list (Element * option string)) (source : nat) (callback : option nat)
| Bound_callback (callback : nat) (source : nat).
Arguments Delayed_querySelectorElements {Element}.
Arguments Delayed_filterElements {Element}.
Arguments Delayed_usePseudoElementEntries {Element}.
Arguments Delayed_filterEntries {Element}.
Arguments Bound_crawlAsyncCallback {Element}.
Arguments Bound_callback {Element}.

Section Crawler.
Context {Element : Type}.
Variable host : Host Element.
Variable _target : Element.
Variable _options : Options Element.

Local Open Scope js_scope.

Abbreviation Entry := (Element * option string)%type.
Abbreviation W := (World (Task Element)).
Abbreviation Run := (M (Task Element)).

(** get isPending: !!this.__frameInterval *)
Definition isPending (w : W) : bool :=
  match __frameInterval w with
  | Some (S _) => true
  | Some O | None => false
  end.

(** The selector options are used when truthy. *)
Definition matches_option (selector : option string) (element : Element) : bool :=
  match selector with
  | Some s => Js.truthy s && matches host element s
  | None => false
  end.

Definition _querySelectorElements : list Element :=
  let nodeList := querySelectorAll host _target (querySelector _options) in
  if includeTarget _options then _target :: nodeList else nodeList.

Fixpoint hasTextNodeChild_from (children : list ChildNode) : bool :=
  match children with
  | [] => false
  | child :: rest =>
      if negb (nodeType child =? TEXT_NODE)%Z then hasTextNodeChild_from rest
      else if Js.truthy (Js.trim (textContent child)) then true
      else if Js.truthy (Js.trim (parentNode_textContent child)) then true
      else hasTextNodeChild_from rest
  end.

Definition _hasTextNodeChild (element : Element) : bool :=
  hasTextNodeChild_from (childNodes host element).

Definition _filterElements (elements : list Element) : list Element :=
  List.filter (fun element =>
    if matches_option (includeElements _options) element then true
    else if matches_option (excludeElements _options) element then false
    else _hasTextNodeChild element) elements.

Definition _mapElementsAsEntries (elements : list Element) : list Entry :=
  map (fun element => (element, None)) elements.

(** [ entry[0], "::" + pseudo.replace(/^:+/, "") ] *)
Definition pseudoEntry (entry : Entry) (pseudo : string) : Entry :=
  (fst entry, Some ("::" +:+ Js.strip_leading_colons pseudo)).

(** result.push(entry); names.forEach(push the pseudo entry) *)
Definition pushWithPseudos (names : list string) (result : list Entry) (entry : Entry)
  : list Entry :=
  fold_left (fun result pseudo => result ++ [pseudoEntry entry pseudo])
            names (result ++ [entry]).

Definition _usePseudoElementEntries (entries : list Entry) : list Entry :=
  match usePseudoElement _options with
  | PseudoNull => entries
  | PseudoString s =>
      if Js.truthy s
      then fold_left (pushWithPseudos (Js.split_comma s)) entries []
      else entries
  | PseudoArray names => fold_left (pushWithPseudos names) entries []
  | PseudoFunction f =>
      fold_left (fun result entry =>
        match f (fst entry) (snd entry) with
        | NamesString s => pushWithPseudos (Js.split_comma s) result entry
        | NamesArray names => pushWithPseudos names result entry
        | NamesOther => result ++ [entry]
        end) entries []
  end.

Definition _filterEntries (entries : list Entry) : list Entry :=
  match filter _options with
  | Some f => List.filter (fun entry => f (fst entry) (snd entry)) entries
  | None => entries
  end.

Definition _getEntries : list Entry :=
  let elements := _querySelectorElements in
  let elements := _filterElements elements in
  let entries := _mapElementsAsEntries elements in
  let entries := _usePseudoElementEntries entries in
  let entries := _filterEntries entries in
  entries.

(** this._isArray(exclude) && exclude.indexOf(css.fontFamily) !== -1 *)
Definition isExcluded (css : Css) : bool :=
  match excludeFontFamilies _options with
  | Some exclude => negb (Js.indexOf exclude (fontFamily css) =? -1)%Z
  | None => false
  end.

(** [css.fontFamily in source] also finds the members the object inherits;
    for such a family no array is created, source[css.fontFamily] is the
    inherited member and calling its indexOf throws. *)
Definition _handleSource (element : Element) (pseudo : option string)
    (css : Css) (source : Source) : Completion Source :=
  if isExcluded css then Returned source else
  let map := fontWeight css +:+ (if String.eqb (fontStyle css) "normal" then "" else "i") in
  let source :=
    if hasProperty source (fontFamily css) then source
    else <[fontFamily css := []]> source in
  match source !! fontFamily css with
  | Some tokens =>
      if (Js.indexOf tokens map =? -1)%Z
      then Returned (<[fontFamily css := Js.sort (tokens ++ [map])]> source)
      else Returned source
  | None => Thrown Js.TypeError
  end.

Definition _handleElement (element : Element) (pseudo : option string)
    (source : Source) : Completion Source :=
  let style := getComputedStyle host element pseudo in
  let css := {| fontFamily := style "font-family";
                fontWeight := style "font-weight";
                fontStyle := style "font-style" |} in
  _handleSource element pseudo css source.

Definition _handleEntry (entry : Entry) (source : Source) : Completion Source :=
  let element := fst entry in
  let pseudo := snd entry in
  _handleElement element pseudo source.

Definition _checkBusy : Run unit :=
  fun w => if isPending w then (Thrown "FontCrawler: FontCrawler is busy.", w)
           else (Returned tt, w).

Definition crawl : Run Source :=
  _checkBusy ;;
  lift (reduce (fun carry entry => _handleEntry entry carry) _getEntries ∅).

Definition clear : Run unit :=
  (let* interval := gets __frameInterval in
   match interval with
   | Some (S _ as requestID) => cancelAnimationFrame requestID
   | Some O | None => ret tt
   end) ;;
  modify (set_frameTimestamp None) ;;
  modify (set_frameInterval None).

(** (new Date()).getTime() / 1000 *)
Definition _getTimestamp : Run Q :=
  fun w => (Returned (inject_Z (getTime host (clockReads w)) / 1000)%Q,
            set_clockReads (S (clockReads w)) w).

(** this._handleEntry(entry, source) on the object [source] refers to *)
Definition handleEntryAt (entry : Entry) (source : nat) : Run unit :=
  updateObject (_handleEntry entry) source.

Definition _crawlAsyncRequestFrame (entries : list Entry) (source : nat)
    (callback : option nat) : Run unit :=
  let* handle := requestAnimationFrame (Bound_crawlAsyncCallback entries source callback) in
  modify (set_frameInterval (Some handle)).

Definition _crawlAsyncClear (source : nat) (callback : option nat) : Run unit :=
  clear ;;
  match callback with
  | Some c => let* _ := requestAnimationFrame (Bound_callback c source) in ret tt
  | None => ret tt
  end.

(** [again] is this._crawlAsyncCallback, called on the same array after
    its first entry has been shifted out. *)
Definition _crawlAsyncRecursion (again : list Entry -> nat -> option nat -> Run unit)
    (entries : list Entry) (source : nat) (callback : option nat) : Run unit :=
  match entries with
  | [] => _crawlAsyncClear source callback
  | _ :: _ =>
      let* start := gets __frameTimestamp in
      let* now := _getTimestamp in
      let inTime :=
        match start with
        | Some start =>
            let delay := (now - start)%Q in
            Js.lt_num delay (Js.div1000 (asyncIntervalDuration _options))
        | None => false                       (* now - undefined is NaN *)
        end in
      if inTime
      then again entries source callback
      else clear ;; _crawlAsyncRequestFrame entries source callback
  end.

(** if (!this.__frameTimestamp) this.__frameTimestamp = this._getTimestamp() *)
Definition stampFrame : Run unit :=
  let* stamp := gets __frameTimestamp in
  match stamp with
  | Some t => if Qeq_bool t 0
              then let* now := _getTimestamp in modify (set_frameTimestamp (Some now))
              else ret tt
  | None => let* now := _getTimestamp in modify (set_frameTimestamp (Some now))
  end.

(** _crawlAsyncCallback and _crawlAsyncRecursion call each other once per
    entry sampled in a slice, and no call returns before the slice ends.
    [depth] is the number of times the slice can still call itself; when it
    is used up the engine throws a RangeError at the call. *)
Fixpoint _crawlAsyncCallback (depth : nat) (entries : list Entry) (source : nat)
    (callback : option nat) {struct entries} : Run unit :=
  stampFrame ;;
  match entries with
  | [] => _crawlAsyncRecursion (fun _ _ _ => ret tt) [] source callback
  | entry :: rest =>
      handleEntryAt entry source ;;
      _crawlAsyncRecursion
        (fun entries source callback =>
           match depth with
           | S depth => _crawlAsyncCallback depth entries source callback
           | O => throw Js.RangeError
           end)
        rest source callback
  end.

(** _delayExec(condition, method, args, callback): [delayed] is the
    function handed to requestAnimationFrame, [direct] the same call made
    at once. *)
Definition _delayExec (condition : bool) (delayed : Task Element)
    (direct : Run unit) : Run unit :=
  if condition
  then let* _ := requestAnimationFrame delayed in ret tt
  else direct.

Definition is_truthy_option (o : PseudoOption Element) : bool :=
  match o with
  | PseudoNull => false
  | PseudoString s => Js.truthy s
  | PseudoArray _ | PseudoFunction _ => true
  end.

(** The function crawlAsync passes to _getEntriesAsync. *)
Definition crawlAsync_withEntries (callback : option nat) (entries : list Entry)
  : Run unit :=
  let* source := newObject in
  _crawlAsyncRequestFrame entries source callback.

Definition _filterEntriesAsync (entries : list Entry) (callback : option nat) : Run unit :=
  _delayExec (match filter _options with Some _ => true | None => false end)
    (Delayed_filterEntries entries callback)
    (crawlAsync_withEntries callback (_filterEntries entries)).

Definition _usePseudoElementEntriesAsync (entries : list Entry) (callback : option nat)
  : Run unit :=
  _delayExec (is_truthy_option (usePseudoElement _options))
    (Delayed_usePseudoElementEntries entries callback)
    (_filterEntriesAsync (_usePseudoElementEntries entries) callback).

(** _delayExec with condition false: the call is made at once. *)
Definition _mapElementsAsEntriesAsync (elements : list Element) (callback : option nat)
  : Run unit :=
  _usePseudoElementEntriesAsync (_mapElementsAsEntries elements) callback.

Definition _filterElementsAsync (elements : list Element) (callback : option nat)
  : Run unit :=
  _delayExec true
    (Delayed_filterElements elements callback)
    (_mapElementsAsEntriesAsync (_filterElements elements) callback).

Definition _querySelectorElementsAsync (callback : option nat) : Run unit :=
  _delayExec true
    (Delayed_querySelectorElements callback)
    (_filterElementsAsync _querySelectorElements callback).

Definition _getEntriesAsync (callback : option nat) : Run unit :=
  _querySelectorElementsAsync callback.

Definition crawlAsync (callback : option nat) : Run unit :=
  _checkBusy ;;
  _getEntriesAsync callback.

(** What each function handed to requestAnimationFrame does when called. *)
Definition call (task : Task Element) : Run unit :=
  match task with
  | Delayed_querySelectorElements callback =>
      _filterElementsAsync _querySelectorElements callback
  | Delayed_filterElements elements callback =>
      _mapElementsAsEntriesAsync (_filterElements elements) callback
  | Delayed_usePseudoElementEntries entries callback =>
      _filterEntriesAsync (_usePseudoElementEntries entries) callback
  | Delayed_filterEntries entries callback =>
      crawlAsync_withEntries callback (_filterEntries entries)
  | Bound_crawlAsyncCallback entries source callback =>
      _crawlAsyncCallback (callStack host) entries source callback
  | Bound_callback callback source =>
      invoke callback source
  end.

Definition nextFrame (w : W) : W := runAnimationFrame call w.
Definition frames (n : nat) (w : W) : W := runAnimationFrames call n w.

End Crawler.

End FontCrawler.

(** ** The first revision: asyncMax entries per animation frame *)

Module CountBudgeted.

Record Options (Element : Type) : Type := {
  querySelector : string;
  includeTarget : bool;
  useTextNodesOnly : bool;
  usePseudoElements : option string;     (* false is [None] *)
  filter : option (Element -> option string -> bool);
  asyncMax : Js.number                   (* the option after ToNumber *)
}.
Arguments querySelector {Element}.
Arguments includeTarget {Element}.
Arguments useTextNodesOnly {Element}.
Arguments usePseudoElements {Element}.
Arguments filter {Element}.
Arguments asyncMax {Element}.

Definition _defaults {Element : Type} : Options Element := {|
  querySelector := "*";
  includeTarget := true;
  useTextNodesOnly := true;
  usePseudoElements := None;
  filter := None;
  asyncMax := Js.Num 1000
|}.

(** Object.assign({}, options, { asyncMax: n }) *)
Definition with_asyncMax {Element : Type} (n : Js.number)
    (o : Options Element) : Options Element := {|
  querySelector := querySelector o;
  includeTarget := includeTarget o;
  useTextNodesOnly := useTextNodesOnly o;
  usePseudoElements := usePseudoElements o;
  filter := filter o;
  asyncMax := n
|}.

(** The function _crawlAsyncRecursive hands to requestAnimationFrame. *)
Inductive Task (Element : Type) : Type :=
| Slice (entries : list (Element * option string)) (count : Js.number)
        (source : nat) (callback : option nat).
Arguments Slice {Element}.

Section Crawler.
Context {Element : Type}.
Variable host : Host Element.
Variable _target : Element.
Variable _options : Options Element.

Local Open Scope js_scope.

Abbreviation Entry := (Element * option string)%type.
Abbreviation Run := (M (Task Element)).

Definition _hasTextNodeChild (element : Element) : bool :=
  existsb (fun child => (nodeType child =? TEXT_NODE)%Z) (childNodes host element).

Definition _elementWithPseudoEntries : list Entry :=
  let children := querySelectorAll host _target (querySelector _options) in
  let elements := if includeTarget _options then _target :: children else children in
  let pseudoElements :=
    match usePseudoElements _options with
    | Some s => if Js.truthy s
                then Js.split_on_comma "" (Js.keep_word_dash_comma s)
                else []
    | None => []
    end in
  List.filter
    (fun entry =>
       if useTextNodesOnly _options && negb (_hasTextNodeChild (fst entry)) then false
       else match filter _options with
            | Some f => f (fst entry) (snd entry)
            | None => true
            end)
    (fold_left
       (fun carry element =>
          fold_left (fun carry pseudo => carry ++ [(element, Some ("::" +:+ pseudo))])
                    pseudoElements (carry ++ [(element, None)]))
       elements []).

(** [css.fontFamily in source] also finds the members the object inherits;
    for such a family no array is created, source[css.fontFamily] is the
    inherited member and calling its indexOf throws. *)
Definition _handleSource (element : Element) (pseudo : option string)
    (css : Css) (source : Source) : Completion Source :=
  let map := fontWeight css +:+ (if String.eqb (fontStyle css) "normal" then "" else "i") in
  let source :=
    if hasProperty source (fontFamily css) then source
    else <[fontFamily css := []]> source in
  match source !! fontFamily css with
  | Some tokens =>
      if (Js.indexOf tokens map =? -1)%Z
      then Returned (<[fontFamily css := Js.sort (tokens ++ [map])]> source)
      else Returned source
  | None => Thrown Js.TypeError
  end.

Definition _handleElement (element : Element) (pseudo : option string)
    (source : Source) : Completion Source :=
  let style := getComputedStyle host element pseudo in
  let css := {| fontFamily := style "font-family";
                fontWeight := style "font-weight";
                fontStyle := style "font-style" |} in
  _handleSource element pseudo css source.

Definition crawl : Completion Source :=
  reduce (fun carry entry => _handleElement (fst entry) (snd entry) carry)
         _elementWithPseudoEntries ∅.

(** while (done++ < count && entries.length) { ... }: the entries left. *)
Fixpoint processUpTo (done : nat) (count : Js.number) (entries : list Entry)
    (source : nat) : Run (list Entry) :=
  if Js.lt_num (inject_Z (Z.of_nat done)) count then
    match entries with
    | [] => ret []
    | entry :: rest =>
        updateObject (_handleElement (fst entry) (snd entry)) source ;;
        processUpTo (S done) count rest source
    end
  else ret entries.

Definition _crawlAsyncRecursive (entries : list Entry) (count : Js.number)
    (source : nat) (callback : option nat) : Run unit :=
  let* _ := requestAnimationFrame (Slice entries count source callback) in ret tt.

(** What the function handed to requestAnimationFrame does when called. *)
Definition call (task : Task Element) : Run unit :=
  match task with
  | Slice entries count source callback =>
      let* entries := processUpTo 0 count entries source in
      match entries with
      | _ :: _ => _crawlAsyncRecursive entries count source callback
      | [] => match callback with
              | Some c => invoke c source
              | None => ret tt
              end
      end
  end.

Definition crawlAsync (callback : option nat) : Run unit :=
  let count := asyncMax _options in
  let count :=
    if negb (Js.truthy_num count) || Js.is_negative count
    then asyncMax (@_defaults Element)
    else count in
  let* source := newObject in
  _crawlAsyncRecursive _elementWithPseudoEntries count source callback.

Definition frames (n : nat) (w : World (Task Element)) : World (Task Element) :=
  runAnimationFrames call n w.

End Crawler.

End CountBudgeted.

(** ** The intermediate revision: time-budgeted, with _addPseudoEntries *)

Module Draft.

Record Options (Element : Type) : Type := {
  querySelector : string;
  includeTarget : bool;
  useTextNodesOnly : bool;
  usePseudoElements : option string;
  filter : option (Element -> option string -> bool);
  asyncIntervalDuration : Js.number
}.
Arguments querySelector {Element}.
Arguments includeTarget {Element}.
Arguments useTextNodesOnly {Element}.
Arguments usePseudoElements {Element}.
Arguments filter {Element}.
Arguments asyncIntervalDuration {Element}.

Definition _defaults {Element : Type} : Options Element := {|
  querySelector := "*";
  includeTarget := true;
  useTextNodesOnly := true;
  usePseudoElements := None;
  filter := None;
  asyncIntervalDuration := Js.Num 16
|}.

Definition TypeError : string := "TypeError".

(** An entries value is an array or, where a function fell off its end,
    undefined ([None]). *)
Inductive Task (Element : Type) : Type :=
| Delayed_querySelectorElements (callback : option nat)
| Delayed_filterElements (elements : list Element) (callback : option nat)
| Delayed_addPseudoEntries (entries : list (Element * option string)) (callback : option nat)
| Delayed_filterEntries (entries : option (list (Element * option string))) (callback : option nat)
| Bound_crawlAsyncCallback (entries : option (list (Element * option string))) (source : nat)
                           (callback : option nat)
| Bound_callback (callback : nat) (source : nat).
Arguments Delayed_querySelectorElements {Element}.
Arguments Delayed_filterElements {Element}.
Arguments Delayed_addPseudoEntries {Element}.
Arguments Delayed_filterEntries {Element}.
Arguments Bound_crawlAsyncCallback {Element}.
Arguments Bound_callback {Element}.

Section Crawler.
Context {Element : Type}.
Variable host : Host Element.
Variable _target : Element.
Variable _options : Options Element.

Local Open Scope js_scope.

Abbreviation Entry := (Element * option string)%type.
Abbreviation W := (World (Task Element)).
Abbreviation Run := (M (Task Element)).

Definition isPending (w : W) : bool :=
  match __frameInterval w with
  | Some (S _) => true
  | Some O | None => false
  end.

Definition _querySelectorElements : list Element :=
  let nodeList := querySelectorAll host _target (querySelector _options) in
  if includeTarget _options then _target :: nodeList else nodeList.

Definition _hasTextNodeChild (element : Element) : bool :=
  existsb (fun child => (nodeType child =? TEXT_NODE)%Z) (childNodes host element).

Definition _filterElements (elements : list Element) : list Element :=
  if useTextNodesOnly _options
  then List.filter _hasTextNodeChild elements
  else elements.

Definition _mapElementsAsEntries (elements : list Element) : list Entry :=
  map (fun element => (element, None)) elements.

(** The reduce callback pushes onto [carry] and returns nothing, so the
    accumulator of the next call is undefined. *)
Definition _addPseudoEntries (entries : list Entry) : Completion (option (list Entry)) :=
  match usePseudoElements _options with
  | Some s =>
      if Js.truthy s then
        let pseudoElements := Js.split_on_comma "" (Js.keep_word_dash_comma s) in
        reduce (fun (carry : option (list Entry)) entry =>
                  match carry with
                  | Some carry =>
                      let pushed :=
                        fold_left (fun carry pseudo =>
                                     carry ++ [(fst entry, Some ("::" +:+ pseudo))])
                                  pseudoElements (carry ++ [entry]) in
                      Returned None
                  | None => Thrown TypeError          (* carry.push on undefined *)
                  end)
               entries (Some [])
      else Returned (Some entries)
  | None => Returned (Some entries)
  end.

Definition _filterEntries (entries : option (list Entry)) : Completion (option (list Entry)) :=
  match filter _options with
  | Some f =>
      match entries with
      | Some entries =>
          Returned (Some (List.filter (fun entry => f (fst entry) (snd entry)) entries))
      | None => Thrown TypeError                      (* entries.filter on undefined *)
      end
  | None => Returned entries
  end.

Definition _getEntries : Completion (option (list Entry)) :=
  let elements := _querySelectorElements in
  let elements := _filterElements elements in
  let entries := _mapElementsAsEntries elements in
  match _addPseudoEntries entries with
  | Returned entries => _filterEntries entries
  | Thrown e => Thrown e
  end.

(** [css.fontFamily in source] also finds the members the object inherits;
    for such a family no array is created, source[css.fontFamily] is the
    inherited member and calling its indexOf throws. *)
Definition _handleSource (element : Element) (pseudo : option string)
    (css : Css) (source : Source) : Completion Source :=
  let map := fontWeight css +:+ (if String.eqb (fontStyle css) "normal" then "" else "i") in
  let source :=
    if hasProperty source (fontFamily css) then source
    else <[fontFamily css := []]> source in
  match source !! fontFamily css with
  | Some tokens =>
      if (Js.indexOf tokens map =? -1)%Z
      then Returned (<[fontFamily css := Js.sort (tokens ++ [map])]> source)
      else Returned source
  | None => Thrown Js.TypeError
  end.

Definition _handleElement (element : Element) (pseudo : option string)
    (source : Source) : Completion Source :=
  let style := getComputedStyle host element pseudo in
  let css := {| fontFamily := style "font-family";
                fontWeight := style "font-weight";
                fontStyle := style "font-style" |} in
  _handleSource element pseudo css source.

Definition _handleEntry (entry : Entry) (source : Source) : Completion Source :=
  _handleElement (fst entry) (snd entry) source.

Definition _checkBusy : Run unit :=
  fun w => if isPending w then (Thrown "FontCrawler: FontCrawler is busy.", w)
           else (Returned tt, w).

Definition crawl : Run Source :=
  _checkBusy ;;
  let* entries := lift _getEntries in
  match entries with
  | Some entries => lift (reduce (fun carry entry => _handleEntry entry carry) entries ∅)
  | None => throw TypeError                            (* reduce on undefined *)
  end.

Definition clear : Run unit :=
  (let* interval := gets __frameInterval in
   match interval with
   | Some (S _ as requestID) => cancelAnimationFrame requestID
   | Some O | None => ret tt
   end) ;;
  modify (set_frameTimestamp None) ;;
  modify (set_frameInterval None).

Definition _getTimestamp : Run Q :=
  fun w => (Returned (inject_Z (getTime host (clockReads w)) / 1000)%Q,
            set_clockReads (S (clockReads w)) w).

Definition handleEntryAt (entry : Entry) (source : nat) : Run unit :=
  updateObject (_handleEntry entry) source.

Definition _crawlAsyncRequestFrame (entries : option (list Entry)) (source : nat)
    (callback : option nat) : Run unit :=
  let* handle := requestAnimationFrame (Bound_crawlAsyncCallback entries source callback) in
  modify (set_frameInterval (Some handle)).

Definition _crawlAsyncClear (source : nat) (callback : option nat) : Run unit :=
  clear ;;
  match callback with
  | Some c => let* _ := requestAnimationFrame (Bound_callback c source) in ret tt
  | None => ret tt
  end.

Definition _crawlAsyncRecursion (again : list Entry -> nat -> option nat -> Run unit)
    (entries : list Entry) (source : nat) (callback : option nat) : Run unit :=
  match entries with
  | [] => _crawlAsyncClear source callback
  | _ :: _ =>
      let* start := gets __frameTimestamp in
      let* now := _getTimestamp in
      let inTime :=
        match start with
        | Some start =>
            let delay := (now - start)%Q in
            Js.lt_num delay (Js.div1000 (asyncIntervalDuration _options))
        | None => false
        end in
      if inTime
      then again entries source callback
      else clear ;; _crawlAsyncRequestFrame (Some entries) source callback
  end.

Definition stampFrame : Run unit :=
  let* stamp := gets __frameTimestamp in
  match stamp with
  | Some t => if Qeq_bool t 0
              then let* now := _getTimestamp in modify (set_frameTimestamp (Some now))
              else ret tt
  | None => let* now := _getTimestamp in modify (set_frameTimestamp (Some now))
  end.

(** this._handleEntry(entries.shift(), source) is not guarded: on an empty
    array shift() yields undefined and entry[0] throws.  The slice calls
    itself once per entry, as in the current revision; [depth] is the number
    of times it still can. *)
Fixpoint _crawlAsyncCallback_array (depth : nat) (entries : list Entry) (source : nat)
    (callback : option nat) {struct entries} : Run unit :=
  stampFrame ;;
  match entries with
  | [] => throw TypeError
  | entry :: rest =>
      handleEntryAt entry source ;;
      _crawlAsyncRecursion
        (fun entries source callback =>
           match depth with
           | S depth => _crawlAsyncCallback_array depth entries source callback
           | O => throw Js.RangeError
           end)
        rest source callback
  end.

Definition _crawlAsyncCallback (depth : nat) (entries : option (list Entry)) (source : nat)
    (callback : option nat) : Run unit :=
  match entries with
  | Some entries => _crawlAsyncCallback_array depth entries source callback
  | None => stampFrame ;; throw TypeError              (* entries.shift on undefined *)
  end.

Definition _delayExec (condition : bool) (delayed : Task Element)
    (direct : Run unit) : Run unit :=
  if condition
  then let* _ := requestAnimationFrame delayed in ret tt
  else direct.

Definition crawlAsync_withEntries (callback : option nat) (entries : option (list Entry))
  : Run unit :=
  let* source := newObject in
  _crawlAsyncRequestFrame entries source callback.

Definition filterEntries_then (entries : option (list Entry)) (callback : option nat)
  : Run unit :=
  let* entries := lift (_filterEntries entries) in
  crawlAsync_withEntries callback entries.

Definition _filterEntriesAsync (entries : option (list Entry)) (callback : option nat)
  : Run unit :=
  _delayExec (match filter _options with Some _ => true | None => false end)
    (Delayed_filterEntries entries callback)
    (filterEntries_then entries callback).

Definition addPseudoEntries_then (entries : list Entry) (callback : option nat)
  : Run unit :=
  let* entries := lift (_addPseudoEntries entries) in
  _filterEntriesAsync entries callback.

Definition _addPseudoEntriesAsync (entries : list Entry) (callback : option nat)
  : Run unit :=
  _delayExec (match usePseudoElements _options with
              | Some s => Js.truthy s
              | None => false
              end)
    (Delayed_addPseudoEntries entries callback)
    (addPseudoEntries_then entries callback).

Definition _mapElementsAsEntriesAsync (elements : list Element) (callback : option nat)
  : Run unit :=
  _addPseudoEntriesAsync (_mapElementsAsEntries elements) callback.

Definition _filterElementsAsync (elements : list Element) (callback : option nat)
  : Run unit :=
  _delayExec (useTextNodesOnly _options)
    (Delayed_filterElements elements callback)
    (_mapElementsAsEntriesAsync (_filterElements elements) callback).

Definition _querySelectorElementsAsync (callback : option nat) : Run unit :=
  _delayExec true
    (Delayed_querySelectorElements callback)
    (_filterElementsAsync _querySelectorElements callback).

Definition crawlAsync (callback : option nat) : Run unit :=
  _checkBusy ;;
  _querySelectorElementsAsync callback.

Definition call (task : Task Element) : Run unit :=
  match task with
  | Delayed_querySelectorElements callback =>
      _filterElementsAsync _querySelectorElements callback
  | Delayed_filterElements elements callback =>
      _mapElementsAsEntriesAsync (_filterElements elements) callback
  | Delayed_addPseudoEntries entries callback =>
      addPseudoEntries_then entries callback
  | Delayed_filterEntries entries callback =>
      filterEntries_then entries callback
  | Bound_crawlAsyncCallback entries source callback =>
      _crawlAsyncCallback (callStack host) entries source callback
  | Bound_callback callback source =>
      invoke callback source
  end.

Definition frames (n : nat) (w : W) : W := runAnimationFrames call n w.

End Crawler.

End Draft.

(** ** A page to run the crawlers on *)

Module Page.

(** Elements: 0 is the root, 1 a paragraph, 2 an emphasis, 3 a bold italic
    label, 4 an image without children, 5 a script with text. *)
Definition text (data parent : string) : ChildNode :=
  {| nodeType := TEXT_NODE; textContent := data; parentNode_textContent := parent |}.

Definition element (data parent : string) : ChildNode :=
  {| nodeType := 1; textContent := data; parentNode_textContent := parent |}.

Definition style (family weight fontstyle : string) : CSSStyleDeclaration :=
  fun property =>
    if String.eqb property "font-family" then family
    else if String.eqb property "font-weight" then weight
    else if String.eqb property "font-style" then fontstyle
    else "".

Definition host : Host nat := {|
  querySelectorAll := fun target selector =>
    if String.eqb selector "*" then [1; 2; 4; 5]%nat
    else if String.eqb selector "p,em" then [1; 2]%nat
    else if String.eqb selector "b" then [3]%nat
    else if String.eqb selector "img" then [4]%nat
    else [];
  matches := fun e selector =>
    (Nat.eqb e 5 && String.eqb selector "base,head,link,meta,script,style,title")
    || (Nat.eqb e 4 && String.eqb selector "img");
  childNodes := fun e =>
    match e with
    | 0 => [element "Hello" "Hello world"; text " " "Hello world"; element "world" "Hello world"]
    | 1 => [text "Hello" "Hello"]
    | 2 => [text "world" "world"]
    | 3 => [text "hi" "hi"]
    | 5 => [text "var x;" "var x;"]
    | _ => []
    end%nat;
  getComputedStyle := fun e pseudo =>
    match e with
    | 1 => style "Georgia" "400" "normal"
    | 2 => style "Georgia" "400" "italic"
    | 3 => style "Arial" "700" "italic"
    | _ => style "serif" "400" "normal"
    end%nat;
  getTime := fun k => (1000 + Z.of_nat k)%Z;
  callStack := 4096
|}.

Definition options : FontCrawler.Options nat := FontCrawler._defaults.

(** querySelector "p,em", the root left out *)
Definition georgia : FontCrawler.Options nat := {|
  FontCrawler.querySelector := "p,em";
  FontCrawler.includeTarget := false;
  FontCrawler.includeElements := None;
  FontCrawler.excludeElements := None;
  FontCrawler.usePseudoElement := FontCrawler.PseudoNull;
  FontCrawler.filter := None;
  FontCrawler.excludeFontFamilies := None;
  FontCrawler.asyncIntervalDuration := Js.Num 16
|}.

Definition with_pseudo (p : FontCrawler.PseudoOption nat) (o : FontCrawler.Options nat)
  : FontCrawler.Options nat := {|
  FontCrawler.querySelector := FontCrawler.querySelector o;
  FontCrawler.includeTarget := FontCrawler.includeTarget o;
  FontCrawler.includeElements := FontCrawler.includeElements o;
  FontCrawler.excludeElements := FontCrawler.excludeElements o;
  FontCrawler.usePseudoElement := p;
  FontCrawler.filter := FontCrawler.filter o;
  FontCrawler.excludeFontFamilies := FontCrawler.excludeFontFamilies o;
  FontCrawler.asyncIntervalDuration := FontCrawler.asyncIntervalDuration o
|}.

(** The first revision, on the bold label only. *)
Definition counted : CountBudgeted.Options nat := {|
  CountBudgeted.querySelector := "b";
  CountBudgeted.includeTarget := false;
  CountBudgeted.useTextNodesOnly := true;
  CountBudgeted.usePseudoElements := None;
  CountBudgeted.filter := None;
  CountBudgeted.asyncMax := Js.Num 1000
|}.

(** The intermediate revision, with pseudo elements. *)
Definition draft : Draft.Options nat := {|
  Draft.querySelector := "b";
  Draft.includeTarget := false;
  Draft.useTextNodesOnly := true;
  Draft.usePseudoElements := Some "before,after";
  Draft.filter := None;
  Draft.asyncIntervalDuration := Js.Num 16
|}.

(** The intermediate revision on the image: no element has a text node. *)
Definition draft_img : Draft.Options nat := {|
  Draft.querySelector := "img";
  Draft.includeTarget := false;
  Draft.useTextNodesOnly := true;
  Draft.usePseudoElements := None;
  Draft.filter := None;
  Draft.asyncIntervalDuration := Js.Num 16
|}.

End Page.

(** ** Vocabulary of the specification *)

Definition token_le (a b : string) : Prop := String.leb a b = true.
Definition token_lt (a b : string) : Prop := String.ltb a b = true.

(** Every family's tokens are sorted and free of duplicates. *)
Definition wellFormed (source : Source) : Prop :=
  forall family tokens, source !! family = Some tokens ->
    StronglySorted token_le tokens /\ NoDup tokens.

(** The variant token of a sampled style: the weight, with the marker "i"
    unless the style is "normal". *)
Definition variantToken (css : Css) : string :=
  if decide (fontStyle css = "normal") then fontWeight css else fontWeight css +:+ "i".

(** Every code unit of the string is white space. *)
Fixpoint blank (s : string) : bool :=
  match s with
  | EmptyString => true
  | String c s' => Js.is_whitespace c && blank s'
  end.

(** An element matches a configured selector: the option holds a non-empty
    selector and the element matches it. *)
Definition matchesConfigured {Element : Type} (host : Host Element)
    (selector : option string) (element : Element) : Prop :=
  exists s, selector = Some s /\ s <> "" /\ matches host element s = true.

(** The element has a text-node child whose trimmed content is non-empty or
    whose parent's trimmed text content is non-empty. *)
Definition hasMeaningfulText {Element : Type} (host : Host Element) (element : Element) : Prop :=
  exists child, child ∈ childNodes host element /\
    nodeType child = TEXT_NODE /\
    (Js.trim (textContent child) <> "" \/ Js.trim (parentNode_textContent child) <> "").

(** The entries the expansion stage owes for one entry: the entry, then one
    pseudo entry per name, in the order of the names. *)
Definition expansionOf {Element : Type} (names : list string)
    (entry : Element * option string) : list (Element * option string) :=
  entry :: map (fun name => (fst entry, Some ("::" +:+ Js.strip_leading_colons name))) names.

Definition namesOf (spec : FontCrawler.PseudoNames) : list string :=
  match spec with
  | FontCrawler.NamesString s => Js.split_comma s
  | FontCrawler.NamesArray names => names
  | FontCrawler.NamesOther => []
  end.

(** A count budget that is zero, negative or not a number. *)
Definition invalidCount (n : Js.number) : Prop :=
  match n with
  | Js.Num q => (q <= 0)%Q
  | Js.NaN | Js.NegInfinity => True
  | Js.PosInfinity => False
  end.

(** *** The states of one asynchronous crawl *)

(** Nothing is in flight: no frame is requested and the crawler is idle.
    Request ids are positive. *)
Definition quiescent {Task : Type} (w : World Task) : Prop :=
  __frameInterval w = None /\ __frameTimestamp w = None /\
  animationFrames w = [] /\ 1 <= nextHandle w.

Section Stages.
Context {Element : Type}.
Variable host : Host Element.
Variable target : Element.
Variable options : FontCrawler.Options Element.

(** The reduce of crawl() over a list of entries. *)
Definition handleAll (entries : list (Element * option string)) (source : Source)
  : Completion Source :=
  reduce (fun carry entry => FontCrawler._handleEntry host options entry carry)
         entries source.

(** The delayed stages of _getEntriesAsync, each holding the output of the
    stages before it. *)
Definition collects (callback : option nat) (task : FontCrawler.Task Element) : Prop :=
  let elements := FontCrawler._querySelectorElements host target options in
  let filtered := FontCrawler._filterElements host options elements in
  let entries := FontCrawler._mapElementsAsEntries filtered in
  task = FontCrawler.Delayed_querySelectorElements callback \/
  task = FontCrawler.Delayed_filterElements elements callback \/
  task = FontCrawler.Delayed_usePseudoElementEntries entries callback \/
  task = FontCrawler.Delayed_filterEntries
           (FontCrawler._usePseudoElementEntries options entries) callback.

(** Where a crawl started by crawlAsync(callback) in the quiescent world
    [w0] can be: collecting its entries, sampling them slice by slice (the
    only stage in which isPending holds and the crawl goes on), waiting for
    the frame that calls the callback, finished, or aborted by an exception
    that escaped a slice.  [object] is the map built so far. *)
Inductive Stage (w0 : World (FontCrawler.Task Element)) (callback : option nat)
    (w : World (FontCrawler.Task Element)) : Prop :=
| Collecting (h : nat) (task : FontCrawler.Task Element) :
    collects callback task ->
    animationFrames w = [(h, task)] ->
    __frameInterval w = None ->
    __frameTimestamp w = None ->
    heap w = heap w0 ->
    events w = events w0 ->
    1 <= nextHandle w ->
    Stage w0 callback w
| Sampling (h : nat) (done rest : list (Element * option string)) (object : Source) :
    animationFrames w =
      [(h, FontCrawler.Bound_crawlAsyncCallback rest (length (heap w0)) callback)] ->
    __frameInterval w = Some h ->
    1 <= h ->
    1 <= nextHandle w ->
    __frameTimestamp w = None ->
    done ++ rest = FontCrawler._getEntries host target options ->
    handleAll done ∅ = Returned object ->
    heap w = heap w0 ++ [object] ->
    events w = events w0 ->
    Stage w0 callback w
| Dispatched (h c : nat) (object : Source) :
    callback = Some c ->
    animationFrames w = [(h, FontCrawler.Bound_callback c (length (heap w0)))] ->
    __frameInterval w = None ->
    __frameTimestamp w = None ->
    1 <= nextHandle w ->
    handleAll (FontCrawler._getEntries host target options) ∅ = Returned object ->
    heap w = heap w0 ++ [object] ->
    events w = events w0 ->
    Stage w0 callback w
| Finished (object : Source) :
    animationFrames w = [] ->
    __frameInterval w = None ->
    __frameTimestamp w = None ->
    1 <= nextHandle w ->
    handleAll (FontCrawler._getEntries host target options) ∅ = Returned object ->
    heap w = heap w0 ++ [object] ->
    events w = events w0 ++ match callback with
                            | Some c => [Invoked c (length (heap w0))]
                            | None => []
                            end ->
    Stage w0 callback w
| Aborted (h : nat) (done rest : list (Element * option string)) (object : Source)
    (exception : string) :
    animationFrames w = [] ->
    __frameInterval w = Some h ->
    1 <= h ->
    1 <= nextHandle w ->
    done ++ rest = FontCrawler._getEntries host target options ->
    handleAll done ∅ = Returned object ->
    heap w = heap w0 ++ [object] ->
    events w = events w0 ++ [Uncaught exception] ->
    (exception = Js.TypeError /\
     handleAll (FontCrawler._getEntries host target options) ∅ = Thrown Js.TypeError) \/
    (exception = Js.RangeError /\
     S (callStack host) < length (FontCrawler._getEntries host target options)) ->
    Stage w0 callback w.

(** A bound on the number of frames a crawl still needs. *)
Definition remaining (w : World (FontCrawler.Task Element)) : nat :=
  match animationFrames w with
  | [] => 0
  | (_, task) :: _ =>
      match task with
      | FontCrawler.Delayed_querySelectorElements _ =>
          length (FontCrawler._getEntries host target options) + 6
      | FontCrawler.Delayed_filterElements _ _ =>
          length (FontCrawler._getEntries host target options) + 5
      | FontCrawler.Delayed_usePseudoElementEntries _ _ =>
          length (FontCrawler._getEntries host target options) + 4
      | FontCrawler.Delayed_filterEntries _ _ =>
          length (FontCrawler._getEntries host target options) + 3
      | FontCrawler.Bound_crawlAsyncCallback rest _ _ => length rest + 2
      | FontCrawler.Bound_callback _ _ => 1
      end
  end.

(** A crawl that has not been aborted: when no frame is left the crawler is
    idle. *)
Definition alive (w : World (FontCrawler.Task Element)) : Prop :=
  animationFrames w = [] -> __frameInterval w = None.

End Stages.

(** An interval duration with which a frame never samples a second entry:
    NaN, or zero or negative while the clock does not run backwards. *)
Definition oneAtATime {Element : Type} (host : Host Element) (d : Js.number) : Prop :=
  d = Js.NaN \/
  exists q, d = Js.Num q /\ (q <= 0)%Q /\
            forall k, (getTime host k <= getTime host (S k))%Z.

(** ** Vocabulary of the further properties *)

(** The css object _handleElement builds for an entry. *)
Definition cssOf {Element : Type} (host : Host Element) (entry : Element * option string) : Css :=
  let style := getComputedStyle host (fst entry) (snd entry) in
  {| fontFamily := style "font-family";
     fontWeight := style "font-weight";
     fontStyle := style "font-style" |}.

(** source[family], read as the empty array when the key is absent. *)
Definition tokensOf (source : Source) (family : string) : list string :=
  default [] (source !! family).

(** The map after a sample has been recorded: the family of the sample
    holds the tokens it held and the variant token of the sample, sorted. *)
Definition recorded (css : Css) (source : Source) : Source :=
  let tokens := tokensOf source (fontFamily css) in
  <[fontFamily css :=
      if decide (variantToken css ∈ tokens) then tokens
      else Js.sort (tokens ++ [variantToken css])]> source.

(** A sample the code cannot record in [source]: its family is not
    excluded, is the name of a member the object inherits, and is not an own
    property of the object. *)
Definition unrecordable {Element : Type} (options : FontCrawler.Options Element)
    (source : Source) (css : Css) : bool :=
  match source !! fontFamily css with
  | Some _ => false
  | None => negb (FontCrawler.isExcluded options css) && Js.inherited (fontFamily css)
  end.

(** The map after an entry has been sampled: unchanged when the family of
    the entry is excluded. *)
Definition sampled {Element : Type} (host : Host Element)
    (options : FontCrawler.Options Element) (entry : Element * option string)
    (source : Source) : Source :=
  if FontCrawler.isExcluded options (cssOf host entry) then source
  else recorded (cssOf host entry) source.

Definition sampledAll {Element : Type} (host : Host Element)
    (options : FontCrawler.Options Element) (entries : list (Element * option string))
    (source : Source) : Source :=
  fold_left (fun carry entry => sampled host options entry carry) entries source.

(** Every key of [m] is a key of [m'] and holds there at least the tokens
    it holds in [m]. *)
Definition included (m m' : Source) : Prop :=
  forall family tokens, m !! family = Some tokens ->
    exists tokens', m' !! family = Some tokens' /\ tokens ⊆ tokens'.

(** A name without comma and without white space. *)
Fixpoint plain (s : string) : bool :=
  match s with
  | EmptyString => true
  | String c s' => negb (Ascii.eqb c ",") && negb (Js.is_whitespace c) && plain s'
  end.

(** The reduce of the first revision's crawl() over a list of entries. *)
Definition handleAllCounted {Element : Type} (host : Host Element)
    (entries : list (Element * option string)) (source : Source) : Completion Source :=
  reduce (fun carry entry => CountBudgeted._handleElement host (fst entry) (snd entry) carry)
         entries source.

(** A count budget the first revision keeps: a positive number. *)
Definition positiveCount (n : Js.number) : Prop :=
  match n with
  | Js.Num q => (0 < q)%Q
  | Js.PosInfinity => True
  | Js.NaN | Js.NegInfinity => False
  end.

(** The usePseudoElements option of the earlier revisions when it is falsy. *)
Definition noPseudo (o : option string) : Prop := o = None \/ o = Some "".

(** Further configurations for the page. *)
Module Setups.

(** The first revision on the image. *)
Definition counted_img : CountBudgeted.Options nat := {|
  CountBudgeted.querySelector := "img";
  CountBudgeted.includeTarget := false;
  CountBudgeted.useTextNodesOnly := true;
  CountBudgeted.usePseudoElements := None;
  CountBudgeted.filter := None;
  CountBudgeted.asyncMax := Js.Num 1000
|}.

(** The intermediate revision on the bold label, without pseudo elements. *)
Definition draft_plain : Draft.Options nat := {|
  Draft.querySelector := "b";
  Draft.includeTarget := false;
  Draft.useTextNodesOnly := true;
  Draft.usePseudoElements := None;
  Draft.filter := None;
  Draft.asyncIntervalDuration := Js.Num 16
|}.

(** The current revision on the image: the pipeline yields no entry. *)
Definition georgia_img : FontCrawler.Options nat := {|
  FontCrawler.querySelector := "img";
  FontCrawler.includeTarget := false;
  FontCrawler.includeElements := None;
  FontCrawler.excludeElements := None;
  FontCrawler.usePseudoElement := FontCrawler.PseudoNull;
  FontCrawler.filter := None;
  FontCrawler.excludeFontFamilies := None;
  FontCrawler.asyncIntervalDuration := Js.Num 16
|}.

End Setups.

(* ------------------------------------------------------------------ *)
(** * Properties *)

(** ** Strings, the default sort order, indexOf *)

Lemma compare_as_OT (a b : string) : String.compare a b = String_as_OT.compare a b.
Proof.
  revert b. induction a as [|c a IH]; intros [|d b]; reflexivity.
Qed.

Lemma compare_refl (a : string) : String.compare a a = Eq.
Proof.
  rewrite compare_as_OT.
  destruct (String_as_OT.compare_spec a a) as [_|H|H]; try reflexivity;
    exfalso; revert H; apply (StrictOrder_Irreflexive (R := String_as_OT.lt)).
Qed.

Lemma token_lt_trans (a b c : string) : token_lt a b -> token_lt b c -> token_lt a c.
Proof.
  unfold token_lt, String.ltb.
  rewrite (compare_as_OT a b), (compare_as_OT b c), (compare_as_OT a c).
  destruct (String_as_OT.compare a b) eqn:Hab; simpl; try discriminate. intros _.
  destruct (String_as_OT.compare b c) eqn:Hbc; simpl; try discriminate. intros _.
  pose proof (@StrictOrder_Transitive _ _ String_as_OT.lt_strorder a b c Hab Hbc) as H.
  unfold String_as_OT.lt in H. rewrite H. reflexivity.
Qed.

Lemma token_le_lt_eq (a b : string) : token_le a b <-> token_lt a b \/ a = b.
Proof.
  unfold token_le, token_lt, String.leb, String.ltb. split.
  - destruct (String.compare a b) eqn:H; try discriminate; intros _.
    + right. apply String.compare_eq_iff. exact H.
    + left. reflexivity.
  - intros [H| ->].
    + destruct (String.compare a b); try discriminate; reflexivity.
    + rewrite compare_refl. reflexivity.
Qed.

Lemma token_le_trans (a b c : string) : token_le a b -> token_le b c -> token_le a c.
Proof.
  rewrite !token_le_lt_eq. intros [H1| ->] [H2| ->]; auto.
  left. eapply token_lt_trans; eassumption.
Qed.

Lemma token_le_total (a b : string) : token_le a b \/ token_le b a.
Proof. apply String.leb_total. Qed.

Lemma indexOf_ge (l : list string) (x : string) : (-1 <= Js.indexOf l x)%Z.
Proof.
  induction l as [|y l IH]; simpl; [lia|].
  destruct (String.eqb y x); [lia|].
  destruct (Js.indexOf l x); lia.
Qed.

Lemma indexOf_absent (l : list string) (x : string) :
  (Js.indexOf l x =? -1)%Z = true <-> x ∉ l.
Proof.
  rewrite Z.eqb_eq. induction l as [|y l IH]; simpl.
  - split; [intros _; apply not_elem_of_nil | reflexivity].
  - rewrite not_elem_of_cons. destruct (String.eqb_spec y x) as [->|Hne].
    + split; [discriminate | intros [H _]; congruence].
    + pose proof (indexOf_ge l x) as Hge.
      destruct (Js.indexOf l x) as [|p|p] eqn:E.
      * split; [lia | intros [_ H]; apply IH in H; discriminate].
      * split; [lia | intros [_ H]; apply IH in H; discriminate].
      * split; [intros _; split; [congruence | apply IH; lia] | reflexivity].
Qed.

Lemma insert_sorted_perm (x : string) (l : list string) :
  Js.insert_sorted x l ≡ₚ x :: l.
Proof.
  induction l as [|y l IH]; simpl; [reflexivity|].
  destruct (String.leb x y); [reflexivity|].
  rewrite IH. apply Permutation_swap.
Qed.

Lemma sort_perm (l : list string) : Js.sort l ≡ₚ l.
Proof.
  induction l as [|x l IH]; simpl; [reflexivity|].
  rewrite insert_sorted_perm, IH. reflexivity.
Qed.

Lemma insert_sorted_sorted (x : string) (l : list string) :
  StronglySorted token_le l -> StronglySorted token_le (Js.insert_sorted x l).
Proof.
  induction 1 as [|y l Hs IH Hall]; simpl.
  - repeat constructor.
  - destruct (String.leb x y) eqn:E.
    + constructor; [constructor; assumption|].
      constructor; [exact E|].
      eapply Forall_impl; [exact Hall|].
      intros z Hz. eapply token_le_trans; [exact E | exact Hz].
    + constructor; [exact IH|].
      rewrite insert_sorted_perm. constructor; [|exact Hall].
      destruct (token_le_total x y) as [H|H]; [unfold token_le in H; congruence | exact H].
Qed.

Lemma sort_sorted (l : list string) : StronglySorted token_le (Js.sort l).
Proof.
  induction l as [|x l IH]; simpl; [constructor|].
  apply insert_sorted_sorted, IH.
Qed.

(** A sorted array without duplicates is strictly increasing. *)
Lemma sorted_NoDup_strict (l : list string) :
  StronglySorted token_le l -> NoDup l -> StronglySorted token_lt l.
Proof.
  induction 1 as [|x l Hs IH Hall]; intros Hnd; [constructor|].
  apply NoDup_cons in Hnd as [Hx Hnd].
  constructor; [auto|].
  apply Forall_forall. intros y Hy.
  rewrite Forall_forall in Hall.
  destruct (proj1 (token_le_lt_eq x y) (Hall y Hy)) as [H| ->]; [exact H|].
  contradiction.
Qed.

(** ** trim and split *)

Lemma trimStart_blank (s : string) : Js.trimStart s = "" <-> blank s = true.
Proof.
  induction s as [|c s IH]; simpl; [tauto|].
  destruct (Js.is_whitespace c); simpl; [exact IH|].
  split; discriminate.
Qed.

Lemma trimEnd_blank (s : string) : Js.trimEnd s = "" <-> blank s = true.
Proof.
  induction s as [|c s IH]; simpl; [tauto|].
  destruct (Js.trimEnd s) eqn:E.
  - destruct (Js.is_whitespace c); simpl.
    + split; [intros _; apply IH; reflexivity | reflexivity].
    + split; discriminate.
  - split; [discriminate|]. intros H. apply andb_true_iff in H as [_ H].
    apply IH in H. discriminate.
Qed.

Lemma blank_trimStart (s : string) : blank (Js.trimStart s) = blank s.
Proof.
  induction s as [|c s IH]; simpl; [reflexivity|].
  destruct (Js.is_whitespace c) eqn:E; simpl; [exact IH|].
  rewrite E. reflexivity.
Qed.

(** The trimmed string is empty exactly when every code unit is white
    space. *)
Lemma trim_blank (s : string) : Js.trim s = "" <-> blank s = true.
Proof. unfold Js.trim. rewrite trimEnd_blank, blank_trimStart. reflexivity. Qed.

Example trim_keeps_inner_space :
  Js.trim "  two words
 " = "two words".
Proof. reflexivity. Qed.

Example split_comma_examples :
  Js.split_comma "before,after" = ["before"; "after"] /\
  Js.split_comma "before , after,  x y " = ["before"; "after"; "x y "] /\
  Js.split_comma " a" = [" a"] /\
  Js.split_comma " ,a," = [""; "a"; ""] /\
  Js.split_comma "" = [""] /\
  Js.split_on_comma "" (Js.keep_word_dash_comma ":before, ::first-line") = ["before"; "first-line"].
Proof. repeat split. Qed.

(** ** The aggregation map *)

Lemma reduce_app {A B : Type} (f : B -> A -> Completion B) (l1 l2 : list A) (b : B) :
  reduce f (l1 ++ l2) b =
  match reduce f l1 b with
  | Returned b' => reduce f l2 b'
  | Thrown e => Thrown e
  end.
Proof.
  revert b. induction l1 as [|x l1 IH]; intros b; simpl; [reflexivity|].
  destruct (f b x) as [b'|e]; [apply IH | reflexivity].
Qed.

Lemma reduce_ext {A B : Type} (f g : B -> A -> Completion B) (l : list A) (b : B) :
  (forall b x, f b x = g b x) -> reduce f l b = reduce g l b.
Proof.
  intros H. revert b. induction l as [|x l IH]; intros b; simpl; [reflexivity|].
  rewrite H. destruct (g b x); [apply IH | reflexivity].
Qed.

(** A reduce that returns has returned on every prefix. *)
Lemma reduce_take {A B : Type} (f : B -> A -> Completion B) (l : list A) (b b' : B) (n : nat) :
  reduce f l b = Returned b' -> exists c, reduce f (take n l) b = Returned c.
Proof.
  rewrite <- (take_drop n l) at 1. rewrite reduce_app.
  destruct (reduce f (take n l) b) as [c|e]; [eauto | discriminate].
Qed.

Lemma reduce_snoc {A B : Type} (f : B -> A -> Completion B) (l : list A) (x : A) (b : B) :
  reduce f (l ++ [x]) b =
  match reduce f l b with
  | Returned b' => f b' x
  | Thrown e => Thrown e
  end.
Proof.
  rewrite reduce_app. destruct (reduce f l b) as [b'|e]; [|reflexivity].
  simpl. destruct (f b' x); reflexivity.
Qed.

Section Aggregation.
Context {Element : Type}.
Variable options : FontCrawler.Options Element.

Abbreviation handle := (FontCrawler._handleSource options).
Abbreviation excluded := (FontCrawler.isExcluded options).

Lemma append_empty_r (s : string) : s +:+ "" = s.
Proof.
  induction s as [|c s IH]; [reflexivity|].
  change (String c (s +:+ "") = String c s). rewrite IH. reflexivity.
Qed.

(** The token computed by _handleSource is the variant token. *)
Lemma map_is_variantToken (css : Css) :
  fontWeight css +:+ (if String.eqb (fontStyle css) "normal" then "" else "i")
  = variantToken css.
Proof.
  unfold variantToken. destruct (String.eqb_spec (fontStyle css) "normal") as [E|E].
  - rewrite decide_True by exact E. apply append_empty_r.
  - rewrite decide_False by exact E. reflexivity.
Qed.

Lemma recorded_lookup (css : Css) (source : Source) :
  recorded css source !! fontFamily css =
    Some (let tokens := default [] (source !! fontFamily css) in
          if decide (variantToken css ∈ tokens) then tokens
          else Js.sort (tokens ++ [variantToken css])).
Proof. unfold recorded, tokensOf. apply lookup_insert_eq. Qed.

Lemma recorded_other (css : Css) (source : Source) (family : string) :
  family <> fontFamily css -> recorded css source !! family = source !! family.
Proof. intros Hne. unfold recorded. apply lookup_insert_ne. congruence. Qed.

Lemma recorded_wellFormed (css : Css) (source : Source) :
  wellFormed source -> wellFormed (recorded css source).
Proof.
  intros Hwf family tokens.
  destruct (decide (family = fontFamily css)) as [->|Hne].
  - rewrite recorded_lookup. simpl.
    assert (Hold : StronglySorted token_le (default [] (source !! fontFamily css))
                   /\ NoDup (default [] (source !! fontFamily css))).
    { destruct (source !! fontFamily css) as [old|] eqn:Hfam; simpl.
      - eapply Hwf; exact Hfam.
      - split; constructor. }
    destruct Hold as [Hs Hnd].
    destruct (decide (variantToken css ∈ default [] (source !! fontFamily css))) as [Hin|Hin];
      intros [= <-]; [split; assumption|].
    split; [apply sort_sorted|].
    rewrite sort_perm. apply NoDup_app. split; [exact Hnd|]. split.
    + intros x Hx Hx'. apply list_elem_of_singleton in Hx'. subst x. contradiction.
    + apply NoDup_singleton.
  - rewrite recorded_other by exact Hne. apply Hwf.
Qed.

(** What _handleSource does, case by case: nothing for an excluded family,
    a TypeError for a family it finds among the inherited members, the
    recording otherwise. *)
Lemma handleSource_cases (e : Element) (p : option string) (css : Css) (source : Source) :
  handle e p css source =
  if excluded css then Returned source
  else if unrecordable options source css then Thrown Js.TypeError
  else Returned (recorded css source).
Proof.
  unfold FontCrawler._handleSource, unrecordable, hasProperty, recorded, tokensOf.
  destruct (excluded css); [reflexivity|]. rewrite map_is_variantToken. simpl negb.
  destruct (source !! fontFamily css) as [tokens|] eqn:Hfam; simpl.
  - rewrite Hfam.
    destruct (Js.indexOf tokens (variantToken css) =? -1)%Z eqn:Hidx.
    + apply indexOf_absent in Hidx.
      destruct (decide (variantToken css ∈ tokens)); [contradiction|]. reflexivity.
    + destruct (decide (variantToken css ∈ tokens)) as [H|H].
      * rewrite insert_id by exact Hfam. reflexivity.
      * apply indexOf_absent in H. congruence.
  - destruct (Js.inherited (fontFamily css)).
    + rewrite Hfam. reflexivity.
    + rewrite lookup_insert_eq. simpl.
      destruct (decide (variantToken css ∈ [])) as [H|H];
        [apply not_elem_of_nil in H; contradiction|].
      rewrite insert_insert_eq. reflexivity.
Qed.

Lemma handleSource_recorded (e : Element) (p : option string) (css : Css)
    (source m : Source) :
  excluded css = false ->
  handle e p css source = Returned m -> m = recorded css source.
Proof.
  intros Hex. rewrite handleSource_cases, Hex.
  destruct (unrecordable options source css); [discriminate|]. congruence.
Qed.

Lemma handleSource_excluded (e : Element) (p : option string) (css : Css) (source : Source) :
  excluded css = true -> handle e p css source = Returned source.
Proof. intros H. rewrite handleSource_cases, H. reflexivity. Qed.

Lemma handleSource_wellFormed (e : Element) (p : option string) (css : Css)
    (source m : Source) :
  wellFormed source -> handle e p css source = Returned m -> wellFormed m.
Proof.
  intros Hwf. rewrite handleSource_cases.
  destruct (excluded css); [intros [= <-]; exact Hwf|].
  destruct (unrecordable options source css); [discriminate|].
  intros [= <-]. apply recorded_wellFormed, Hwf.
Qed.

Lemma wellFormed_empty : wellFormed ∅.
Proof. intros family tokens H. rewrite lookup_empty in H. discriminate. Qed.

Lemma record_all_wellFormed (ops : list (Element * option string * Css)) (source m : Source) :
  wellFormed source ->
  reduce (fun source op => handle op.1.1 op.1.2 op.2 source) ops source = Returned m ->
  wellFormed m.
Proof.
  revert source. induction ops as [|op ops IH]; intros source Hwf; simpl.
  - intros [= <-]. exact Hwf.
  - destruct (handle op.1.1 op.1.2 op.2 source) as [source'|] eqn:E; [|discriminate].
    apply IH. eapply handleSource_wellFormed; eassumption.
Qed.

End Aggregation.

(** C2.  For every sequence of record operations the map stays well formed
    after each operation that returns: every family's tokens are sorted and
    free of duplicates.  A family the object does not have is inserted on
    its first encounter, with the new token as its only element, and no
    other family is touched.  But the test [css.fontFamily in source] also
    finds the members a plain object inherits: for a family named like one
    of them (constructor, toString, ...) no key is inserted and the
    operation throws a TypeError. *)
Theorem aggregation_inherited_family {Element : Type} (options : FontCrawler.Options Element)
    (ops : list (Element * option string * Css)) :
  let record := fun (source : Source) (op : Element * option string * Css) =>
                  FontCrawler._handleSource options op.1.1 op.1.2 op.2 source in
  (forall n m, reduce record (take n ops) ∅ = Returned m ->
      wellFormed m /\
      forall family tokens, m !! family = Some tokens -> StronglySorted token_lt tokens) /\
  (forall (source : Source) e p css,
      FontCrawler.isExcluded options css = false ->
      unrecordable options source css = false ->
      exists m,
        FontCrawler._handleSource options e p css source = Returned m /\
        dom m = {[fontFamily css]} ∪ dom source /\
        (source !! fontFamily css = None -> m !! fontFamily css = Some [variantToken css]) /\
        (forall family, family <> fontFamily css -> m !! family = source !! family)) /\
  (forall (source : Source) e p css,
      FontCrawler.isExcluded options css = false ->
      Js.inherited (fontFamily css) = true ->
      source !! fontFamily css = None ->
      FontCrawler._handleSource options e p css source = Thrown Js.TypeError) /\
  (forall (source : Source) e p css,
      FontCrawler.isExcluded options css = true ->
      FontCrawler._handleSource options e p css source = Returned source) /\
  (forall e p weight style,
      FontCrawler.excludeFontFamilies options = None ->
      FontCrawler._handleSource options e p
        {| fontFamily := "constructor"; fontWeight := weight; fontStyle := style |} ∅
      = Thrown Js.TypeError).
Proof.
  intros record. split; [|split; [|split; [|split]]].
  - intros n m H.
    pose proof (record_all_wellFormed options (take n ops) ∅ m wellFormed_empty H) as Hwf.
    split; [exact Hwf|]. intros family tokens Hfam.
    destruct (Hwf _ _ Hfam) as [Hs Hnd]. apply sorted_NoDup_strict; assumption.
  - intros source e p css Hex Hrec. exists (recorded css source).
    split; [rewrite handleSource_cases, Hex, Hrec; reflexivity|]. split; [|split].
    + apply set_eq. intros family. rewrite elem_of_union, elem_of_singleton, !elem_of_dom.
      destruct (decide (family = fontFamily css)) as [->|Hne].
      * rewrite recorded_lookup. split; [auto | intros _; eexists; reflexivity].
      * rewrite recorded_other by assumption. tauto.
    + intros Hnone. rewrite recorded_lookup, Hnone. simpl.
      destruct (decide (variantToken css ∈ [])) as [Hin|_]; [|reflexivity].
      apply not_elem_of_nil in Hin. contradiction.
    + intros family Hne. apply recorded_other. exact Hne.
  - intros source e p css Hex Hinh Hnone.
    rewrite handleSource_cases, Hex. unfold unrecordable. rewrite Hnone, Hex, Hinh. reflexivity.
  - intros. apply handleSource_excluded. assumption.
  - intros e p weight style Hnone.
    rewrite handleSource_cases. unfold unrecordable, FontCrawler.isExcluded.
    rewrite Hnone, lookup_empty. reflexivity.
Qed.

Lemma aggregation_inherited_family_witness :
  let italic := {| fontFamily := "Georgia"; fontWeight := "400"; fontStyle := "italic" |} in
  let normal := {| fontFamily := "Georgia"; fontWeight := "400"; fontStyle := "normal" |} in
  let odd := {| fontFamily := "constructor"; fontWeight := "400"; fontStyle := "normal" |} in
  (exists m, FontCrawler._handleSource Page.georgia 2%nat None italic ∅ = Returned m /\
             m !! "Georgia" = Some ["400i"]) /\
  (forall m, reduce (fun (source : Source) (op : nat * option string * Css) =>
                       FontCrawler._handleSource Page.georgia op.1.1 op.1.2 op.2 source)
                    [(2%nat, None, italic); (1%nat, None, normal)] ∅ = Returned m ->
             wellFormed m) /\
  FontCrawler._handleSource Page.georgia 1%nat None odd ∅ = Thrown Js.TypeError.
Proof.
  intros italic normal odd.
  pose proof (aggregation_inherited_family Page.georgia
                [(2%nat, None, italic); (1%nat, None, normal)])
    as (Hwf & Hstep & Hthrow & _ & _).
  split; [|split].
  - assert (Hrec : unrecordable Page.georgia ∅ italic = false) by (vm_compute; reflexivity).
    destruct (Hstep ∅ 2%nat None italic eq_refl Hrec) as (m & E & _ & Hnew & _).
    exists m. split; [exact E|]. apply Hnew. reflexivity.
  - intros m H. exact (proj1 (Hwf 2%nat m H)).
  - apply Hthrow; reflexivity.
Defined.

(** C6. The token recorded for a sampled (family, weight, style) is the
    weight, with "i" appended exactly when the style is not "normal":
    whenever _handleSource records a sample, the family holds that token
    beside the tokens it held (it records every sample but one of an
    excluded family or of a family it finds among the inherited members,
    where it throws).  Weight 700 italic gives "700i", and 400 normal with
    400 italic for one family give the sorted pair "400", "400i", in either
    order of arrival. *)
Theorem variant_token_recorded :
  (forall {Element : Type} (options : FontCrawler.Options Element)
          (e : Element) (p : option string) (css : Css) (source : Source),
      FontCrawler.isExcluded options css = false ->
      (fontStyle css = "normal" -> variantToken css = fontWeight css) /\
      (fontStyle css <> "normal" -> variantToken css = fontWeight css +:+ "i") /\
      ((unrecordable options source css = true /\
        FontCrawler._handleSource options e p css source = Thrown Js.TypeError) \/
       (unrecordable options source css = false /\
        exists m tokens,
          FontCrawler._handleSource options e p css source = Returned m /\
          m !! fontFamily css = Some tokens /\
          forall t, t ∈ tokens <->
                    t = variantToken css \/ t ∈ default [] (source !! fontFamily css)))) /\
  (let arial := {| fontFamily := "Arial"; fontWeight := "700"; fontStyle := "italic" |} in
   FontCrawler._handleSource Page.georgia 3%nat None arial ∅
   = Returned {[ "Arial" := ["700i"] ]}) /\
  (let normal := {| fontFamily := "Georgia"; fontWeight := "400"; fontStyle := "normal" |} in
   let italic := {| fontFamily := "Georgia"; fontWeight := "400"; fontStyle := "italic" |} in
   reduce (fun source css => FontCrawler._handleSource Page.georgia 1%nat None css source)
          [normal; italic] ∅
   = Returned {[ "Georgia" := ["400"; "400i"] ]} /\
   reduce (fun source css => FontCrawler._handleSource Page.georgia 1%nat None css source)
          [italic; normal] ∅
   = Returned {[ "Georgia" := ["400"; "400i"] ]}) /\
  fst (FontCrawler.crawl Page.host 0%nat Page.georgia fresh)
  = Returned {[ "Georgia" := ["400"; "400i"] ]}.
Proof.
  split; [|split; [|split]].
  - intros Element options e p css source Hex. split; [|split].
    + intros H. unfold variantToken. rewrite decide_True by exact H. reflexivity.
    + intros H. unfold variantToken. rewrite decide_False by exact H. reflexivity.
    + rewrite handleSource_cases, Hex.
      destruct (unrecordable options source css); [left; split; reflexivity|].
      right. split; [reflexivity|]. eexists _, _.
      split; [reflexivity|]. split; [apply recorded_lookup|].
      intros t. simpl.
      destruct (decide (variantToken css ∈ default [] (source !! fontFamily css))) as [Hin|Hin].
      * split; [auto | intros [->|H]; assumption].
      * rewrite sort_perm, elem_of_app, list_elem_of_singleton. tauto.
  - vm_compute. reflexivity.
  - split; vm_compute; reflexivity.
  - vm_compute. reflexivity.
Qed.

Lemma variant_token_recorded_witness :
  let css := {| fontFamily := "Arial"; fontWeight := "700"; fontStyle := "italic" |} in
  FontCrawler.isExcluded Page.georgia css = false /\
  variantToken css = "700" +:+ "i" /\
  exists m tokens,
    FontCrawler._handleSource Page.georgia 3%nat None css ∅ = Returned m /\
    m !! "Arial" = Some tokens /\
    forall t, t ∈ tokens <-> t = variantToken css \/ t ∈ default [] ((∅ : Source) !! "Arial").
Proof.
  intros css.
  destruct (proj1 variant_token_recorded nat Page.georgia 3%nat None css ∅ eq_refl)
    as (_ & Hitalic & [[Hodd _]|[_ Hrec]]).
  - discriminate Hodd.
  - split; [reflexivity|]. split; [apply Hitalic; discriminate | exact Hrec].
Defined.

(** ** The entry pipeline *)

Section Pipeline.
Context {Element : Type}.
Variable host : Host Element.
Variable target : Element.
Variable options : FontCrawler.Options Element.

Lemma truthy_nonempty (s : string) : Js.truthy s = true <-> s <> "".
Proof. destruct s; simpl; split; congruence. Qed.

Lemma matches_option_spec (selector : option string) (element : Element) :
  FontCrawler.matches_option host selector element = true
  <-> matchesConfigured host selector element.
Proof.
  unfold FontCrawler.matches_option, matchesConfigured. destruct selector as [s|].
  - rewrite andb_true_iff, truthy_nonempty. split.
    + intros [H1 H2]. exists s. auto.
    + intros (s' & [= <-] & H1 & H2). auto.
  - split; [discriminate | intros (s & H & _); discriminate].
Qed.

Lemma hasTextNodeChild_from_spec (children : list ChildNode) :
  FontCrawler.hasTextNodeChild_from children = true <->
  exists child, child ∈ children /\ nodeType child = TEXT_NODE /\
    (Js.trim (textContent child) <> "" \/ Js.trim (parentNode_textContent child) <> "").
Proof.
  induction children as [|child rest IH]; simpl.
  - split; [discriminate | intros (c & Hc & _); apply elem_of_nil in Hc; contradiction].
  - destruct (Z.eqb_spec (nodeType child) TEXT_NODE) as [Ety|Ety]; simpl.
    + destruct (Js.truthy (Js.trim (textContent child))) eqn:E1.
      { split; [intros _|reflexivity]. exists child.
        split; [left|]. split; [exact Ety|]. left. apply truthy_nonempty, E1. }
      destruct (Js.truthy (Js.trim (parentNode_textContent child))) eqn:E2.
      { split; [intros _|reflexivity]. exists child.
        split; [left|]. split; [exact Ety|]. right. apply truthy_nonempty, E2. }
      rewrite IH. split.
      * intros (c & Hc & H). exists c. split; [right; exact Hc | exact H].
      * intros (c & Hc & Hty & H). apply elem_of_cons in Hc as [->|Hc].
        -- exfalso. destruct H as [H|H]; apply truthy_nonempty in H; congruence.
        -- exists c. auto.
    + rewrite IH. split.
      * intros (c & Hc & H). exists c. split; [right; exact Hc | exact H].
      * intros (c & Hc & Hty & H). apply elem_of_cons in Hc as [->|Hc]; [contradiction|].
        exists c. auto.
Qed.

Lemma hasTextNodeChild_spec (element : Element) :
  FontCrawler._hasTextNodeChild host element = true <-> hasMeaningfulText host element.
Proof. apply hasTextNodeChild_from_spec. Qed.

Lemma fold_push {A B : Type} (g : B -> A) (l : list B) (acc : list A) :
  fold_left (fun result x => result ++ [g x]) l acc = acc ++ map g l.
Proof.
  revert acc. induction l as [|x l IH]; intros acc; simpl.
  - rewrite app_nil_r. reflexivity.
  - rewrite IH, <- app_assoc. reflexivity.
Qed.

Lemma pushWithPseudos_app (names : list string) (result : list (Element * option string))
    (entry : Element * option string) :
  FontCrawler.pushWithPseudos names result entry = result ++ expansionOf names entry.
Proof.
  unfold FontCrawler.pushWithPseudos, expansionOf, FontCrawler.pseudoEntry.
  rewrite (fold_push (fun pseudo => (fst entry, Some ("::" +:+ Js.strip_leading_colons pseudo)))).
  rewrite <- app_assoc. reflexivity.
Qed.

Lemma fold_expand (names : Element * option string -> list string)
    (entries acc : list (Element * option string)) :
  fold_left (fun result entry => result ++ expansionOf (names entry) entry) entries acc
  = acc ++ flat_map (fun entry => expansionOf (names entry) entry) entries.
Proof.
  revert acc. induction entries as [|entry entries IH]; intros acc; simpl.
  - rewrite app_nil_r. reflexivity.
  - rewrite IH, <- app_assoc. reflexivity.
Qed.

Lemma fold_left_ext {A B : Type} (f g : A -> B -> A) (l : list B) (a : A) :
  (forall a b, f a b = g a b) -> fold_left f l a = fold_left g l a.
Proof.
  intros H. revert a. induction l as [|b l IH]; intros a; simpl; [reflexivity|].
  rewrite H. apply IH.
Qed.

(** The expansion stage of src/font-crawler.js. *)
Lemma usePseudoElementEntries_expands (entries : list (Element * option string)) :
  FontCrawler._usePseudoElementEntries options entries =
  match FontCrawler.usePseudoElement options with
  | FontCrawler.PseudoNull => entries
  | FontCrawler.PseudoString s =>
      if Js.truthy s then flat_map (expansionOf (Js.split_comma s)) entries else entries
  | FontCrawler.PseudoArray names => flat_map (expansionOf names) entries
  | FontCrawler.PseudoFunction f =>
      flat_map (fun entry => expansionOf (namesOf (f (fst entry) (snd entry))) entry) entries
  end.
Proof.
  unfold FontCrawler._usePseudoElementEntries.
  destruct (FontCrawler.usePseudoElement options) as [|s|names|f].
  - reflexivity.
  - destruct (Js.truthy s); [|reflexivity].
    rewrite (fold_left_ext _ (fun result entry => result ++ expansionOf (Js.split_comma s) entry))
      by apply pushWithPseudos_app.
    apply (fold_expand (fun _ => Js.split_comma s)).
  - rewrite (fold_left_ext _ (fun result entry => result ++ expansionOf names entry))
      by apply pushWithPseudos_app.
    apply (fold_expand (fun _ => names)).
  - rewrite (fold_left_ext _
      (fun result entry => result ++ expansionOf (namesOf (f (fst entry) (snd entry))) entry)).
    + apply (fold_expand (fun entry => namesOf (f (fst entry) (snd entry)))).
    + intros result entry. destruct (f (fst entry) (snd entry)); simpl.
      * apply pushWithPseudos_app.
      * apply pushWithPseudos_app.
      * reflexivity.
Qed.

End Pipeline.

(** C7. The element-filtering stage keeps an element exactly when it matches
    the configured include selector, or does not match the configured exclude
    selector and has a text-node child whose trimmed content, or whose
    parent's trimmed text content, is non-empty. *)
Theorem filterElements_keeps {Element : Type} (host : Host Element)
    (options : FontCrawler.Options Element) :
  exists keep : Element -> bool,
    (forall element,
        keep element = true <->
        matchesConfigured host (FontCrawler.includeElements options) element \/
        (~ matchesConfigured host (FontCrawler.excludeElements options) element /\
         hasMeaningfulText host element)) /\
    (forall elements, FontCrawler._filterElements host options elements = List.filter keep elements) /\
    (forall elements element,
        In element (FontCrawler._filterElements host options elements) <->
        In element elements /\
        (matchesConfigured host (FontCrawler.includeElements options) element \/
         (~ matchesConfigured host (FontCrawler.excludeElements options) element /\
          hasMeaningfulText host element))).
Proof.
  set (keep := fun element =>
    if FontCrawler.matches_option host (FontCrawler.includeElements options) element then true
    else if FontCrawler.matches_option host (FontCrawler.excludeElements options) element then false
    else FontCrawler._hasTextNodeChild host element).
  assert (Hkeep : forall element,
        keep element = true <->
        matchesConfigured host (FontCrawler.includeElements options) element \/
        (~ matchesConfigured host (FontCrawler.excludeElements options) element /\
         hasMeaningfulText host element)).
  { intros element. unfold keep.
    rewrite <- !matches_option_spec, <- hasTextNodeChild_spec.
    destruct (FontCrawler.matches_option host (FontCrawler.includeElements options) element);
      [tauto|].
    destruct (FontCrawler.matches_option host (FontCrawler.excludeElements options) element).
    - split; [discriminate | intros [H|[H _]]; [discriminate | contradiction]].
    - split; [intros H; right; split; [discriminate | exact H] | intros [H|[_ H]]; [discriminate | exact H]]. }
  exists keep. split; [exact Hkeep|]. split; [reflexivity|].
  intros elements element. unfold FontCrawler._filterElements. fold keep.
  rewrite filter_In, Hkeep. reflexivity.
Qed.

Lemma filterElements_keeps_witness :
  In 1%nat (FontCrawler._filterElements Page.host Page.options [0; 1; 4; 5]%nat) /\
  ~ In 4%nat (FontCrawler._filterElements Page.host Page.options [0; 1; 4; 5]%nat).
Proof.
  destruct (filterElements_keeps Page.host Page.options) as (keep & Hkeep & Hfilter & Hin).
  split.
  - apply Hin. split; [simpl; tauto|]. right. split.
    + intros (s & Hs & _ & Hm). injection Hs as <-. vm_compute in Hm. discriminate.
    + exists (Page.text "Hello" "Hello"). split; [left|]. split; [reflexivity|].
      left. vm_compute. discriminate.
  - rewrite Hin. intros (_ & [Hinc|[_ Htext]]).
    + destruct Hinc as (s & Hs & _ & Hm). injection Hs as <-. vm_compute in Hm. discriminate.
    + destruct Htext as (child & Hchild & _). vm_compute in Hchild.
      apply elem_of_nil in Hchild. exact Hchild.
Defined.

(** ** The scheduler of src/font-crawler.js *)

Section Scheduler.
Context {Element : Type}.
Variable host : Host Element.
Variable target : Element.
Variable options : FontCrawler.Options Element.

Abbreviation W := (World (FontCrawler.Task Element)).

Lemma stampFrame_effect (w : W) :
  exists w1, FontCrawler.stampFrame host w = (Returned tt, w1) /\
    __frameInterval w1 = __frameInterval w /\
    animationFrames w1 = animationFrames w /\
    nextHandle w1 = nextHandle w /\
    heap w1 = heap w /\
    events w1 = events w.
Proof.
  unfold FontCrawler.stampFrame, FontCrawler._getTimestamp, bind, gets, modify, ret.
  destruct (__frameTimestamp w) as [t|]; [destruct (Qeq_bool t 0)|];
    eexists; (split; [reflexivity|]); simpl; repeat split.
Qed.

Lemma clear_effect (w : W) :
  exists w1, FontCrawler.clear w = (Returned tt, w1) /\
    __frameInterval w1 = None /\
    __frameTimestamp w1 = None /\
    animationFrames w1 =
      match __frameInterval w with
      | Some (S h) => filter (fun p => fst p ≠ S h) (animationFrames w)
      | _ => animationFrames w
      end /\
    nextHandle w1 = nextHandle w /\
    heap w1 = heap w /\
    events w1 = events w.
Proof.
  unfold FontCrawler.clear, cancelAnimationFrame, bind, gets, modify, ret.
  destruct (__frameInterval w) as [[|h]|]; simpl;
    eexists; (split; [reflexivity|]); simpl; repeat split.
Qed.

Lemma clear_effect_empty (w : W) :
  animationFrames w = [] ->
  exists w1, FontCrawler.clear w = (Returned tt, w1) /\
    __frameInterval w1 = None /\
    __frameTimestamp w1 = None /\
    animationFrames w1 = [] /\
    nextHandle w1 = nextHandle w /\
    heap w1 = heap w /\
    events w1 = events w.
Proof.
  intros Hf. destruct (clear_effect w) as (w1 & E & H1 & H2 & H3 & H4).
  exists w1. repeat split; try tauto.
  rewrite H3, Hf. destruct (__frameInterval w) as [[|h]|]; reflexivity.
Qed.

Lemma crawlAsyncClear_effect (source : nat) (callback : option nat) (w : W) :
  animationFrames w = [] ->
  exists w1, FontCrawler._crawlAsyncClear source callback w = (Returned tt, w1) /\
    __frameInterval w1 = None /\
    __frameTimestamp w1 = None /\
    animationFrames w1 =
      match callback with
      | Some c => [(nextHandle w, FontCrawler.Bound_callback c source)]
      | None => []
      end /\
    nextHandle w <= nextHandle w1 /\
    heap w1 = heap w /\
    events w1 = events w.
Proof.
  intros Hf. destruct (clear_effect_empty w Hf) as (w1 & E & H1 & H2 & H3 & H4 & H5 & H6).
  unfold FontCrawler._crawlAsyncClear, bind. rewrite E.
  destruct callback as [c|]; unfold requestAnimationFrame, ret; simpl.
  - eexists. split; [reflexivity|]. simpl. rewrite H3, H4. repeat split; auto.
  - exists w1. split; [reflexivity|]. repeat split; auto. lia.
Qed.

(** _handleEntry is _handleSource on the sampled style. *)
Lemma handleEntry_as_handleSource (entry : Element * option string) (source : Source) :
  FontCrawler._handleEntry host options entry source
  = FontCrawler._handleSource options (fst entry) (snd entry) (cssOf host entry) source.
Proof. reflexivity. Qed.

(** The only exception of a sample is the TypeError. *)
Lemma handleEntry_thrown (entry : Element * option string) (source : Source) (e : string) :
  FontCrawler._handleEntry host options entry source = Thrown e -> e = Js.TypeError.
Proof.
  rewrite handleEntry_as_handleSource, handleSource_cases.
  destruct (FontCrawler.isExcluded options (cssOf host entry)); [discriminate|].
  destruct (unrecordable options source (cssOf host entry)); [|discriminate].
  intros [= <-]. reflexivity.
Qed.

Lemma handleAll_app (l1 l2 : list (Element * option string)) (m : Source) :
  handleAll host options (l1 ++ l2) m =
  match handleAll host options l1 m with
  | Returned m' => handleAll host options l2 m'
  | Thrown e => Thrown e
  end.
Proof. apply reduce_app. Qed.

Lemma handleAll_cons (entry : Element * option string) (l : list (Element * option string))
    (m : Source) :
  handleAll host options (entry :: l) m =
  match FontCrawler._handleEntry host options entry m with
  | Returned m' => handleAll host options l m'
  | Thrown e => Thrown e
  end.
Proof. reflexivity. Qed.

Lemma handleAll_thrown (l : list (Element * option string)) (m : Source) (e : string) :
  handleAll host options l m = Thrown e -> e = Js.TypeError.
Proof.
  revert m. induction l as [|entry l IH]; intros m; [discriminate|].
  rewrite handleAll_cons.
  destruct (FontCrawler._handleEntry host options entry m) as [m'|e'] eqn:E.
  - apply IH.
  - intros [= <-]. eapply handleEntry_thrown, E.
Qed.

(** A reduce that throws on a prefix throws on the whole list. *)
Lemma handleAll_take_thrown (n : nat) (l : list (Element * option string)) (m : Source)
    (e : string) :
  handleAll host options (take n l) m = Thrown e -> handleAll host options l m = Thrown e.
Proof.
  intros H. rewrite <- (take_drop n l), handleAll_app, H. reflexivity.
Qed.

Lemma handleEntryAt_returned (entry : Element * option string) (source : nat) (w : W)
    (object object' : Source) :
  heap w !! source = Some object ->
  FontCrawler._handleEntry host options entry object = Returned object' ->
  FontCrawler.handleEntryAt host options entry source w
  = (Returned tt, set_heap (<[source := object']> (heap w)) w).
Proof.
  intros Hobj E. unfold FontCrawler.handleEntryAt, updateObject. rewrite Hobj, E. reflexivity.
Qed.

Lemma handleEntryAt_thrown (entry : Element * option string) (source : nat) (w : W)
    (object : Source) (e : string) :
  heap w !! source = Some object ->
  FontCrawler._handleEntry host options entry object = Thrown e ->
  FontCrawler.handleEntryAt host options entry source w = (Thrown e, w).
Proof.
  intros Hobj E. unfold FontCrawler.handleEntryAt, updateObject. rewrite Hobj, E. reflexivity.
Qed.

(** The slice on a queue that is not empty: the time stamp, the sample,
    then _crawlAsyncRecursion on the entries left. *)
Lemma crawlAsyncCallback_cons (depth : nat) (entry : Element * option string)
    (rest : list (Element * option string)) (source : nat) (callback : option nat)
    (w w1 : W) :
  FontCrawler.stampFrame host w = (Returned tt, w1) ->
  FontCrawler._crawlAsyncCallback host options depth (entry :: rest) source callback w =
  match FontCrawler.handleEntryAt host options entry source w1 with
  | (Returned _, w2) =>
      FontCrawler._crawlAsyncRecursion host options
        (fun entries source callback =>
           match depth with
           | S depth => FontCrawler._crawlAsyncCallback host options depth entries source callback
           | O => throw Js.RangeError
           end) rest source callback w2
  | (Thrown e, w2) => (Thrown e, w2)
  end.
Proof. intros E. simpl. unfold bind at 1. rewrite E. reflexivity. Qed.

Lemma crawlAsyncRecursion_cons
    (again : list (Element * option string) -> nat -> option nat -> M (FontCrawler.Task Element) unit)
    (entry : Element * option string) (rest : list (Element * option string))
    (source : nat) (callback : option nat) (w : W) :
  FontCrawler._crawlAsyncRecursion host options again (entry :: rest) source callback w =
  let now := (inject_Z (getTime host (clockReads w)) / 1000)%Q in
  let w' := set_clockReads (S (clockReads w)) w in
  if match __frameTimestamp w with
     | Some start =>
         Js.lt_num (now - start)%Q (Js.div1000 (FontCrawler.asyncIntervalDuration options))
     | None => false
     end
  then again (entry :: rest) source callback w'
  else match FontCrawler.clear w' with
       | (Returned _, w'') =>
           FontCrawler._crawlAsyncRequestFrame (entry :: rest) source callback w''
       | (Thrown e, w'') => (Thrown e, w'')
       end.
Proof.
  unfold FontCrawler._crawlAsyncRecursion, bind, gets, FontCrawler._getTimestamp. cbv zeta.
  destruct (__frameTimestamp w) as [start|]; [destruct (Js.lt_num _ _)|]; reflexivity.
Qed.

(** One call of the bound _crawlAsyncCallback: it samples the first [k]
    entries and either finishes, or requests a frame for the others, or is
    ended by an exception: the TypeError of the sample that follows, or
    the RangeError of the call that follows when [depth] is used up. *)
Lemma crawlAsyncCallback_slice (depth : nat) (entries : list (Element * option string))
    (source : nat) (callback : option nat) (w : W) (object : Source) :
  animationFrames w = [] ->
  heap w !! source = Some object ->
  exists k w' object',
    k <= length entries /\
    handleAll host options (take k entries) object = Returned object' /\
    heap w' = <[source := object']> (heap w) /\
    events w' = events w /\
    ((FontCrawler._crawlAsyncCallback host options depth entries source callback w
      = (Returned tt, w') /\
      __frameTimestamp w' = None /\
      ((k = length entries /\
        __frameInterval w' = None /\
        animationFrames w' =
          match callback with
          | Some c => [(nextHandle w, FontCrawler.Bound_callback c source)]
          | None => []
          end /\
        nextHandle w <= nextHandle w') \/
       (0 < k < length entries /\
        __frameInterval w' = Some (nextHandle w) /\
        animationFrames w' =
          [(nextHandle w, FontCrawler.Bound_crawlAsyncCallback (drop k entries) source callback)] /\
        nextHandle w' = S (nextHandle w)))) \/
     (exists e,
        FontCrawler._crawlAsyncCallback host options depth entries source callback w
        = (Thrown e, w') /\
        animationFrames w' = [] /\
        __frameInterval w' = __frameInterval w /\
        nextHandle w' = nextHandle w /\
        k < length entries /\
        ((e = Js.TypeError /\
          handleAll host options (take (S k) entries) object = Thrown Js.TypeError) \/
         (e = Js.RangeError /\ k = S depth)))).
Proof.
  revert depth w object. induction entries as [|entry rest IH]; intros depth w object Hf Hobj.
  - destruct (stampFrame_effect w) as (w1 & E1 & Hi1 & Hf1 & Hn1 & Hh1 & He1).
    rewrite Hf in Hf1.
    destruct (crawlAsyncClear_effect source callback w1 Hf1)
      as (w2 & E2 & Hi2 & Ht2 & Hf2 & Hn2 & Hh2 & He2).
    exists 0%nat, w2, object. split; [simpl; lia|]. split; [reflexivity|].
    split; [rewrite Hh2, Hh1, list_insert_id by exact Hobj; reflexivity|].
    split; [congruence|]. left.
    simpl. unfold bind at 1. rewrite E1.
    unfold FontCrawler._crawlAsyncRecursion. rewrite E2.
    split; [reflexivity|]. split; [exact Ht2|].
    left. rewrite Hf2, Hn1. repeat split; auto. lia.
  - destruct (stampFrame_effect w) as (w1 & E1 & Hi1 & Hf1 & Hn1 & Hh1 & He1).
    rewrite Hf in Hf1.
    assert (Hobj1 : heap w1 !! source = Some object) by (rewrite Hh1; exact Hobj).
    rewrite (crawlAsyncCallback_cons depth entry rest source callback w w1 E1).
    destruct (FontCrawler._handleEntry host options entry object) as [o1|e] eqn:Eentry.
    2:{ (* the sample throws *)
      pose proof (handleEntry_thrown _ _ _ Eentry) as ->.
      rewrite (handleEntryAt_thrown _ _ _ _ _ Hobj1 Eentry).
      exists 0%nat, w1, object. split; [simpl; lia|]. split; [reflexivity|].
      split; [rewrite Hh1, list_insert_id by exact Hobj; reflexivity|].
      split; [exact He1|]. right. exists Js.TypeError.
      split; [reflexivity|]. split; [exact Hf1|]. split; [exact Hi1|]. split; [exact Hn1|].
      split; [simpl; lia|]. left. split; [reflexivity|].
      simpl take. rewrite handleAll_cons, Eentry. reflexivity. }
    rewrite (handleEntryAt_returned _ _ _ _ _ Hobj1 Eentry).
    set (w2 := set_heap _ w1).
    assert (Hlt : source < length (heap w)) by (eapply lookup_lt_Some; exact Hobj).
    assert (Hh2 : heap w2 = <[source := o1]> (heap w)) by (unfold w2; simpl; rewrite Hh1; reflexivity).
    assert (Hone : handleAll host options (take 1 (entry :: rest)) object = Returned o1).
    { simpl take. rewrite handleAll_cons, Eentry. reflexivity. }
    destruct rest as [|entry' rest'].
    + (* the array is empty after the shift *)
      assert (Hf2 : animationFrames w2 = []) by exact Hf1.
      destruct (crawlAsyncClear_effect source callback w2 Hf2)
        as (w3 & E3 & Hi3 & Ht3 & Hf3 & Hn3 & Hh3 & He3).
      exists 1%nat, w3, o1. split; [simpl; lia|]. split; [exact Hone|].
      split; [rewrite Hh3; exact Hh2|]. split; [simpl in He3; congruence|]. left.
      unfold FontCrawler._crawlAsyncRecursion. rewrite E3.
      split; [reflexivity|]. split; [exact Ht3|].
      left. rewrite Hf3. simpl. rewrite Hn1. repeat split; auto. simpl in Hn3. lia.
    + rewrite crawlAsyncRecursion_cons. cbv zeta.
      set (w3 := set_clockReads _ w2).
      match goal with |- context [if ?c then _ else _] => destruct c end.
      * (* still within the interval: the slice calls itself *)
        destruct depth as [|depth].
        { exists 1%nat, w3, o1. split; [simpl; lia|]. split; [exact Hone|].
          split; [exact Hh2|]. split; [exact He1|]. right. exists Js.RangeError.
          split; [reflexivity|]. split; [exact Hf1|]. split; [exact Hi1|]. split; [exact Hn1|].
          split; [simpl; lia|]. right. split; reflexivity. }
        assert (Hf3 : animationFrames w3 = []) by exact Hf1.
        assert (Hobj3 : heap w3 !! source = Some o1).
        { change (heap w3) with (heap w2). rewrite Hh2. apply list_lookup_insert_eq. exact Hlt. }
        destruct (IH depth w3 o1 Hf3 Hobj3) as (k & w' & o' & Hk & Hall & Hh & He & Hcase).
        exists (S k), w', o'. split; [simpl in *; lia|].
        split; [simpl take; rewrite handleAll_cons, Eentry; exact Hall|].
        split.
        { rewrite Hh. change (heap w3) with (heap w2). rewrite Hh2.
          apply list_insert_insert_eq. }
        split; [simpl in He; congruence|].
        change (nextHandle w3) with (nextHandle w1) in Hcase. rewrite Hn1 in Hcase.
        change (__frameInterval w3) with (__frameInterval w1) in Hcase. rewrite Hi1 in Hcase.
        destruct Hcase as [(E & Ht & Hcase)|(e & E & Hfr & Hi & Hnh & Hlen & Hcause)].
        -- left. split; [exact E|]. split; [exact Ht|].
           destruct Hcase as [(Hk' & Hi & Hfr & Hn)|(Hk' & Hi & Hfr & Hn)].
           ++ left. simpl length in *. repeat split; auto; lia.
           ++ right. simpl length in *. repeat split; auto; lia.
        -- right. exists e. split; [exact E|]. split; [exact Hfr|]. split; [exact Hi|].
           split; [exact Hnh|]. split; [simpl length in *; lia|].
           destruct Hcause as [(-> & Hthrow)|(-> & ->)]; [left|right; split; reflexivity].
           split; [reflexivity|].
           change (take (S (S k)) (entry :: entry' :: rest'))
             with (entry :: take (S k) (entry' :: rest')).
           rewrite handleAll_cons, Eentry. exact Hthrow.
      * (* the interval is over: request the next frame *)
        assert (Hf3 : animationFrames w3 = []) by exact Hf1.
        destruct (clear_effect_empty w3 Hf3) as (w4 & E4 & Hi4 & Ht4 & Hf4 & Hn4 & Hh4 & He4).
        rewrite E4.
        exists 1%nat,
          (FontCrawler._crawlAsyncRequestFrame (entry' :: rest') source callback w4).2, o1.
        split; [simpl; lia|]. split; [exact Hone|].
        unfold FontCrawler._crawlAsyncRequestFrame, bind, requestAnimationFrame, modify.
        simpl. rewrite Hf4, Hn4, Hh4, He4, Ht4. simpl. rewrite Hn1.
        split; [exact Hh2|]. split; [exact He1|]. left.
        split; [reflexivity|]. split; [reflexivity|].
        right. repeat split; auto; lia.
Qed.

Lemma stampFrame_fresh (w : W) :
  __frameTimestamp w = None ->
  FontCrawler.stampFrame host w
  = (Returned tt,
     set_frameTimestamp (Some (inject_Z (getTime host (clockReads w)) / 1000)%Q)
       (set_clockReads (S (clockReads w)) w)).
Proof.
  intros Ht. unfold FontCrawler.stampFrame, FontCrawler._getTimestamp, bind, gets, modify.
  rewrite Ht. reflexivity.
Qed.

Lemma not_before (q : Q) (a b : Z) :
  (q <= 0)%Q -> (a <= b)%Z ->
  Js.Qltb (inject_Z b / 1000 - inject_Z a / 1000) (q / 1000) = false.
Proof.
  intros Hq Hab. unfold Js.Qltb. apply negb_false_iff, Qle_bool_iff.
  destruct q as [qn qd].
  unfold Qle, Qdiv, Qmult, Qminus, Qplus, Qopp, Qinv, inject_Z in *. simpl in *. nia.
Qed.

(** With an interval that is NaN, or not positive while the clock does not
    run backwards, the slice samples its first entry and requests a frame
    for the others: it never calls itself. *)
Lemma slice_one_entry (depth : nat) (entry next : Element * option string)
    (rest : list (Element * option string)) (source : nat) (callback : option nat)
    (w : W) (object object' : Source) :
  __frameTimestamp w = None ->
  FontCrawler.asyncIntervalDuration options = Js.NaN \/
  (exists q, FontCrawler.asyncIntervalDuration options = Js.Num q /\ (q <= 0)%Q /\
             (getTime host (clockReads w) <= getTime host (S (clockReads w)))%Z) ->
  heap w !! source = Some object ->
  FontCrawler._handleEntry host options entry object = Returned object' ->
  exists w',
    FontCrawler._crawlAsyncCallback host options depth (entry :: next :: rest) source callback w
    = (Returned tt, w') /\
    heap w' = <[source := object']> (heap w) /\
    __frameInterval w' = Some (nextHandle w) /\
    last (animationFrames w')
    = Some (nextHandle w, FontCrawler.Bound_crawlAsyncCallback (next :: rest) source callback).
Proof.
  intros Ht Hinterval Hobj Eentry.
  rewrite (crawlAsyncCallback_cons depth entry (next :: rest) source callback w _
             (stampFrame_fresh w Ht)).
  set (w1 := set_frameTimestamp _ _).
  rewrite (handleEntryAt_returned entry source w1 object object' Hobj Eentry).
  set (w2 := set_heap _ w1).
  rewrite crawlAsyncRecursion_cons. cbv zeta.
  change (__frameTimestamp w2) with (Some (inject_Z (getTime host (clockReads w)) / 1000)%Q).
  change (clockReads w2) with (S (clockReads w)).
  set (w3 := set_clockReads _ w2).
  cbv beta iota.
  assert (Hout : Js.lt_num
            (inject_Z (getTime host (S (clockReads w))) / 1000
             - inject_Z (getTime host (clockReads w)) / 1000)%Q
            (Js.div1000 (FontCrawler.asyncIntervalDuration options)) = false).
  { destruct Hinterval as [-> | (q & -> & Hq & Hclock)]; [reflexivity|].
    simpl. apply not_before; assumption. }
  rewrite Hout.
  destruct (clear_effect w3) as (w4 & E4 & Hi4 & Ht4 & Hf4 & Hn4 & Hh4 & He4).
  rewrite E4.
  unfold FontCrawler._crawlAsyncRequestFrame, bind, requestAnimationFrame, modify.
  eexists. split; [reflexivity|]. simpl.
  rewrite Hn4, Hh4, last_snoc. simpl. repeat split.
Qed.

Lemma nextFrame_head (h : nat) (task : FontCrawler.Task Element) (w w' : W) :
  animationFrames w = [(h, task)] ->
  FontCrawler.call host target options task (set_animationFrames [] w) = (Returned tt, w') ->
  FontCrawler.nextFrame host target options w = w'.
Proof.
  intros Hf E. unfold FontCrawler.nextFrame, runAnimationFrame. rewrite Hf, E. reflexivity.
Qed.

Lemma nextFrame_thrown (h : nat) (task : FontCrawler.Task Element) (w w' : W) (e : string) :
  animationFrames w = [(h, task)] ->
  FontCrawler.call host target options task (set_animationFrames [] w) = (Thrown e, w') ->
  FontCrawler.nextFrame host target options w = set_events (events w' ++ [Uncaught e]) w'.
Proof.
  intros Hf E. unfold FontCrawler.nextFrame, runAnimationFrame. rewrite Hf, E. reflexivity.
Qed.

Lemma nextFrame_idle (w : W) :
  animationFrames w = [] -> FontCrawler.nextFrame host target options w = w.
Proof. intros Hf. unfold FontCrawler.nextFrame, runAnimationFrame. rewrite Hf. reflexivity. Qed.

Ltac run_stage :=
  unfold FontCrawler.crawlAsync_withEntries, FontCrawler._crawlAsyncRequestFrame,
    FontCrawler._delayExec, newObject, requestAnimationFrame, bind, ret, modify;
  simpl.

(** Every frame takes a crawl to its next stage and brings it nearer to
    its end.  When every sample can be recorded, and the stack holds the
    longest slice or no slice samples a second entry, no frame aborts the
    crawl. *)
Lemma stage_step (w0 w : W) (callback : option nat) :
  Stage host target options w0 callback w ->
  Stage host target options w0 callback (FontCrawler.nextFrame host target options w) /\
  (animationFrames w <> [] ->
   remaining host target options (FontCrawler.nextFrame host target options w)
   < remaining host target options w) /\
  (forall m,
     handleAll host options (FontCrawler._getEntries host target options) ∅ = Returned m ->
     length (FontCrawler._getEntries host target options) <= S (callStack host) \/
     oneAtATime host (FontCrawler.asyncIntervalDuration options) ->
     alive w -> alive (FontCrawler.nextFrame host target options w)).
Proof.
  intros [h task Htask Hf Hi Ht Hh He Hn
         |h done rest object Hf Hi Hh1 Hn Ht Hsplit Hdone Hh He
         |h c object Hcb Hf Hi Ht Hn Hall Hh He
         |object Hf Hi Ht Hn Hall Hh He
         |h done rest object e Hf Hi Hh1 Hn Hsplit Hdone Hh He Hcause].
  - (* collecting *)
    assert (Hsampling : forall entries (wp : W),
      entries = FontCrawler._getEntries host target options ->
      animationFrames wp = [] -> __frameTimestamp wp = None ->
      heap wp = heap w0 -> events wp = events w0 -> 1 <= nextHandle wp ->
      exists w',
        FontCrawler.crawlAsync_withEntries callback entries wp = (Returned tt, w') /\
        Stage host target options w0 callback w' /\
        animationFrames w' <> [] /\
        remaining host target options w' = length entries + 2).
    { intros entries wp -> Hfp Htp Hhp Hep Hnp. eexists. split; [reflexivity|]. split; [|split].
      - eapply (Sampling _ _ _ _ _ _ (nextHandle wp) [] _ ∅); run_stage;
          rewrite ?Hfp, ?Hhp; try reflexivity; try assumption; try lia.
      - run_stage. rewrite Hfp. discriminate.
      - unfold remaining. run_stage. rewrite Hfp. reflexivity. }
    assert (Hfiltering : forall entries (wp : W),
      FontCrawler._filterEntries options entries = FontCrawler._getEntries host target options ->
      entries = FontCrawler._usePseudoElementEntries options
                  (FontCrawler._mapElementsAsEntries
                     (FontCrawler._filterElements host options
                        (FontCrawler._querySelectorElements host target options))) ->
      animationFrames wp = [] -> __frameInterval wp = None -> __frameTimestamp wp = None ->
      heap wp = heap w0 -> events wp = events w0 -> 1 <= nextHandle wp ->
      exists w',
        FontCrawler._filterEntriesAsync options entries callback wp = (Returned tt, w') /\
        Stage host target options w0 callback w' /\
        animationFrames w' <> [] /\
        remaining host target options w'
        <= length (FontCrawler._getEntries host target options) + 3).
    { intros entries wp Hent Hshape Hfp Hip Htp Hhp Hep Hnp.
      unfold FontCrawler._filterEntriesAsync.
      destruct (FontCrawler.filter options) eqn:Hfilter.
      - eexists. split; [reflexivity|]. split; [|split].
        + eapply (Collecting _ _ _ _ _ _ (nextHandle wp)); run_stage;
            rewrite ?Hfp; try reflexivity; try assumption; try lia.
          right. right. right. rewrite Hshape. reflexivity.
        + run_stage. rewrite Hfp. discriminate.
        + unfold remaining. run_stage. rewrite Hfp. simpl. lia.
      - simpl. destruct (Hsampling (FontCrawler._filterEntries options entries) wp)
          as (w' & E & Hst & Hne & Hrem); auto.
        exists w'. split; [exact E|]. split; [exact Hst|]. split; [exact Hne|].
        rewrite Hrem, Hent. lia. }
    assert (Hexpanding : forall entries (wp : W),
      entries = FontCrawler._mapElementsAsEntries
                  (FontCrawler._filterElements host options
                     (FontCrawler._querySelectorElements host target options)) ->
      animationFrames wp = [] -> __frameInterval wp = None -> __frameTimestamp wp = None ->
      heap wp = heap w0 -> events wp = events w0 -> 1 <= nextHandle wp ->
      exists w',
        FontCrawler._usePseudoElementEntriesAsync options entries callback wp = (Returned tt, w') /\
        Stage host target options w0 callback w' /\
        animationFrames w' <> [] /\
        remaining host target options w'
        <= length (FontCrawler._getEntries host target options) + 4).
    { intros entries wp Hshape Hfp Hip Htp Hhp Hep Hnp.
      unfold FontCrawler._usePseudoElementEntriesAsync.
      destruct (FontCrawler.is_truthy_option (FontCrawler.usePseudoElement options)).
      - eexists. split; [reflexivity|]. split; [|split].
        + eapply (Collecting _ _ _ _ _ _ (nextHandle wp)); run_stage;
            rewrite ?Hfp; try reflexivity; try assumption; try lia.
          right. right. left. rewrite Hshape. reflexivity.
        + run_stage. rewrite Hfp. discriminate.
        + unfold remaining. run_stage. rewrite Hfp. simpl. lia.
      - simpl. destruct (Hfiltering (FontCrawler._usePseudoElementEntries options entries) wp)
          as (w' & E & Hst & Hne & Hrem); auto.
        { rewrite Hshape. reflexivity. }
        { rewrite Hshape. reflexivity. }
        exists w'. split; [exact E|]. split; [exact Hst|]. split; [exact Hne|]. lia. }
    pose (wp := set_animationFrames [] w).
    assert (Hfp : animationFrames wp = []) by reflexivity.
    assert (Hrw : remaining host target options w =
                  match task with
                  | FontCrawler.Delayed_querySelectorElements _ =>
                      length (FontCrawler._getEntries host target options) + 6
                  | FontCrawler.Delayed_filterElements _ _ =>
                      length (FontCrawler._getEntries host target options) + 5
                  | FontCrawler.Delayed_usePseudoElementEntries _ _ =>
                      length (FontCrawler._getEntries host target options) + 4
                  | FontCrawler.Delayed_filterEntries _ _ =>
                      length (FontCrawler._getEntries host target options) + 3
                  | FontCrawler.Bound_crawlAsyncCallback rest _ _ => length rest + 2
                  | FontCrawler.Bound_callback _ _ => 1
                  end) by (unfold remaining; rewrite Hf; reflexivity).
    assert (Halive : forall w' : W, animationFrames w' <> [] -> alive w')
      by (intros w' Hne Hnil; contradiction).
    destruct Htask as [->|[->|[->| ->]]].
    + (* the frame of _querySelectorElements *)
      erewrite nextFrame_head; [|exact Hf|reflexivity]. rewrite Hrw. split; [|split].
      * eapply (Collecting _ _ _ _ _ _ (nextHandle w)); run_stage;
          try reflexivity; try assumption; try lia.
        right. left. reflexivity.
      * intros _. unfold remaining. run_stage. lia.
      * intros m _ _ _. apply Halive. run_stage. discriminate.
    + (* the frame of _filterElements *)
      destruct (Hexpanding _ wp eq_refl) as (w' & E & Hst & Hne & Hrem); auto.
      erewrite nextFrame_head; [|exact Hf|exact E]. rewrite Hrw.
      split; [exact Hst|]. split; [intros _; lia | intros m _ _ _; apply Halive, Hne].
    + (* the frame of _usePseudoElementEntries *)
      destruct (Hfiltering _ wp eq_refl eq_refl) as (w' & E & Hst & Hne & Hrem); auto.
      erewrite nextFrame_head; [|exact Hf|exact E]. rewrite Hrw.
      split; [exact Hst|]. split; [intros _; lia | intros m _ _ _; apply Halive, Hne].
    + (* the frame of _filterEntries *)
      destruct (Hsampling _ wp eq_refl) as (w' & E & Hst & Hne & Hrem); auto.
      erewrite nextFrame_head; [|exact Hf|exact E]. rewrite Hrw.
      split; [exact Hst|].
      split; [intros _; unfold FontCrawler._getEntries in *; lia
             | intros m _ _ _; apply Halive, Hne].
  - (* sampling *)
    pose (wp := set_animationFrames [] w).
    assert (Hobj : heap wp !! length (heap w0) = Some object).
    { change (heap wp) with (heap w). rewrite Hh. apply list_lookup_middle. reflexivity. }
    destruct (crawlAsyncCallback_slice (callStack host) rest (length (heap w0)) callback wp
                object eq_refl Hobj)
      as (k & w' & object' & Hk & Hsampled & Hh' & He' & Hcase).
    assert (Hprefix : handleAll host options (done ++ take k rest) ∅ = Returned object').
    { rewrite handleAll_app, Hdone. exact Hsampled. }
    assert (Hheap : heap w' = heap w0 ++ [object']).
    { rewrite Hh'. change (heap wp) with (heap w). rewrite Hh.
      rewrite <- (Nat.add_0_r (length (heap w0))) at 1. rewrite insert_app_r. reflexivity. }
    assert (Hrw : remaining host target options w = length rest + 2)
      by (unfold remaining; rewrite Hf; reflexivity).
    rewrite Hrw. change (nextHandle wp) with (nextHandle w) in Hcase.
    change (__frameInterval wp) with (__frameInterval w) in Hcase.
    destruct Hcase as [(E & Ht' & Hcase)|(e & E & Hf' & Hi' & Hn' & Hlen & Hcause)].
    + erewrite nextFrame_head; [|exact Hf|exact E].
      destruct Hcase as [(Hk' & Hi' & Hf' & Hn')|(Hk' & Hi' & Hf' & Hn')].
      * rewrite Hk', firstn_all, Hsplit in Hprefix.
        destruct callback as [c|].
        -- split; [|split; [intros _; unfold remaining; rewrite Hf'; lia|]].
           ++ eapply (Dispatched _ _ _ _ _ _ (nextHandle w) c object');
                try eassumption; try reflexivity; try lia.
              change (events wp) with (events w) in He'. congruence.
           ++ intros m _ _ _ Hnil. rewrite Hf' in Hnil. discriminate.
        -- split; [|split; [intros _; unfold remaining; rewrite Hf'; lia|]].
           ++ eapply (Finished _ _ _ _ _ _ object'); try eassumption; try lia.
              change (events wp) with (events w) in He'. rewrite app_nil_r. congruence.
           ++ intros m _ _ _ _. exact Hi'.
      * split; [|split].
        -- eapply (Sampling _ _ _ _ _ _ (nextHandle w) (done ++ take k rest) (drop k rest) object');
             try eassumption; try lia.
           ++ rewrite <- app_assoc, take_drop. exact Hsplit.
           ++ change (events wp) with (events w) in He'. congruence.
        -- intros _. unfold remaining. rewrite Hf'. rewrite length_drop. lia.
        -- intros m _ _ _ Hnil. rewrite Hf' in Hnil. discriminate.
    + erewrite nextFrame_thrown; [|exact Hf|exact E].
      assert (Hwhole : forall e', handleAll host options (take (S k) rest) object = Thrown e' ->
                handleAll host options (FontCrawler._getEntries host target options) ∅
                = Thrown e').
      { intros e' Hthrow. rewrite <- Hsplit, handleAll_app, Hdone.
        eapply handleAll_take_thrown, Hthrow. }
      split; [|split].
      * eapply (Aborted _ _ _ _ _ _ h (done ++ take k rest) (drop k rest) object' e);
          simpl; try eassumption.
        -- congruence.
        -- lia.
        -- rewrite <- app_assoc, take_drop. exact Hsplit.
        -- change (events wp) with (events w) in He'. congruence.
        -- destruct Hcause as [(-> & Hthrow)|(-> & ->)]; [left|right].
           ++ split; [reflexivity | apply Hwhole, Hthrow].
           ++ split; [reflexivity|]. rewrite <- Hsplit, length_app. lia.
      * intros _. unfold remaining. simpl. rewrite Hf'. lia.
      * intros m Hm Hfit _. exfalso.
        destruct Hcause as [(-> & Hthrow)|(-> & ->)].
        -- apply Hwhole in Hthrow. congruence.
        -- destruct Hfit as [Hfit|Hone].
           ++ rewrite <- Hsplit, length_app in Hfit. lia.
           ++ destruct rest as [|entry [|next rest']]; try (simpl in Hlen; lia).
              simpl take in Hsampled. rewrite handleAll_cons in Hsampled.
              destruct (FontCrawler._handleEntry host options entry object) as [o1|]
                eqn:Eentry; [|discriminate].
              destruct (slice_one_entry (callStack host) entry next rest'
                          (length (heap w0)) callback wp object o1 Ht) as (w'' & E'' & _).
              { destruct Hone as [HNaN|(q & Hq & Hle & Hclock)]; [left; exact HNaN|].
                right. exists q. auto. }
              { exact Hobj. }
              { exact Eentry. }
              rewrite E in E''. discriminate.
  - (* the frame that calls the callback *)
    erewrite nextFrame_head; [|exact Hf|reflexivity]. split; [|split].
    + eapply (Finished _ _ _ _ _ _ object); unfold invoke, modify; simpl; rewrite ?He, ?Hcb;
        try assumption; try reflexivity.
    + intros _. unfold remaining. rewrite Hf. simpl. lia.
    + intros m _ _ _ _. exact Hi.
  - rewrite nextFrame_idle by exact Hf. split; [|split].
    + eapply Finished; eassumption.
    + intros H. contradiction.
    + intros m _ _ Ha. exact Ha.
  - rewrite nextFrame_idle by exact Hf. split; [|split].
    + eapply Aborted; eassumption.
    + intros H. contradiction.
    + intros m _ _ Ha. exact Ha.
Qed.

Lemma frames_S (n : nat) (w : W) :
  FontCrawler.frames host target options (S n) w
  = FontCrawler.frames host target options n (FontCrawler.nextFrame host target options w).
Proof. reflexivity. Qed.

Lemma frames_idle (n : nat) (w : W) :
  animationFrames w = [] -> FontCrawler.frames host target options n w = w.
Proof.
  intros Hf. induction n as [|n IH]; [reflexivity|].
  rewrite frames_S, nextFrame_idle by exact Hf. exact IH.
Qed.

Lemma stage_frames (n : nat) (w0 w : W) (callback : option nat) :
  Stage host target options w0 callback w ->
  Stage host target options w0 callback (FontCrawler.frames host target options n w).
Proof.
  revert w. induction n as [|n IH]; intros w Hst; [exact Hst|].
  rewrite frames_S. apply IH. apply stage_step. exact Hst.
Qed.

Lemma alive_frames (n : nat) (w0 w : W) (callback : option nat) (m : Source) :
  Stage host target options w0 callback w ->
  handleAll host options (FontCrawler._getEntries host target options) ∅ = Returned m ->
  length (FontCrawler._getEntries host target options) <= S (callStack host) \/
  oneAtATime host (FontCrawler.asyncIntervalDuration options) ->
  alive w -> alive (FontCrawler.frames host target options n w).
Proof.
  intros Hst Hm Hfit. revert w Hst. induction n as [|n IH]; intros w Hst Ha; [exact Ha|].
  rewrite frames_S. destruct (stage_step w0 w callback Hst) as (Hst' & _ & Hstep).
  apply IH; [exact Hst'|]. eapply Hstep; eassumption.
Qed.

(** After as many frames as a crawl needs at most, no frame is left. *)
Lemma stage_finishes (n : nat) (w0 w : W) (callback : option nat) :
  Stage host target options w0 callback w ->
  remaining host target options w <= n ->
  animationFrames (FontCrawler.frames host target options n w) = [].
Proof.
  revert w. induction n as [|n IH]; intros w Hst Hrem.
  - change (animationFrames w = []). unfold remaining in Hrem.
    destruct (animationFrames w) as [|[h task] rest]; [reflexivity|].
    destruct task; lia.
  - rewrite frames_S. destruct (stage_step w0 w callback Hst) as (Hst' & Hdec & _).
    destruct (animationFrames w) as [|p rest] eqn:Hf.
    + rewrite nextFrame_idle by exact Hf. rewrite frames_idle; exact Hf.
    + apply IH; [exact Hst'|].
      assert (p :: rest <> []) as Hne by discriminate.
      specialize (Hdec Hne). lia.
Qed.

(** A crawl that has no frame left and was not aborted has delivered the
    whole map. *)
Lemma stage_finished (w0 w : W) (callback : option nat) :
  Stage host target options w0 callback w ->
  animationFrames w = [] ->
  alive w ->
  exists object,
    handleAll host options (FontCrawler._getEntries host target options) ∅ = Returned object /\
    __frameInterval w = None /\ __frameTimestamp w = None /\ 1 <= nextHandle w /\
    heap w = heap w0 ++ [object] /\
    events w = events w0 ++ match callback with
                            | Some c => [Invoked c (length (heap w0))]
                            | None => []
                            end.
Proof.
  intros [h task _ Hf|h done rest object Hf|h c object _ Hf
         |object Hf Hi Ht Hn Hall Hh He
         |h done rest object e Hf Hi Hh1] Hnil Ha;
    try (rewrite Hf in Hnil; discriminate).
  - exists object. repeat split; assumption.
  - specialize (Ha Hf). congruence.
Qed.

(** The events of a crawl in any stage: none yet, or the one call of the
    callback, made once the map is complete, or the exception that aborted
    the crawl. *)
Lemma stage_events (w0 w : W) (callback : option nat) :
  Stage host target options w0 callback w ->
  events w = events w0 \/
  (animationFrames w = [] /\
   __frameInterval w = None /\
   exists object,
     handleAll host options (FontCrawler._getEntries host target options) ∅ = Returned object /\
     heap w = heap w0 ++ [object] /\
     events w = events w0 ++ match callback with
                             | Some c => [Invoked c (length (heap w0))]
                             | None => []
                             end) \/
  (animationFrames w = [] /\
   FontCrawler.isPending w = true /\
   exists e, events w = events w0 ++ [Uncaught e] /\
     ((e = Js.TypeError /\
       handleAll host options (FontCrawler._getEntries host target options) ∅
       = Thrown Js.TypeError) \/
      (e = Js.RangeError /\
       S (callStack host) < length (FontCrawler._getEntries host target options)))).
Proof.
  intros [h task _ Hf Hi Ht Hh He
         |h done rest object Hf Hi _ _ Ht _ _ Hh He
         |h c object _ Hf Hi Ht _ _ Hh He
         |object Hf Hi Ht Hn Hall Hh He
         |h done rest object e Hf Hi Hh1 _ _ _ _ He Hcause]; auto.
  - right. left. eauto 10.
  - right. right. split; [exact Hf|]. split; [|eauto].
    unfold FontCrawler.isPending. rewrite Hi. destruct h; [lia | reflexivity].
Qed.

Lemma quiescent_idle (w : W) : quiescent w -> FontCrawler.isPending w = false.
Proof. intros (Hi & _). unfold FontCrawler.isPending. rewrite Hi. reflexivity. Qed.

Lemma crawl_returns (w : W) :
  FontCrawler.isPending w = false ->
  FontCrawler.crawl host target options w
  = (handleAll host options (FontCrawler._getEntries host target options) ∅, w).
Proof.
  intros Hp. unfold FontCrawler.crawl, FontCrawler._checkBusy, bind, lift.
  rewrite Hp. reflexivity.
Qed.

Lemma crawlAsync_starts (w0 : W) (callback : option nat) :
  quiescent w0 ->
  exists w1,
    FontCrawler.crawlAsync host target options callback w0 = (Returned tt, w1) /\
    Stage host target options w0 callback w1 /\
    alive w1 /\
    remaining host target options w1
    = length (FontCrawler._getEntries host target options) + 6.
Proof.
  intros (Hi & Ht & Hf & Hn).
  unfold FontCrawler.crawlAsync, FontCrawler._getEntriesAsync,
    FontCrawler._querySelectorElementsAsync, FontCrawler._checkBusy,
    FontCrawler._delayExec, FontCrawler.isPending, requestAnimationFrame, bind, ret.
  rewrite Hi. eexists. split; [reflexivity|]. split; [|split].
  - eapply (Collecting _ _ _ _ _ _ (nextHandle w0)); simpl;
      rewrite ?Hf; try reflexivity; try assumption; try lia.
    left. reflexivity.
  - intros _. exact Hi.
  - unfold remaining. simpl. rewrite Hf. reflexivity.
Qed.

(** A crawl started in a quiescent world runs through its stages; after
    six frames and one per entry no frame is left; and when every sample
    can be recorded and no slice exhausts the stack, the callback has then
    been called once, on the complete map. *)
Lemma crawlAsync_completes (w0 : W) (callback : option nat) :
  quiescent w0 ->
  exists w1,
    FontCrawler.crawlAsync host target options callback w0 = (Returned tt, w1) /\
    (forall n, Stage host target options w0 callback
                 (FontCrawler.frames host target options n w1)) /\
    (forall n, length (FontCrawler._getEntries host target options) + 6 <= n ->
       animationFrames (FontCrawler.frames host target options n w1) = []) /\
    (forall m,
       handleAll host options (FontCrawler._getEntries host target options) ∅ = Returned m ->
       length (FontCrawler._getEntries host target options) <= S (callStack host) \/
       oneAtATime host (FontCrawler.asyncIntervalDuration options) ->
       forall n, length (FontCrawler._getEntries host target options) + 6 <= n ->
         let w := FontCrawler.frames host target options n w1 in
         quiescent w /\
         heap w = heap w0 ++ [m] /\
         events w = events w0 ++ match callback with
                                 | Some c => [Invoked c (length (heap w0))]
                                 | None => []
                                 end).
Proof.
  intros Hq. destruct (crawlAsync_starts w0 callback Hq) as (w1 & E & Hst & Ha & Hrem).
  exists w1. split; [exact E|]. split; [|split].
  - intros n. apply stage_frames, Hst.
  - intros n Hn. apply (stage_finishes n w0 w1 callback Hst). lia.
  - intros m Hm Hfit n Hn w.
    assert (Hnil : animationFrames w = [])
      by (apply (stage_finishes n w0 w1 callback Hst); lia).
    destruct (stage_finished w0 w callback (stage_frames n w0 w1 callback Hst) Hnil)
      as (object & Hobj & Hi & Ht & Hnh & Hh & He).
    { eapply alive_frames; eassumption. }
    assert (object = m) as -> by congruence.
    repeat split; assumption.
Qed.

Lemma clear_twice (w : W) :
  (FontCrawler.clear (FontCrawler.clear w).2).2 = (FontCrawler.clear w).2.
Proof.
  unfold FontCrawler.clear, cancelAnimationFrame, bind, gets, modify, ret.
  destruct (__frameInterval w) as [[|h]|]; reflexivity.
Qed.

Lemma world_eta (w : W) :
  {| __frameInterval := __frameInterval w; __frameTimestamp := __frameTimestamp w;
     animationFrames := animationFrames w; nextHandle := nextHandle w;
     heap := heap w; clockReads := clockReads w; events := events w |} = w.
Proof. destruct w. reflexivity. Qed.

Lemma clear_idle (w : W) :
  __frameInterval w = None -> __frameTimestamp w = None ->
  FontCrawler.clear w = (Returned tt, w).
Proof.
  intros Hi Ht. unfold FontCrawler.clear, bind, gets, modify, ret. rewrite Hi.
  unfold set_frameInterval, set_frameTimestamp. simpl.
  rewrite <- (world_eta w) at 6. rewrite Hi, Ht. reflexivity.
Qed.

(** isPending holds while a frame for a slice is requested, and for ever
    after an exception has escaped a slice; in every other stage the
    crawler is idle and nothing it knows of is left to cancel. *)
Lemma stage_pending (w0 w : W) (callback : option nat) :
  Stage host target options w0 callback w ->
  if FontCrawler.isPending w
  then (exists h rest,
          __frameInterval w = Some (S h) /\
          animationFrames w =
            [(S h, FontCrawler.Bound_crawlAsyncCallback rest (length (heap w0)) callback)] /\
          events w = events w0 /\ 1 <= nextHandle w) \/
       (animationFrames w = [] /\ 1 <= nextHandle w /\
        exists e, events w = events w0 ++ [Uncaught e])
  else __frameInterval w = None /\ __frameTimestamp w = None.
Proof.
  unfold FontCrawler.isPending.
  intros [h task _ Hf Hi Ht Hh He
         |h done rest object Hf Hi Hh1 Hn Ht _ _ Hh He
         |h c object _ Hf Hi Ht _ _ Hh He
         |object Hf Hi Ht Hn _ Hh He
         |h done rest object e Hf Hi Hh1 Hn _ _ _ He _]; rewrite Hi; auto.
  - destruct h as [|h]; [lia|]. left. exists h, rest. auto.
  - destruct h as [|h]; [lia|]. right. eauto.
Qed.

End Scheduler.

Lemma fresh_quiescent {Task : Type} : quiescent (@fresh Task).
Proof. unfold quiescent. simpl. repeat split. lia. Qed.

(** C1. On one tree and one configuration, crawl() returns the map that
    crawlAsync() hands to its callback: at every frame the callback has not
    been called yet, or it has been called on an object that holds exactly
    the map crawl() returns, or an exception has escaped a slice and the
    crawl is over without a call.  When crawl() returns, and the stack
    holds a slice over all entries or no slice samples a second entry, the
    callback has been called after six frames and one per entry. *)
Theorem crawl_async_agree {Element : Type} (host : Host Element) (target : Element)
    (options : FontCrawler.Options Element)
    (w0 : World (FontCrawler.Task Element)) (c : nat) :
  quiescent w0 ->
  exists w1 : World (FontCrawler.Task Element),
    FontCrawler.crawlAsync host target options (Some c) w0 = (Returned tt, w1) /\
    (forall n,
        let w := FontCrawler.frames host target options n w1 in
        events w = events w0 \/
        (events w = events w0 ++ [Invoked c (length (heap w0))] /\
         exists m, FontCrawler.crawl host target options w0 = (Returned m, w0) /\
                   heap w !! length (heap w0) = Some m) \/
        (exists e, events w = events w0 ++ [Uncaught e] /\
                   FontCrawler.isPending w = true /\ animationFrames w = [])) /\
    (forall m,
        FontCrawler.crawl host target options w0 = (Returned m, w0) ->
        length (FontCrawler._getEntries host target options) <= S (callStack host) \/
        oneAtATime host (FontCrawler.asyncIntervalDuration options) ->
        forall n, length (FontCrawler._getEntries host target options) + 6 <= n ->
          let w := FontCrawler.frames host target options n w1 in
          events w = events w0 ++ [Invoked c (length (heap w0))] /\
          heap w !! length (heap w0) = Some m).
Proof.
  intros Hq.
  pose proof (crawl_returns host target options w0 (quiescent_idle w0 Hq)) as Hcrawl.
  destruct (crawlAsync_completes host target options w0 (Some c) Hq)
    as (w1 & E & Hst & _ & Hfin).
  exists w1. split; [exact E|]. split.
  - intros n w. destruct (stage_events host target options w0 w (Some c) (Hst n))
      as [He|[(_ & _ & object & Hall & Hh & He)|(Hf & Hp & e & He & _)]].
    + left. exact He.
    + right. left. split; [exact He|]. exists object. split.
      * rewrite Hcrawl, Hall. reflexivity.
      * rewrite Hh. apply list_lookup_middle. reflexivity.
    + right. right. exists e. auto.
  - intros m Hm Hfit n Hn w. rewrite Hcrawl in Hm. injection Hm as Hm.
    destruct (Hfin m Hm Hfit n Hn) as (_ & Hh & He).
    split; [exact He|]. unfold w. rewrite Hh. apply list_lookup_middle. reflexivity.
Qed.

Lemma crawl_async_agree_witness :
  exists (m : Source) (w1 : World (FontCrawler.Task nat)),
    FontCrawler.crawl Page.host 0%nat Page.georgia fresh = (Returned m, fresh) /\
    FontCrawler.crawlAsync Page.host 0%nat Page.georgia (Some 7%nat) fresh = (Returned tt, w1) /\
    forall n, 8 <= n ->
      let w := FontCrawler.frames Page.host 0%nat Page.georgia n w1 in
      events w = [Invoked 7 0] /\ heap w !! 0%nat = Some m.
Proof.
  destruct (crawl_async_agree Page.host 0%nat Page.georgia fresh 7%nat fresh_quiescent)
    as (w1 & E & _ & Hfin).
  exists {[ "Georgia" := ["400"; "400i"] ]}, w1.
  split; [vm_compute; reflexivity|]. split; [exact E|].
  apply Hfin; [vm_compute; reflexivity|]. left. vm_compute. lia.
Defined.

(** isPending is set by _crawlAsyncRequestFrame only: while the entries are
    being collected in delayed frames the crawler does not count as pending,
    and neither _checkBusy nor clear() sees the crawl. *)
Lemma collecting_is_not_pending {Element : Type} (host : Host Element) (target : Element)
    (options : FontCrawler.Options Element)
    (w0 : World (FontCrawler.Task Element)) (callback callback' : option nat) :
  quiescent w0 ->
  let w1 := (FontCrawler.crawlAsync host target options callback w0).2 in
  FontCrawler.isPending w1 = false /\
  FontCrawler.isPending (FontCrawler.nextFrame host target options w1) = false /\
  FontCrawler.clear w1 = (Returned tt, w1) /\
  animationFrames w1
  = [(nextHandle w0, FontCrawler.Delayed_querySelectorElements callback)] /\
  exists w2,
    FontCrawler.crawlAsync host target options callback' w1 = (Returned tt, w2) /\
    animationFrames w2
    = [(nextHandle w0, FontCrawler.Delayed_querySelectorElements callback);
       (S (nextHandle w0), FontCrawler.Delayed_querySelectorElements callback')].
Proof.
  intros (Hi & Ht & Hf & Hn).
  unfold FontCrawler.crawlAsync, FontCrawler._getEntriesAsync,
    FontCrawler._querySelectorElementsAsync, FontCrawler._checkBusy, FontCrawler._delayExec,
    FontCrawler.isPending, FontCrawler.nextFrame, runAnimationFrame,
    requestAnimationFrame, bind, ret.
  rewrite Hi. simpl. rewrite Hi, Hf. simpl. rewrite Hi.
  split; [reflexivity|]. split; [reflexivity|].
  split; [apply clear_idle; assumption|]. split; [reflexivity|].
  eexists. split; reflexivity.
Qed.

(** C3.  Once a slice has been requested the crawler is Pending, and
    crawl() and crawlAsync() throw the busy exception and leave the world
    as it was.  But crawlAsync() does not make the crawler Pending: it only
    requests the first frame of the entry pipeline, and until the entries
    have been collected isPending is false, crawl() is not rejected and a
    second crawlAsync() is accepted beside the first.  On the page the two
    crawls then interfere: the first one cancels the slice of the second
    when it clears, and the callback of the second is never called. *)
Theorem busy_misses_collecting :
  (forall {Element : Type} (host : Host Element) (target : Element)
          (options : FontCrawler.Options Element)
          (w : World (FontCrawler.Task Element)) (callback : option nat),
      FontCrawler.isPending w = true ->
      FontCrawler.crawl host target options w
      = (Thrown "FontCrawler: FontCrawler is busy.", w) /\
      FontCrawler.crawlAsync host target options callback w
      = (Thrown "FontCrawler: FontCrawler is busy.", w)) /\
  (forall {Element : Type} (host : Host Element) (target : Element)
          (options : FontCrawler.Options Element)
          (w0 : World (FontCrawler.Task Element)) (callback callback' : option nat),
      quiescent w0 ->
      let w1 := (FontCrawler.crawlAsync host target options callback w0).2 in
      animationFrames w1
      = [(nextHandle w0, FontCrawler.Delayed_querySelectorElements callback)] /\
      FontCrawler.isPending w1 = false /\
      FontCrawler.crawl host target options w1
      = (handleAll host options (FontCrawler._getEntries host target options) ∅, w1) /\
      exists w2,
        FontCrawler.crawlAsync host target options callback' w1 = (Returned tt, w2) /\
        animationFrames w2
        = [(nextHandle w0, FontCrawler.Delayed_querySelectorElements callback);
           (S (nextHandle w0), FontCrawler.Delayed_querySelectorElements callback')]) /\
  (let w1 := (FontCrawler.crawlAsync Page.host 0%nat Page.georgia (Some 7%nat) fresh).2 in
   let w2 := (FontCrawler.crawlAsync Page.host 0%nat Page.georgia (Some 8%nat) w1).2 in
   let w := FontCrawler.frames Page.host 0%nat Page.georgia 6 w2 in
   fst (FontCrawler.crawlAsync Page.host 0%nat Page.georgia (Some 8%nat) w1) = Returned tt /\
   animationFrames w = [] /\
   events w = [Invoked 7 0] /\
   heap w = [ {[ "Georgia" := ["400"; "400i"] ]}; ∅ ] /\
   forall k, FontCrawler.frames Page.host 0%nat Page.georgia k w = w).
Proof.
  split; [|split].
  - intros Element host target options w callback Hp. split.
    + unfold FontCrawler.crawl, FontCrawler._checkBusy, bind. rewrite Hp. reflexivity.
    + unfold FontCrawler.crawlAsync, FontCrawler._checkBusy, bind. rewrite Hp. reflexivity.
  - intros Element host target options w0 callback callback' Hq w1.
    destruct (collecting_is_not_pending host target options w0 callback callback' Hq)
      as (Hp & _ & _ & Hf & Hsecond).
    split; [exact Hf|]. split; [exact Hp|]. split; [apply crawl_returns, Hp | exact Hsecond].
  - repeat split; try (vm_compute; reflexivity).
    intros k. apply frames_idle. vm_compute. reflexivity.
Qed.

Lemma busy_misses_collecting_witness :
  (let w := FontCrawler.frames Page.host 0%nat Page.georgia 2
              (FontCrawler.crawlAsync Page.host 0%nat Page.georgia (Some 7%nat) fresh).2 in
   FontCrawler.isPending w = true /\
   FontCrawler.crawlAsync Page.host 0%nat Page.georgia (Some 8%nat) w
   = (Thrown "FontCrawler: FontCrawler is busy.", w)) /\
  (let w1 := (FontCrawler.crawlAsync Page.host 0%nat Page.georgia (Some 7%nat) fresh).2 in
   FontCrawler.isPending w1 = false /\
   exists w2, FontCrawler.crawlAsync Page.host 0%nat Page.georgia (Some 8%nat) w1
              = (Returned tt, w2)).
Proof.
  destruct busy_misses_collecting as (Hbusy & Hgap & _).
  split.
  - intros w.
    assert (Hp : FontCrawler.isPending w = true) by reflexivity.
    split; [exact Hp|].
    exact (proj2 (Hbusy nat Page.host 0%nat Page.georgia w (Some 8%nat) Hp)).
  - intros w1.
    destruct (Hgap nat Page.host 0%nat Page.georgia fresh (Some 7%nat) (Some 8%nat)
                fresh_quiescent) as (_ & Hp & _ & w2 & E & _).
    split; [exact Hp|]. exists w2. exact E.
Defined.

(** C4.  clear() while a slice is requested cancels it and leaves the
    crawler idle: no frame is left, so the callback is never called and the
    partial map is handed to nobody, and a later crawlAsync is accepted;
    clear() on an idle crawler changes nothing, and clear() twice is
    clear() once.  But clear() does not see a crawl whose entries are still
    being collected: called right after crawlAsync() it cancels nothing, the
    crawl goes on and its callback is called all the same. *)
Theorem clear_misses_collecting {Element : Type} (host : Host Element) (target : Element)
    (options : FontCrawler.Options Element)
    (w0 : World (FontCrawler.Task Element)) (c : nat) :
  quiescent w0 ->
  (forall n,
     let w := FontCrawler.frames host target options n
                (FontCrawler.crawlAsync host target options (Some c) w0).2 in
     (FontCrawler.isPending w = true ->
      exists w',
        FontCrawler.clear w = (Returned tt, w') /\
        quiescent w' /\
        events w' = events w /\
        (events w = events w0 \/ exists e, events w = events w0 ++ [Uncaught e]) /\
        (forall k, FontCrawler.frames host target options k w' = w') /\
        (forall c', exists w1,
            FontCrawler.crawlAsync host target options (Some c') w' = (Returned tt, w1))) /\
     (FontCrawler.isPending w = false -> FontCrawler.clear w = (Returned tt, w))) /\
  (forall v : World (FontCrawler.Task Element),
      (FontCrawler.clear (FontCrawler.clear v).2).2 = (FontCrawler.clear v).2) /\
  (let w1 := (FontCrawler.crawlAsync host target options (Some c) w0).2 in
   animationFrames w1 = [(nextHandle w0, FontCrawler.Delayed_querySelectorElements (Some c))] /\
   FontCrawler.clear w1 = (Returned tt, w1) /\
   forall m,
     FontCrawler.crawl host target options w0 = (Returned m, w0) ->
     length (FontCrawler._getEntries host target options) <= S (callStack host) \/
     oneAtATime host (FontCrawler.asyncIntervalDuration options) ->
     forall n, length (FontCrawler._getEntries host target options) + 6 <= n ->
       let w := FontCrawler.frames host target options n (FontCrawler.clear w1).2 in
       events w = events w0 ++ [Invoked c (length (heap w0))] /\
       heap w !! length (heap w0) = Some m).
Proof.
  intros Hq.
  destruct (crawlAsync_completes host target options w0 (Some c) Hq)
    as (w1 & E & Hst & _ & Hfin).
  rewrite E. simpl. split; [|split].
  - intros n. set (w := FontCrawler.frames host target options n w1).
    pose proof (stage_pending host target options w0 w (Some c) (Hst n)) as Hp.
    split.
    + intros Hpending. rewrite Hpending in Hp.
      destruct (clear_effect w) as (w' & Ec & Hi' & Ht' & Hf' & Hn' & Hh' & He').
      assert (Hnil : animationFrames w' = [] /\ 1 <= nextHandle w /\
                     (events w = events w0 \/ exists e, events w = events w0 ++ [Uncaught e])).
      { destruct Hp as [(h & rest & Hi & Hf & He & Hn)|(Hf & Hn & e & He)].
        - rewrite Hi, Hf in Hf'. split; [|auto].
          rewrite Hf'. rewrite filter_cons. simpl.
          destruct (decide (S h <> S h)) as [Hne|_]; [contradiction|]. reflexivity.
        - split; [|split; [exact Hn|eauto]].
          rewrite Hf'. rewrite Hf. destruct (__frameInterval w) as [[|h]|]; reflexivity. }
      destruct Hnil as (Hnil & Hn & Hev).
      assert (Hq' : quiescent w') by (unfold quiescent; repeat split; auto; lia).
      exists w'. split; [exact Ec|]. split; [exact Hq'|].
      split; [exact He'|]. split; [exact Hev|].
      split; [intros k; apply frames_idle, Hnil|].
      intros c'.
      destruct (crawlAsync_completes host target options w' (Some c') Hq') as (v1 & Ev & _).
      exists v1. exact Ev.
    + intros Hidle. rewrite Hidle in Hp. destruct Hp as (Hi & Ht).
      apply clear_idle; assumption.
  - intros v. apply clear_twice.
  - destruct (collecting_is_not_pending host target options w0 (Some c) None Hq)
      as (_ & _ & Hclear & Hf & _).
    rewrite E in Hclear, Hf. simpl in Hclear, Hf.
    split; [exact Hf|]. split; [exact Hclear|].
    intros m Hm Hfit n Hn. rewrite Hclear. simpl.
    rewrite (crawl_returns host target options w0 (quiescent_idle w0 Hq)) in Hm.
    injection Hm as Hm.
    destruct (Hfin m Hm Hfit n Hn) as (_ & Hh & He).
    split; [exact He|]. rewrite Hh. apply list_lookup_middle. reflexivity.
Qed.

Lemma clear_misses_collecting_witness :
  let w1 := (FontCrawler.crawlAsync Page.host 0%nat Page.georgia (Some 7%nat) fresh).2 in
  FontCrawler.clear w1 = (Returned tt, w1) /\
  forall n, 8 <= n ->
    events (FontCrawler.frames Page.host 0%nat Page.georgia n (FontCrawler.clear w1).2)
    = [Invoked 7 0].
Proof.
  intros w1.
  destruct (clear_misses_collecting Page.host 0%nat Page.georgia fresh 7%nat fresh_quiescent)
    as (_ & _ & _ & Hclear & Hfires).
  split; [exact Hclear|]. intros n Hn.
  refine (proj1 (Hfires {[ "Georgia" := ["400"; "400i"] ]} _ _ n Hn)).
  - vm_compute. reflexivity.
  - left. vm_compute. lia.
Defined.

(** ** Completion: how the callback is reached *)

Section Completion.
Context {Element : Type}.
Variable host : Host Element.
Variable target : Element.
Variable options : FontCrawler.Options Element.

Lemma crawlAsyncClear_dispatches (source c : nat) (w : World (FontCrawler.Task Element)) :
  exists w',
    FontCrawler._crawlAsyncClear source (Some c) w = (Returned tt, w') /\
    FontCrawler.isPending w' = false /\
    events w' = events w /\
    heap w' = heap w /\
    last (animationFrames w') = Some (nextHandle w, FontCrawler.Bound_callback c source).
Proof.
  destruct (clear_effect w) as (w1 & E & Hi & Ht & Hf & Hn & Hh & He).
  unfold FontCrawler._crawlAsyncClear, bind. rewrite E.
  unfold requestAnimationFrame, ret. eexists. split; [reflexivity|].
  unfold FontCrawler.isPending. simpl. rewrite Hi, Hn, last_snoc. auto.
Qed.

Lemma crawlAsyncClear_silent (source : nat) (callback : option nat)
    (w : World (FontCrawler.Task Element)) :
  exists w',
    FontCrawler._crawlAsyncClear source callback w = (Returned tt, w') /\
    events w' = events w.
Proof.
  destruct (clear_effect w) as (w1 & E & Hi & Ht & Hf & Hn & Hh & He).
  unfold FontCrawler._crawlAsyncClear, bind. rewrite E.
  destruct callback as [c|]; unfold requestAnimationFrame, ret;
    eexists; (split; [reflexivity|]); simpl; exact He.
Qed.

(** A method call on an object of the heap leaves everything but the heap
    as it was. *)
Lemma updateObject_effect {Task : Type} (method : Source -> Completion Source) (source : nat)
    (w : World Task) :
  exists c w',
    updateObject method source w = (c, w') /\
    __frameInterval w' = __frameInterval w /\
    __frameTimestamp w' = __frameTimestamp w /\
    animationFrames w' = animationFrames w /\
    nextHandle w' = nextHandle w /\
    clockReads w' = clockReads w /\
    events w' = events w.
Proof.
  unfold updateObject. destruct (heap w !! source) as [object|].
  - destruct (method object); eexists _, _; (split; [reflexivity|]); repeat split.
  - eexists _, _. split; [reflexivity|]. repeat split.
Qed.

(** The processing step never calls the callback, whether it returns or
    throws. *)
Lemma crawlAsyncCallback_silent (depth : nat) (entries : list (Element * option string))
    (source : nat) (callback : option nat) (w : World (FontCrawler.Task Element)) :
  events (FontCrawler._crawlAsyncCallback host options depth entries source callback w).2
  = events w.
Proof.
  revert depth w. induction entries as [|entry rest IH]; intros depth w;
    destruct (stampFrame_effect host w) as (w1 & E1 & _ & _ & _ & _ & He1).
  - simpl. unfold bind at 1. rewrite E1.
    destruct (crawlAsyncClear_silent source callback w1) as (w2 & E2 & He2).
    unfold FontCrawler._crawlAsyncRecursion. rewrite E2. simpl. congruence.
  - rewrite (crawlAsyncCallback_cons host options depth entry rest source callback w w1 E1).
    destruct (updateObject_effect (FontCrawler._handleEntry host options entry) source w1)
      as (c & w2 & E2 & _ & _ & _ & _ & _ & He2).
    unfold FontCrawler.handleEntryAt. rewrite E2.
    destruct c as [[]|e]; [|simpl; congruence].
    destruct rest as [|entry' rest'].
    + destruct (crawlAsyncClear_silent source callback w2) as (w3 & E3 & He3).
      unfold FontCrawler._crawlAsyncRecursion. rewrite E3. simpl. congruence.
    + rewrite crawlAsyncRecursion_cons. cbv zeta.
      set (w3 := set_clockReads _ w2).
      match goal with |- context [if ?c then _ else _] => destruct c end.
      * destruct depth as [|depth]; [simpl; congruence|].
        rewrite IH. simpl. congruence.
      * destruct (clear_effect w3) as (w4 & E4 & _ & _ & _ & _ & _ & He4).
        rewrite E4.
        unfold FontCrawler._crawlAsyncRequestFrame, bind, requestAnimationFrame, modify.
        simpl. simpl in He4. congruence.
Qed.

(** The only exception of a sample of the first revision is the
    TypeError. *)
Lemma counted_handleElement_thrown (element : Element) (pseudo : option string)
    (source : Source) (e : string) :
  CountBudgeted._handleElement host element pseudo source = Thrown e -> e = Js.TypeError.
Proof.
  unfold CountBudgeted._handleElement, CountBudgeted._handleSource.
  repeat match goal with
         | |- context [if ?b then _ else _] => destruct b
         | |- context [match ?m !! ?k with _ => _ end] => destruct (m !! k)
         end; try discriminate; intros [= <-]; reflexivity.
Qed.

Lemma processUpTo_effect (done : nat) (count : Js.number)
    (entries : list (Element * option string)) (source : nat)
    (w : World (CountBudgeted.Task Element)) :
  exists c w',
    CountBudgeted.processUpTo host done count entries source w = (c, w') /\
    (forall e, c = Thrown e -> e = Js.TypeError) /\
    animationFrames w' = animationFrames w /\
    nextHandle w' = nextHandle w /\
    events w' = events w.
Proof.
  revert done w. induction entries as [|entry entries IH]; intros done w; simpl.
  - destruct (Js.lt_num _ count); eexists _, w; (split; [reflexivity|]);
      (split; [discriminate|]); auto.
  - destruct (Js.lt_num _ count).
    + unfold bind.
      destruct (updateObject_effect
                  (CountBudgeted._handleElement host (fst entry) (snd entry)) source w)
        as (c1 & w1 & E1 & _ & _ & Hf1 & Hn1 & _ & He1).
      rewrite E1. destruct c1 as [[]|e1].
      * destruct (IH (S done) w1) as (c & w' & E & Hc & Hf & Hn & He).
        exists c, w'. rewrite E. split; [reflexivity|]. split; [exact Hc|].
        repeat split; congruence.
      * eexists _, w1. split; [reflexivity|]. split; [|auto].
        intros e [= <-]. revert E1. unfold updateObject.
        destruct (heap w !! source) as [object|]; [|discriminate].
        destruct (CountBudgeted._handleElement host (fst entry) (snd entry) object) eqn:Eh;
          [discriminate|].
        intros [= <- _]. eapply counted_handleElement_thrown, Eh.
    + eexists _, w. split; [reflexivity|]. split; [discriminate|]. auto.
Qed.

End Completion.

(** C5, as the code has it.  In src/font-crawler.js queue exhaustion
    first clears the crawler to idle and then requests an animation frame
    for the callback; the processing step itself never calls it, and once
    the callback has been called (or an exception has ended the crawl) no
    frame is left, so nothing changes any more.  The count-budgeted
    revision calls the callback at the end of the slice that empties the
    queue, and requests no frame after it. *)
Theorem completion_dispatch {Element : Type} (host : Host Element) (target : Element)
    (options : FontCrawler.Options Element) :
  (forall source c (w : World (FontCrawler.Task Element)),
      exists w',
        FontCrawler._crawlAsyncClear source (Some c) w = (Returned tt, w') /\
        FontCrawler.isPending w' = false /\
        events w' = events w /\
        heap w' = heap w /\
        last (animationFrames w') = Some (nextHandle w, FontCrawler.Bound_callback c source)) /\
  (forall depth entries source callback (w : World (FontCrawler.Task Element)),
      events (FontCrawler._crawlAsyncCallback host options depth entries source callback w).2
      = events w) /\
  (forall (w0 : World (FontCrawler.Task Element)) callback n,
      quiescent w0 ->
      let w := FontCrawler.frames host target options n
                 (FontCrawler.crawlAsync host target options callback w0).2 in
      events w <> events w0 ->
      (forall k, FontCrawler.frames host target options k w = w) /\
      ((exists c, callback = Some c /\
                  events w = events w0 ++ [Invoked c (length (heap w0))] /\
                  FontCrawler.isPending w = false) \/
       (exists e, events w = events w0 ++ [Uncaught e]))) /\
  (forall entries count source callback (w : World (CountBudgeted.Task Element)),
      let result := CountBudgeted.call host (CountBudgeted.Slice entries count source callback) w in
      (result.1 = Returned tt /\
       events result.2 = events w /\
       exists rest, rest <> [] /\
         animationFrames result.2
         = animationFrames w ++ [(nextHandle w, CountBudgeted.Slice rest count source callback)]) \/
      (result.1 = Returned tt /\
       animationFrames result.2 = animationFrames w /\
       events result.2 = events w ++ match callback with
                                     | Some c => [Invoked c source]
                                     | None => []
                                     end) \/
      (result.1 = Thrown Js.TypeError /\
       animationFrames result.2 = animationFrames w /\
       events result.2 = events w)).
Proof.
  split; [|split; [|split]].
  - intros. apply crawlAsyncClear_dispatches.
  - intros. apply crawlAsyncCallback_silent.
  - intros w0 callback n Hq w Hfired.
    destruct (crawlAsync_completes host target options w0 callback Hq) as (w1 & E & Hst & _).
    assert (Hstage : Stage host target options w0 callback w)
      by (unfold w; rewrite E; apply Hst).
    destruct (stage_events host target options w0 w callback Hstage)
      as [He|[(Hf & Hi & object & _ & _ & He)|(Hf & _ & e & He & _)]]; [contradiction| |].
    + split; [intros k; apply frames_idle, Hf|]. left.
      destruct callback as [c|]; [|rewrite app_nil_r in He; contradiction].
      exists c. split; [reflexivity|]. split; [exact He|].
      unfold FontCrawler.isPending. rewrite Hi. reflexivity.
    + split; [intros k; apply frames_idle, Hf|]. right. eauto.
  - intros entries count source callback w. simpl.
    destruct (processUpTo_effect host 0 count entries source w)
      as (c & w1 & E & Hc & Hf & Hn & He).
    unfold bind. rewrite E. destruct c as [rest|e].
    + destruct rest as [|entry rest].
      * right. left. destruct callback as [c|]; simpl.
        -- rewrite Hf, He. auto.
        -- rewrite Hf, He, app_nil_r. auto.
      * left. simpl. rewrite Hf, He, Hn. split; [reflexivity|]. split; [reflexivity|].
        eexists. split; [|reflexivity]. discriminate.
    + right. right. simpl. rewrite (Hc e eq_refl). auto.
Qed.

Lemma completion_dispatch_witness :
  let w := FontCrawler.frames Page.host 0%nat Page.georgia 5
             (FontCrawler.crawlAsync Page.host 0%nat Page.georgia (Some 7%nat) fresh).2 in
  events w <> [] /\
  forall k, FontCrawler.frames Page.host 0%nat Page.georgia k w = w.
Proof.
  intros w.
  assert (Hfired : events w <> events (@fresh (FontCrawler.Task nat))) by (vm_compute; discriminate).
  destruct (completion_dispatch Page.host 0%nat Page.georgia) as (_ & _ & Hdone & _).
  split; [exact Hfired|].
  exact (proj1 (Hdone fresh (Some 7%nat) 5 fresh_quiescent Hfired)).
Defined.

(** The count-budgeted revision: the frame that samples the last entry is
    the frame that calls the callback. *)
Lemma completion_dispatch_counterexample :
  let w1 := (CountBudgeted.crawlAsync Page.host 0%nat Page.counted (Some 7%nat) fresh).2 in
  let w2 := (CountBudgeted.call Page.host
               (CountBudgeted.Slice [(3%nat, None)] (Js.Num 1000) 0 (Some 7%nat))
               (set_animationFrames [] w1)).2 in
  animationFrames w1
    = [(1%nat, CountBudgeted.Slice [(3%nat, None)] (Js.Num 1000) 0 (Some 7%nat))] /\
  heap w1 = [∅] /\ events w1 = [] /\
  CountBudgeted.frames Page.host 1 w1 = w2 /\
  heap w2 = [{[ "Arial" := ["700i"] ]}] /\
  events w2 = [Invoked 7 0] /\
  ~ (forall entries count source callback (w : World (CountBudgeted.Task nat)),
       events (CountBudgeted.call Page.host
                 (CountBudgeted.Slice entries count source callback) w).2 = events w).
Proof.
  repeat split; try (vm_compute; reflexivity).
  intros H.
  specialize (H [] (Js.Num 1000) 0%nat (Some 7%nat) fresh).
  vm_compute in H. discriminate.
Defined.

(** ** Pseudo-element expansion in the two revisions *)

(** The expansion stage of src/font-crawler.js on the specification's
    example. *)
Lemma usePseudoElementEntries_before_after :
  FontCrawler._usePseudoElementEntries
    (Page.with_pseudo (FontCrawler.PseudoString "before,after") Page.georgia)
    [(3%nat, None)]
  = [(3%nat, None); (3%nat, Some "::before"); (3%nat, Some "::after")].
Proof. reflexivity. Qed.

(** C8, in the intermediate revision.  With pseudo elements configured,
    _addPseudoEntries returns the expansion only for no entry at all: for one
    entry it returns undefined, for more it throws. *)
Theorem addPseudoEntries_loses_entries {Element : Type} (options : Draft.Options Element)
    (s : string) (entries : list (Element * option string)) :
  Draft.usePseudoElements options = Some s -> s <> "" ->
  Draft._addPseudoEntries options entries =
  match entries with
  | [] => Returned (Some [])
  | [_] => Returned None
  | _ :: _ :: _ => Thrown Draft.TypeError
  end.
Proof.
  intros Hs Hne. unfold Draft._addPseudoEntries. rewrite Hs.
  destruct s as [|c s]; [contradiction|]. simpl Js.truthy. cbv iota.
  destruct entries as [|e1 [|e2 rest]]; reflexivity.
Qed.

Lemma addPseudoEntries_loses_entries_witness :
  Draft._addPseudoEntries Page.draft [(3%nat, None)] = Returned None /\
  Draft._addPseudoEntries Page.draft [(1%nat, None); (2%nat, None)] = Thrown Draft.TypeError.
Proof.
  split.
  - apply (addPseudoEntries_loses_entries Page.draft "before,after" [(3%nat, None)]);
      [reflexivity | discriminate].
  - apply (addPseudoEntries_loses_entries Page.draft "before,after"
             [(1%nat, None); (2%nat, None)]); [reflexivity | discriminate].
Defined.

(** ** The scheduling budgets *)

Section Budgets.
Context {Element : Type}.
Variable host : Host Element.
Variable target : Element.

Lemma invalidCount_falls_back (n : Js.number) :
  invalidCount n -> negb (Js.truthy_num n) || Js.is_negative n = true.
Proof.
  destruct n as [q| | |]; simpl; try tauto.
  intros Hq. unfold Js.Qltb.
  destruct (Qeq_bool q 0) eqn:E0; [reflexivity|]. simpl.
  destruct (Qle_bool 0 q) eqn:E1; [|reflexivity].
  apply Qle_bool_iff in E1.
  assert (Heq : (q == 0)%Q) by (apply Qle_antisym; assumption).
  apply Qeq_bool_iff in Heq. congruence.
Qed.

End Budgets.

(** C9, as the code has it.  A count budget that is zero, negative or not a
    number is replaced by the default 1000, and the crawl is the crawl
    configured with 1000.  An interval duration is never replaced: one that
    is NaN, or zero or negative while the clock does not run backwards, is
    compared as it is, so that every frame samples one entry; the crawl
    then hands the callback the map crawl() returns. *)
Theorem budget_fallback {Element : Type} (host : Host Element) (target : Element) :
  (forall (options : CountBudgeted.Options Element) callback
          (w : World (CountBudgeted.Task Element)),
      invalidCount (CountBudgeted.asyncMax options) ->
      CountBudgeted.crawlAsync host target options callback w
      = CountBudgeted.crawlAsync host target
          (CountBudgeted.with_asyncMax (Js.Num 1000) options) callback w /\
      exists w',
        CountBudgeted.crawlAsync host target options callback w = (Returned tt, w') /\
        animationFrames w'
        = animationFrames w ++
          [(nextHandle w,
            CountBudgeted.Slice (CountBudgeted._elementWithPseudoEntries host target options)
              (Js.Num 1000) (length (heap w)) callback)]) /\
  (forall (options : FontCrawler.Options Element) (d : Js.number)
          (w0 : World (FontCrawler.Task Element)) (c : nat) (m : Source),
      quiescent w0 ->
      oneAtATime host d ->
      FontCrawler.crawl host target options w0 = (Returned m, w0) ->
      let o := FontCrawler.with_asyncIntervalDuration d options in
      exists w1,
        FontCrawler.crawlAsync host target o (Some c) w0 = (Returned tt, w1) /\
        (forall entry next rest source callback depth (w : World (FontCrawler.Task Element))
                object object',
            __frameTimestamp w = None ->
            heap w !! source = Some object ->
            FontCrawler._handleEntry host o entry object = Returned object' ->
            exists w',
              FontCrawler._crawlAsyncCallback host o depth (entry :: next :: rest)
                source callback w = (Returned tt, w') /\
              heap w' = <[source := object']> (heap w) /\
              last (animationFrames w')
              = Some (nextHandle w,
                      FontCrawler.Bound_crawlAsyncCallback (next :: rest) source callback)) /\
        forall n, length (FontCrawler._getEntries host target options) + 6 <= n ->
          let w := FontCrawler.frames host target o n w1 in
          events w = events w0 ++ [Invoked c (length (heap w0))] /\
          heap w !! length (heap w0) = Some m).
Proof.
  split.
  - intros options callback w Hinv.
    apply invalidCount_falls_back in Hinv.
    unfold CountBudgeted.crawlAsync. rewrite Hinv. simpl.
    split; [reflexivity|]. eexists. split; [reflexivity|]. reflexivity.
  - intros options d w0 c m Hq Hone Hm o.
    destruct (crawlAsync_completes host target o w0 (Some c) Hq) as (w1 & E & _ & _ & Hfin).
    exists w1. split; [exact E|]. split.
    + intros entry next rest source callback depth w object object' Ht Hobj Eentry.
      destruct (slice_one_entry host o depth entry next rest source callback w object object'
                  Ht) as (w' & Es & Hh & _ & Hlast); auto.
      { destruct Hone as [->|(q & -> & Hq0 & Hclock)]; [left; reflexivity|].
        right. exists q. auto. }
      exists w'. auto.
    + intros n Hn w.
      rewrite (crawl_returns host target options w0 (quiescent_idle w0 Hq)) in Hm.
      injection Hm as Hm.
      destruct (Hfin m Hm (or_intror Hone) n Hn) as (_ & Hh & He).
      split; [exact He|]. unfold w. rewrite Hh.
      rewrite list_lookup_middle by reflexivity. reflexivity.
Qed.

Lemma budget_fallback_witness :
  let options := CountBudgeted.with_asyncMax (Js.Num 0) Page.counted in
  invalidCount (CountBudgeted.asyncMax options) /\
  CountBudgeted.crawlAsync Page.host 0%nat options (Some 7%nat) fresh
  = CountBudgeted.crawlAsync Page.host 0%nat Page.counted (Some 7%nat) fresh /\
  exists w1,
    FontCrawler.crawlAsync Page.host 0%nat
      (FontCrawler.with_asyncIntervalDuration Js.NaN Page.georgia) (Some 7%nat) fresh
    = (Returned tt, w1) /\
    forall n, 8 <= n ->
      let w := FontCrawler.frames Page.host 0%nat
                 (FontCrawler.with_asyncIntervalDuration Js.NaN Page.georgia) n w1 in
      events w = [Invoked 7 0] /\
      heap w !! 0%nat = Some {[ "Georgia" := ["400"; "400i"] ]}.
Proof.
  intros options.
  assert (Hinv : invalidCount (CountBudgeted.asyncMax options)) by (simpl; apply Qle_refl).
  destruct (budget_fallback Page.host 0%nat) as (Hcount & Hinterval).
  split; [exact Hinv|]. split.
  - exact (proj1 (Hcount options (Some 7%nat) fresh Hinv)).
  - destruct (Hinterval Page.georgia Js.NaN fresh 7%nat {[ "Georgia" := ["400"; "400i"] ]}
                fresh_quiescent) as (w1 & E & _ & Hfin).
    + left. reflexivity.
    + vm_compute. reflexivity.
    + exists w1. split; [exact E | exact Hfin].
Defined.

(** An interval of 0 is not replaced by the default 16: the third frame
    samples one entry and asks for another frame, where the default samples
    both entries and dispatches the callback. *)
Lemma budget_fallback_counterexample :
  let zero := FontCrawler.with_asyncIntervalDuration (Js.Num 0) Page.georgia in
  let w1 := (FontCrawler.crawlAsync Page.host 0%nat Page.georgia (Some 7%nat) fresh).2 in
  FontCrawler.asyncIntervalDuration Page.georgia
    = FontCrawler.asyncIntervalDuration (@FontCrawler._defaults nat) /\
  (FontCrawler.crawlAsync Page.host 0%nat zero (Some 7%nat) fresh).2 = w1 /\
  animationFrames (FontCrawler.frames Page.host 0%nat zero 3 w1)
    = [(4%nat, FontCrawler.Bound_crawlAsyncCallback [(2%nat, None)] 0 (Some 7%nat))] /\
  animationFrames (FontCrawler.frames Page.host 0%nat Page.georgia 3 w1)
    = [(4%nat, FontCrawler.Bound_callback 7 0)] /\
  FontCrawler.frames Page.host 0%nat zero 3 w1
    <> FontCrawler.frames Page.host 0%nat Page.georgia 3 w1.
Proof.
  repeat split; try (vm_compute; reflexivity).
  intros H. apply (f_equal animationFrames) in H. vm_compute in H. discriminate.
Defined.

(** ** An empty entry queue *)

Section EmptyQueue.
Context {Element : Type}.
Variable host : Host Element.
Variable target : Element.

(** src/font-crawler.js: the slice on an empty queue samples nothing and
    goes on to completion. *)
Lemma crawlAsyncCallback_empty (options : FontCrawler.Options Element) (depth : nat)
    (source : nat) (callback : option nat) (w : World (FontCrawler.Task Element)) :
  exists w',
    FontCrawler._crawlAsyncCallback host options depth [] source callback w = (Returned tt, w') /\
    heap w' = heap w /\ events w' = events w /\ FontCrawler.isPending w' = false.
Proof.
  destruct (stampFrame_effect host w) as (w1 & E1 & _ & _ & _ & Hh1 & He1).
  destruct (clear_effect w1) as (w2 & E2 & Hi2 & _ & _ & _ & Hh2 & He2).
  simpl. unfold bind at 1. rewrite E1.
  unfold FontCrawler._crawlAsyncRecursion, FontCrawler._crawlAsyncClear, bind. rewrite E2.
  unfold FontCrawler.isPending.
  destruct callback as [c|]; unfold requestAnimationFrame, ret;
    eexists; (split; [reflexivity|]); simpl; rewrite Hi2; repeat split; congruence.
Qed.

(** src/font-crawler.js: a crawl over no entries completes with the empty
    map. *)
Lemma empty_queue_completes (options : FontCrawler.Options Element)
    (w0 : World (FontCrawler.Task Element)) (c : nat) :
  quiescent w0 ->
  FontCrawler._getEntries host target options = [] ->
  exists w1,
    FontCrawler.crawlAsync host target options (Some c) w0 = (Returned tt, w1) /\
    forall n, 6 <= n ->
      let w := FontCrawler.frames host target options n w1 in
      FontCrawler.isPending w = false /\
      events w = events w0 ++ [Invoked c (length (heap w0))] /\
      heap w !! length (heap w0) = Some ∅.
Proof.
  intros Hq Hnone.
  destruct (crawlAsync_completes host target options w0 (Some c) Hq)
    as (w1 & E & _ & _ & Hfin).
  exists w1. split; [exact E|]. intros n Hn w.
  rewrite Hnone in Hfin.
  destruct (Hfin ∅ eq_refl (or_introl (Nat.le_0_l _)) n Hn) as (Hq' & Hh & He).
  split; [apply quiescent_idle, Hq'|]. split; [exact He|].
  unfold w. rewrite Hh. apply list_lookup_middle. reflexivity.
Qed.

Lemma draft_frames_idle (options : Draft.Options Element) (n : nat)
    (w : World (Draft.Task Element)) :
  animationFrames w = [] -> Draft.frames host target options n w = w.
Proof.
  intros Hf. induction n as [|n IH]; [reflexivity|].
  unfold Draft.frames in *. simpl. unfold runAnimationFrame at 1. rewrite Hf. exact IH.
Qed.

End EmptyQueue.

(** C10, in the intermediate revision.  The slice shifts an entry out of
    the queue without looking at its length: on an empty queue it throws a
    TypeError before anything is cleared, so the crawler stays Pending and
    the callback is never called. *)
Theorem draft_empty_queue_throws :
  (forall {Element : Type} (host : Host Element) (options : Draft.Options Element)
          (depth : nat) (source : nat) (callback : option nat) (w : World (Draft.Task Element)),
      exists w',
        Draft._crawlAsyncCallback host options depth (Some []) source callback w
        = (Thrown Draft.TypeError, w') /\
        __frameInterval w' = __frameInterval w /\
        animationFrames w' = animationFrames w /\
        heap w' = heap w /\
        events w' = events w) /\
  (let w1 := (Draft.crawlAsync Page.host 0%nat Page.draft_img (Some 7%nat) fresh).2 in
   let w := Draft.frames Page.host 0%nat Page.draft_img 3 w1 in
   Draft._getEntries Page.host 0%nat Page.draft_img = Returned (Some []) /\
   Draft.isPending w = true /\
   events w = [Uncaught Draft.TypeError] /\
   forall k, Draft.frames Page.host 0%nat Page.draft_img k w = w).
Proof.
  split.
  - intros Element host options depth source callback w.
    unfold Draft._crawlAsyncCallback, Draft._crawlAsyncCallback_array, Draft.stampFrame,
      Draft._getTimestamp, bind, gets, modify, ret, throw.
    destruct (__frameTimestamp w) as [t|]; [destruct (Qeq_bool t 0)|];
      eexists; (split; [reflexivity|]); simpl; repeat split.
  - repeat split; try (vm_compute; reflexivity).
    intros k. apply draft_frames_idle. vm_compute. reflexivity.
Qed.

(* ------------------------------------------------------------------ *)
(** * Further properties of the code *)

(** ** What the aggregation map holds *)

#[local] Instance token_le_Transitive : Transitive token_le.
Proof. intros a b c. apply token_le_trans. Qed.

#[local] Instance token_le_AntiSymm : AntiSymm (=) token_le.
Proof. intros a b. apply String.leb_antisym. Qed.

Lemma existsb_pointwise {A : Type} (f g : A -> bool) (l : list A) :
  (forall x, f x = g x) -> existsb f l = existsb g l.
Proof.
  intros H. induction l as [|x l IH]; simpl; [reflexivity|]. rewrite H, IH. reflexivity.
Qed.

Section Contents.
Context {Element : Type}.
Variable host : Host Element.
Variable options : FontCrawler.Options Element.

Lemma tokensOf_sampled (entry : Element * option string) (source : Source)
    (family t : string) :
  t ∈ tokensOf (sampled host options entry source) family <->
  t ∈ tokensOf source family \/
  (FontCrawler.isExcluded options (cssOf host entry) = false /\
   fontFamily (cssOf host entry) = family /\
   t = variantToken (cssOf host entry)).
Proof.
  unfold sampled, tokensOf. generalize (cssOf host entry). intros css.
  destruct (FontCrawler.isExcluded options css) eqn:Hex.
  { split; [auto|]. intros [H|(H & _)]; [exact H | discriminate]. }
  destruct (decide (family = fontFamily css)) as [->|Hne].
  - rewrite recorded_lookup. simpl.
    destruct (decide (variantToken css ∈ default [] (source !! fontFamily css))) as [Hin|Hin].
    + split; [auto|]. intros [H|(_ & _ & ->)]; assumption.
    + rewrite sort_perm, elem_of_app, list_elem_of_singleton. split.
      * intros [H| ->]; auto.
      * intros [H|(_ & _ & ->)]; auto.
  - rewrite recorded_other by exact Hne. split; [auto|].
    intros [H|(_ & H & _)]; [exact H | congruence].
Qed.

Lemma dom_sampled (entry : Element * option string) (source : Source) (family : string) :
  family ∈ dom (sampled host options entry source) <->
  family ∈ dom source \/
  (FontCrawler.isExcluded options (cssOf host entry) = false /\
   fontFamily (cssOf host entry) = family).
Proof.
  rewrite !elem_of_dom. unfold sampled. generalize (cssOf host entry). intros css.
  destruct (FontCrawler.isExcluded options css) eqn:Hex.
  { split; [auto|]. intros [H|(H & _)]; [exact H | discriminate]. }
  destruct (decide (family = fontFamily css)) as [->|Hne].
  - rewrite recorded_lookup. split; [auto|]. intros _. eexists. reflexivity.
  - rewrite recorded_other by exact Hne. split; [auto|].
    intros [H|(_ & H)]; [exact H | congruence].
Qed.

Lemma tokensOf_sampledAll (entries : list (Element * option string))
    (source : Source) (family t : string) :
  t ∈ tokensOf (sampledAll host options entries source) family <->
  t ∈ tokensOf source family \/
  exists entry, entry ∈ entries /\
    FontCrawler.isExcluded options (cssOf host entry) = false /\
    fontFamily (cssOf host entry) = family /\
    t = variantToken (cssOf host entry).
Proof.
  revert source. induction entries as [|entry entries IH]; intros source.
  - simpl. split; [auto|]. intros [H|(entry & H & _)]; [exact H|].
    apply elem_of_nil in H. contradiction.
  - change (sampledAll host options (entry :: entries) source)
      with (sampledAll host options entries (sampled host options entry source)).
    rewrite IH, tokensOf_sampled. split.
    + intros [[H|H]|(entry' & Hin & H)]; auto.
      * right. exists entry. split; [left | exact H].
      * right. exists entry'. split; [right; exact Hin | exact H].
    + intros [H|(entry' & Hin & H)]; auto.
      apply elem_of_cons in Hin as [->|Hin]; auto.
      right. exists entry'. auto.
Qed.

Lemma dom_sampledAll (entries : list (Element * option string))
    (source : Source) (family : string) :
  family ∈ dom (sampledAll host options entries source) <->
  family ∈ dom source \/
  exists entry, entry ∈ entries /\
    FontCrawler.isExcluded options (cssOf host entry) = false /\
    fontFamily (cssOf host entry) = family.
Proof.
  revert source. induction entries as [|entry entries IH]; intros source.
  - simpl. split; [auto|]. intros [H|(entry & H & _)]; [exact H|].
    apply elem_of_nil in H. contradiction.
  - change (sampledAll host options (entry :: entries) source)
      with (sampledAll host options entries (sampled host options entry source)).
    rewrite IH, dom_sampled. split.
    + intros [[H|H]|(entry' & Hin & H)]; auto.
      * right. exists entry. split; [left | exact H].
      * right. exists entry'. split; [right; exact Hin | exact H].
    + intros [H|(entry' & Hin & H)]; auto.
      apply elem_of_cons in Hin as [->|Hin]; auto.
      right. exists entry'. auto.
Qed.

Lemma sampled_wellFormed (entry : Element * option string) (source : Source) :
  wellFormed source -> wellFormed (sampled host options entry source).
Proof.
  intros Hwf. unfold sampled.
  destruct (FontCrawler.isExcluded options (cssOf host entry)); [exact Hwf|].
  apply recorded_wellFormed, Hwf.
Qed.

Lemma sampledAll_wellFormed (entries : list (Element * option string)) (source : Source) :
  wellFormed source -> wellFormed (sampledAll host options entries source).
Proof.
  revert source. induction entries as [|entry entries IH]; intros source Hwf; [exact Hwf|].
  apply IH, sampled_wellFormed, Hwf.
Qed.

(** Two well-formed maps with the same keys and the same tokens under each
    key are the same map. *)
Lemma wellFormed_ext (m m' : Source) :
  wellFormed m -> wellFormed m' ->
  (forall family, family ∈ dom m <-> family ∈ dom m') ->
  (forall family t, t ∈ tokensOf m family <-> t ∈ tokensOf m' family) ->
  m = m'.
Proof.
  intros Hwf Hwf' Hdom Htok. apply map_eq. intros family.
  specialize (Hdom family). rewrite !elem_of_dom in Hdom.
  specialize (Htok family). unfold tokensOf in Htok.
  destruct (m !! family) as [l|] eqn:E, (m' !! family) as [l'|] eqn:E'; simpl in Htok.
  - f_equal. destruct (Hwf _ _ E) as [Hs Hnd], (Hwf' _ _ E') as [Hs' Hnd'].
    apply (StronglySorted_unique token_le); try assumption.
    apply NoDup_Permutation; assumption.
  - exfalso. destruct Hdom as [H _]. destruct H as [x Hx]; [eexists; reflexivity | discriminate].
  - exfalso. destruct Hdom as [_ H]. destruct H as [x Hx]; [eexists; reflexivity | discriminate].
  - reflexivity.
Qed.

(** Sampling an entry throws for an unrecordable sample and returns the
    sampled map otherwise. *)
Lemma handleEntry_cases (entry : Element * option string) (source : Source) :
  FontCrawler._handleEntry host options entry source =
  if unrecordable options source (cssOf host entry) then Thrown Js.TypeError
  else Returned (sampled host options entry source).
Proof.
  rewrite handleEntry_as_handleSource, handleSource_cases. unfold sampled, unrecordable.
  destruct (FontCrawler.isExcluded options (cssOf host entry)); [|reflexivity].
  destruct (source !! fontFamily (cssOf host entry)); reflexivity.
Qed.

(** A sample that can be recorded leaves the unrecordable samples as they
    were. *)
Lemma unrecordable_sampled (entry : Element * option string) (source : Source) (css : Css) :
  unrecordable options source (cssOf host entry) = false ->
  unrecordable options (sampled host options entry source) css
  = unrecordable options source css.
Proof.
  unfold sampled. generalize (cssOf host entry). intros css0 Hrec.
  destruct (FontCrawler.isExcluded options css0) eqn:Hex; [reflexivity|].
  unfold unrecordable in *. rewrite Hex in Hrec.
  destruct (decide (fontFamily css = fontFamily css0)) as [Heq|Hne].
  - rewrite Heq, recorded_lookup.
    destruct (source !! fontFamily css0); [reflexivity|].
    simpl in Hrec. rewrite Hrec, andb_false_r. reflexivity.
  - rewrite recorded_other by exact Hne. reflexivity.
Qed.

(** The reduce over a list of entries throws when one of them is
    unrecordable and returns the map of the samples otherwise. *)
Lemma handleAll_cases (entries : list (Element * option string)) (source : Source) :
  handleAll host options entries source =
  if existsb (fun entry => unrecordable options source (cssOf host entry)) entries
  then Thrown Js.TypeError
  else Returned (sampledAll host options entries source).
Proof.
  revert source. induction entries as [|entry entries IH]; intros source; [reflexivity|].
  rewrite handleAll_cons, handleEntry_cases. simpl existsb.
  destruct (unrecordable options source (cssOf host entry)) eqn:Hrec; [reflexivity|].
  rewrite IH. simpl orb.
  rewrite (existsb_pointwise _ (fun e => unrecordable options source (cssOf host e)));
    [reflexivity|].
  intros e. apply unrecordable_sampled, Hrec.
Qed.

Lemma handleAll_returned (entries : list (Element * option string)) (source m : Source) :
  handleAll host options entries source = Returned m ->
  m = sampledAll host options entries source.
Proof.
  rewrite handleAll_cases. destruct (existsb _ entries); [discriminate|]. congruence.
Qed.

Lemma handleAll_wellFormed (entries : list (Element * option string)) (source m : Source) :
  wellFormed source -> handleAll host options entries source = Returned m -> wellFormed m.
Proof.
  intros Hwf H. apply handleAll_returned in H as ->. apply sampledAll_wellFormed, Hwf.
Qed.

Lemma sampledAll_included (entries : list (Element * option string)) (source : Source) :
  included source (sampledAll host options entries source).
Proof.
  intros family tokens Hlook.
  assert (Hdom : family ∈ dom (sampledAll host options entries source)).
  { rewrite dom_sampledAll. left. apply elem_of_dom. eexists. exact Hlook. }
  apply elem_of_dom in Hdom as [tokens' Hlook']. exists tokens'. split; [exact Hlook'|].
  intros t Ht.
  pose proof (tokensOf_sampledAll entries source family t) as H.
  unfold tokensOf in H. rewrite Hlook, Hlook' in H. simpl in H. apply H. left. exact Ht.
Qed.

Lemma handleAll_included (entries : list (Element * option string)) (source m : Source) :
  handleAll host options entries source = Returned m -> included source m.
Proof. intros H. apply handleAll_returned in H as ->. apply sampledAll_included. Qed.

End Contents.

(** X1. When the reduce of crawl() over a list of entries returns, the map
    holds, for each family, exactly the variant tokens of the entries
    sampled with that family; a family is a key exactly when some entry
    that is not excluded has it, so an excluded family is never a key.  The
    reduce throws, a TypeError, exactly when an entry that is not excluded
    has a family named like a member the object inherits. *)
Theorem crawl_contents {Element : Type} (host : Host Element)
    (options : FontCrawler.Options Element) (entries : list (Element * option string)) :
  (forall result, handleAll host options entries ∅ = Returned result ->
     (forall family,
         family ∈ dom result <->
         exists entry, entry ∈ entries /\
           FontCrawler.isExcluded options (cssOf host entry) = false /\
           fontFamily (cssOf host entry) = family) /\
     (forall family tokens, result !! family = Some tokens ->
         forall t, t ∈ tokens <->
           exists entry, entry ∈ entries /\
             FontCrawler.isExcluded options (cssOf host entry) = false /\
             fontFamily (cssOf host entry) = family /\
             t = variantToken (cssOf host entry)) /\
     (forall exclude family,
         FontCrawler.excludeFontFamilies options = Some exclude ->
         family ∈ exclude -> result !! family = None)) /\
  (forall e, handleAll host options entries ∅ = Thrown e -> e = Js.TypeError) /\
  (handleAll host options entries ∅ = Thrown Js.TypeError <->
   exists entry, entry ∈ entries /\
     FontCrawler.isExcluded options (cssOf host entry) = false /\
     Js.inherited (fontFamily (cssOf host entry)) = true).
Proof.
  split; [|split].
  - intros result Hresult. apply handleAll_returned in Hresult as ->. split; [|split].
    + intros family. rewrite dom_sampledAll, dom_empty. split.
      * intros [H|H]; [apply elem_of_empty in H; contradiction | exact H].
      * auto.
    + intros family tokens Hlook t.
      pose proof (tokensOf_sampledAll host options entries ∅ family t) as H.
      unfold tokensOf in H. rewrite Hlook, lookup_empty in H. simpl in H.
      rewrite H. split.
      * intros [Hn|Hx]; [apply elem_of_nil in Hn; contradiction | exact Hx].
      * auto.
    + intros exclude family Hopt Hin.
      apply not_elem_of_dom. rewrite dom_sampledAll, dom_empty.
      intros [H|(entry & _ & Hex & Hfam)]; [apply elem_of_empty in H; contradiction|].
      unfold FontCrawler.isExcluded in Hex. rewrite Hopt in Hex.
      apply negb_false_iff in Hex. apply indexOf_absent in Hex.
      rewrite Hfam in Hex. contradiction.
  - intros e. apply handleAll_thrown.
  - rewrite handleAll_cases.
    destruct (existsb _ entries) eqn:Hex.
    + split; [intros _|reflexivity].
      apply existsb_exists in Hex as (entry & Hin & Hrec).
      exists entry. split; [apply list_elem_of_In; exact Hin|].
      unfold unrecordable in Hrec. rewrite lookup_empty in Hrec.
      apply andb_true_iff in Hrec as [H1 H2]. apply negb_true_iff in H1. auto.
    + split; [discriminate|]. intros (entry & Hin & Hnot & Hinh). exfalso.
      assert (Htrue : existsb (fun entry => unrecordable options ∅ (cssOf host entry)) entries
                      = true).
      { apply existsb_exists. exists entry. split; [apply list_elem_of_In; exact Hin|].
        unfold unrecordable. rewrite lookup_empty, Hnot, Hinh. reflexivity. }
      congruence.
Qed.

Lemma crawl_contents_witness :
  handleAll Page.host Page.georgia [(1%nat, None); (2%nat, None)] ∅
    = Returned {[ "Georgia" := ["400"; "400i"] ]} /\
  forall t, t ∈ ["400"; "400i"] <->
    exists entry, entry ∈ [(1%nat, None); (2%nat, None)] /\
      FontCrawler.isExcluded Page.georgia (cssOf Page.host entry) = false /\
      fontFamily (cssOf Page.host entry) = "Georgia" /\
      t = variantToken (cssOf Page.host entry).
Proof.
  assert (Hall : handleAll Page.host Page.georgia [(1%nat, None); (2%nat, None)] ∅
                 = Returned {[ "Georgia" := ["400"; "400i"] ]}) by (vm_compute; reflexivity).
  split; [exact Hall|].
  refine (proj1 (proj2 (proj1 (crawl_contents Page.host Page.georgia
                                 [(1%nat, None); (2%nat, None)]) _ Hall))
            "Georgia" ["400"; "400i"] _).
  vm_compute. reflexivity.
Defined.

(** X2. Recording a sample a second time changes nothing: when the first
    recording returns, the second returns the same map, and when the first
    throws, nothing has been recorded. *)
Theorem handleSource_idempotent {Element : Type} (options : FontCrawler.Options Element)
    (e e' : Element) (p p' : option string) (css : Css) (source : Source) :
  match FontCrawler._handleSource options e p css source with
  | Returned m => FontCrawler._handleSource options e' p' css m
  | Thrown exception => Thrown exception
  end
  = FontCrawler._handleSource options e p css source.
Proof.
  rewrite !handleSource_cases.
  destruct (FontCrawler.isExcluded options css) eqn:Hex.
  { rewrite handleSource_cases, Hex. reflexivity. }
  destruct (unrecordable options source css) eqn:Hrec; [reflexivity|].
  rewrite handleSource_cases, Hex.
  assert (Hrec' : unrecordable options (recorded css source) css = false).
  { unfold unrecordable. rewrite recorded_lookup. reflexivity. }
  rewrite Hrec'. f_equal.
  apply map_eq. intros family.
  destruct (decide (family = fontFamily css)) as [->|Hne].
  - rewrite !recorded_lookup. simpl.
    destruct (decide (variantToken css ∈ default [] (source !! fontFamily css))) as [Hin|Hin].
    + destruct (decide (variantToken css ∈ default [] (source !! fontFamily css)));
        [reflexivity | contradiction].
    + match goal with |- context [decide ?P] => destruct (decide P) as [H|H] end;
        [reflexivity|].
      exfalso. apply H. rewrite sort_perm, elem_of_app, list_elem_of_singleton. auto.
  - rewrite !recorded_other by exact Hne. reflexivity.
Qed.

(** X3. The result does not depend on the order in which the entries are
    sampled: starting from a well-formed map, two arrangements of the same
    entries give the same map, or throw alike. *)
Theorem handleAll_order_independent {Element : Type} (host : Host Element)
    (options : FontCrawler.Options Element)
    (entries entries' : list (Element * option string)) (source : Source) :
  wellFormed source ->
  entries ≡ₚ entries' ->
  handleAll host options entries source = handleAll host options entries' source.
Proof.
  intros Hwf Hperm. rewrite !handleAll_cases.
  assert (Hsame : existsb (fun entry => unrecordable options source (cssOf host entry)) entries
                  = existsb (fun entry => unrecordable options source (cssOf host entry)) entries').
  { apply eq_true_iff_eq. rewrite !existsb_exists.
    split; intros (x & Hin & Hx); exists x; (split; [|exact Hx]);
      apply list_elem_of_In; apply list_elem_of_In in Hin;
      [rewrite <- Hperm | rewrite Hperm]; exact Hin. }
  rewrite Hsame. destruct (existsb _ entries'); [reflexivity|]. f_equal.
  apply wellFormed_ext; try (apply sampledAll_wellFormed; exact Hwf).
  - intros family. rewrite !dom_sampledAll. setoid_rewrite Hperm. reflexivity.
  - intros family t. rewrite !tokensOf_sampledAll. setoid_rewrite Hperm. reflexivity.
Qed.

Lemma handleAll_order_independent_witness :
  handleAll Page.host Page.georgia [(1%nat, None); (2%nat, None); (3%nat, None)] ∅
  = handleAll Page.host Page.georgia [(3%nat, None); (2%nat, None); (1%nat, None)] ∅.
Proof.
  apply handleAll_order_independent; [apply wellFormed_empty|].
  apply (Permutation_rev [(1%nat, None); (2%nat, None); (3%nat, None)]).
Defined.

(** X4. Sampling never removes anything: every key stays, with at least the
    tokens it had, and every token keeps its family. *)
Theorem handleAll_grows {Element : Type} (host : Host Element)
    (options : FontCrawler.Options Element)
    (entries more : list (Element * option string)) (source : Source) :
  (forall m, handleAll host options entries source = Returned m -> included source m) /\
  (forall m', handleAll host options (entries ++ more) source = Returned m' ->
     exists m, handleAll host options entries source = Returned m /\ included m m').
Proof.
  split; [intros m; apply handleAll_included|].
  intros m' H. rewrite handleAll_app in H.
  destruct (handleAll host options entries source) as [m|] eqn:E; [|discriminate].
  exists m. split; [reflexivity|]. eapply handleAll_included, H.
Qed.

Lemma handleAll_grows_witness :
  exists m, handleAll Page.host Page.georgia [(1%nat, None)] ∅ = Returned m /\
            included m {[ "Georgia" := ["400"; "400i"] ]}.
Proof.
  apply (proj2 (handleAll_grows Page.host Page.georgia [(1%nat, None)] [(2%nat, None)] ∅)).
  vm_compute. reflexivity.
Defined.

(** ** What can be seen of a crawl in progress *)

(** X5. Whatever number of frames has run, the source object of an
    asynchronous crawl holds the map of a prefix of the entries, in the order
    of the pipeline: it is well formed and included in the final map. *)
Theorem partial_map_observed {Element : Type} (host : Host Element) (target : Element)
    (options : FontCrawler.Options Element)
    (w0 : World (FontCrawler.Task Element)) (callback : option nat) (n : nat) (m : Source) :
  quiescent w0 ->
  heap (FontCrawler.frames host target options n
          (FontCrawler.crawlAsync host target options callback w0).2)
    !! length (heap w0) = Some m ->
  (exists done rest,
      done ++ rest = FontCrawler._getEntries host target options /\
      handleAll host options done ∅ = Returned m) /\
  wellFormed m /\
  (forall final,
      handleAll host options (FontCrawler._getEntries host target options) ∅ = Returned final ->
      included m final).
Proof.
  intros Hq Hlook.
  destruct (crawlAsync_completes host target options w0 callback Hq) as (w1 & E & Hst & _).
  rewrite E in Hlook. simpl in Hlook.
  assert (Hprefix : exists done rest,
             done ++ rest = FontCrawler._getEntries host target options /\
             handleAll host options done ∅ = Returned m).
  { destruct (Hst n) as [h task _ _ _ _ Hh _ _
                        |h done rest object _ _ _ _ _ Hsplit Hdone Hh _
                        |h c object _ _ _ _ _ Hall Hh _
                        |object _ _ _ _ Hall Hh _
                        |h done rest object e _ _ _ _ Hsplit Hdone Hh _ _]; rewrite Hh in Hlook.
    - rewrite lookup_ge_None_2 in Hlook by lia. discriminate.
    - rewrite list_lookup_middle in Hlook by reflexivity. injection Hlook as <-.
      exists done, rest. auto.
    - rewrite list_lookup_middle in Hlook by reflexivity. injection Hlook as <-.
      exists (FontCrawler._getEntries host target options), []. rewrite app_nil_r. auto.
    - rewrite list_lookup_middle in Hlook by reflexivity. injection Hlook as <-.
      exists (FontCrawler._getEntries host target options), []. rewrite app_nil_r. auto.
    - rewrite list_lookup_middle in Hlook by reflexivity. injection Hlook as <-.
      exists done, rest. auto. }
  split; [exact Hprefix|].
  destruct Hprefix as (done & rest & Hsplit & Hdone). split.
  - eapply handleAll_wellFormed; [apply wellFormed_empty | exact Hdone].
  - intros final Hfinal. rewrite <- Hsplit, handleAll_app, Hdone in Hfinal.
    eapply handleAll_included, Hfinal.
Qed.

Lemma partial_map_observed_witness :
  let m := {[ "Georgia" := ["400"] ]} : Source in
  heap (FontCrawler.frames Page.host 0%nat
          (FontCrawler.with_asyncIntervalDuration (Js.Num 0) Page.georgia) 3
          (FontCrawler.crawlAsync Page.host 0%nat
             (FontCrawler.with_asyncIntervalDuration (Js.Num 0) Page.georgia)
             (Some 7%nat) fresh).2)
    !! 0%nat = Some m /\
  wellFormed m /\
  included m {[ "Georgia" := ["400"; "400i"] ]}.
Proof.
  intros m.
  assert (Hlook : heap (FontCrawler.frames Page.host 0%nat
          (FontCrawler.with_asyncIntervalDuration (Js.Num 0) Page.georgia) 3
          (FontCrawler.crawlAsync Page.host 0%nat
             (FontCrawler.with_asyncIntervalDuration (Js.Num 0) Page.georgia)
             (Some 7%nat) fresh).2)
    !! 0%nat = Some m) by (vm_compute; reflexivity).
  split; [exact Hlook|].
  destruct (partial_map_observed Page.host 0%nat
              (FontCrawler.with_asyncIntervalDuration (Js.Num 0) Page.georgia)
              fresh (Some 7%nat) 3 m fresh_quiescent Hlook) as (_ & Hwf & Hincl).
  split; [exact Hwf|]. apply Hincl. vm_compute. reflexivity.
Defined.

(** ** The length of a slice *)

(** X6. An interval duration that is NaN, or zero or negative while the
    clock does not run backwards, makes a slice sample exactly one entry: if
    entries are left after a sample that could be recorded, the next frame
    is requested for them and the slice does not call itself, whatever the
    depth of the stack. *)
Theorem one_entry_per_frame {Element : Type} (host : Host Element)
    (options : FontCrawler.Options Element) (depth : nat)
    (entry next : Element * option string) (rest : list (Element * option string))
    (source : nat) (callback : option nat) (w : World (FontCrawler.Task Element))
    (object object' : Source) :
  __frameTimestamp w = None ->
  FontCrawler.asyncIntervalDuration options = Js.NaN \/
  (exists q, FontCrawler.asyncIntervalDuration options = Js.Num q /\ (q <= 0)%Q /\
             (getTime host (clockReads w) <= getTime host (S (clockReads w)))%Z) ->
  heap w !! source = Some object ->
  FontCrawler._handleEntry host options entry object = Returned object' ->
  exists w',
    FontCrawler._crawlAsyncCallback host options depth (entry :: next :: rest) source callback w
    = (Returned tt, w') /\
    heap w' = <[source := object']> (heap w) /\
    __frameInterval w' = Some (nextHandle w) /\
    last (animationFrames w')
    = Some (nextHandle w, FontCrawler.Bound_crawlAsyncCallback (next :: rest) source callback).
Proof. apply slice_one_entry. Qed.

Lemma one_entry_per_frame_witness :
  let options := FontCrawler.with_asyncIntervalDuration (Js.Num 0) Page.georgia in
  exists w',
    FontCrawler._crawlAsyncCallback Page.host options 0
      [(1%nat, None); (2%nat, None)] 0 (Some 7%nat)
      (set_heap [∅] fresh)
    = (Returned tt, w') /\
    heap w' = [ {[ "Georgia" := ["400"] ]} ] /\
    __frameInterval w' = Some 1%nat.
Proof.
  intros options.
  destruct (one_entry_per_frame Page.host options 0 (1%nat, None) (2%nat, None) [] 0
              (Some 7%nat) (set_heap [∅] fresh) ∅ {[ "Georgia" := ["400"] ]} eq_refl)
    as (w' & E & Hh & Hi & _).
  - right. exists 0%Q. split; [reflexivity|]. split; [apply Qle_refl|]. simpl. lia.
  - reflexivity.
  - vm_compute. reflexivity.
  - exists w'. repeat split; assumption.
Defined.

(** X7. With an infinite interval duration the first slice takes the whole
    queue.  When the stack holds it, and every sample can be recorded, the
    crawler is idle afterwards and only the frame of the callback is
    requested.  When the queue is longer than the stack allows, the slice
    ends in a RangeError after the entries the stack allowed: nothing is
    cleared, isPending stays as it was and no frame is requested, neither
    for the entries left nor for the callback. *)
Theorem whole_queue_in_one_frame {Element : Type} (host : Host Element)
    (options : FontCrawler.Options Element) (depth : nat)
    (entries : list (Element * option string))
    (source : nat) (callback : option nat) (w : World (FontCrawler.Task Element))
    (object object' : Source) :
  FontCrawler.asyncIntervalDuration options = Js.PosInfinity ->
  animationFrames w = [] ->
  heap w !! source = Some object ->
  handleAll host options (take (S depth) entries) object = Returned object' ->
  exists w',
    heap w' = <[source := object']> (heap w) /\
    events w' = events w /\
    (length entries <= S depth ->
     FontCrawler._crawlAsyncCallback host options depth entries source callback w
     = (Returned tt, w') /\
     FontCrawler.isPending w' = false /\
     animationFrames w' = match callback with
                          | Some c => [(nextHandle w, FontCrawler.Bound_callback c source)]
                          | None => []
                          end) /\
    (S depth < length entries ->
     FontCrawler._crawlAsyncCallback host options depth entries source callback w
     = (Thrown Js.RangeError, w') /\
     FontCrawler.isPending w' = FontCrawler.isPending w /\
     animationFrames w' = []).
Proof.
  intros Hinf. revert depth w object.
  induction entries as [|entry rest IH]; intros depth w object Hf Hobj Hall.
  - destruct (crawlAsyncCallback_slice host options depth [] source callback w object Hf Hobj)
      as (k & w' & o' & Hk & Hsampled & Hh & He & [(E & _ & Hcase)|(e & _ & _ & _ & _ & Hlt & _)]);
      [|simpl in Hlt; lia].
    destruct Hcase as [(_ & Hi & Hfr & _)|(Hk' & _)]; [|simpl in Hk'; lia].
    simpl in Hk. assert (k = 0) as -> by lia.
    simpl in Hsampled, Hall. assert (o' = object') as -> by congruence.
    exists w'. split; [exact Hh|]. split; [exact He|]. split.
    + intros _. split; [exact E|].
      split; [unfold FontCrawler.isPending; rewrite Hi; reflexivity | exact Hfr].
    + simpl. lia.
  - destruct (stampFrame_effect host w) as (w1 & E1 & Hi1 & Hf1 & Hn1 & Hh1 & He1).
    assert (Hstamped : is_Some (__frameTimestamp w1)).
    { revert E1. unfold FontCrawler.stampFrame, FontCrawler._getTimestamp, bind, gets, modify, ret.
      destruct (__frameTimestamp w) as [t|] eqn:Et; [destruct (Qeq_bool t 0)|];
        intros [= <-]; simpl; eauto. }
    rewrite Hf in Hf1.
    assert (Hobj1 : heap w1 !! source = Some object) by (rewrite Hh1; exact Hobj).
    rewrite (crawlAsyncCallback_cons host options depth entry rest source callback w w1 E1).
    change (take (S depth) (entry :: rest)) with (entry :: take depth rest) in Hall.
    rewrite handleAll_cons in Hall.
    destruct (FontCrawler._handleEntry host options entry object) as [o1|] eqn:Eentry;
      [|discriminate].
    rewrite (handleEntryAt_returned host options _ _ _ _ _ Hobj1 Eentry).
    set (w2 := set_heap _ w1).
    assert (Hlt : source < length (heap w)) by (eapply lookup_lt_Some; exact Hobj).
    assert (Hh2 : heap w2 = <[source := o1]> (heap w)) by (unfold w2; simpl; rewrite Hh1; reflexivity).
    destruct rest as [|entry' rest'].
    + rewrite take_nil in Hall. simpl in Hall. injection Hall as <-.
      destruct (crawlAsyncClear_effect source callback w2 Hf1)
        as (w3 & E3 & Hi3 & Ht3 & Hf3 & Hn3 & Hh3 & He3).
      exists w3. split; [rewrite Hh3; exact Hh2|]. split; [simpl in He3; congruence|]. split.
      * intros _. unfold FontCrawler._crawlAsyncRecursion. rewrite E3.
        split; [reflexivity|].
        split; [unfold FontCrawler.isPending; rewrite Hi3; reflexivity|].
        rewrite Hf3. simpl. rewrite Hn1. reflexivity.
      * simpl. lia.
    + rewrite crawlAsyncRecursion_cons. cbv zeta.
      set (w3 := set_clockReads _ w2).
      destruct Hstamped as [t Et].
      change (__frameTimestamp w2) with (__frameTimestamp w1). rewrite Et, Hinf.
      simpl Js.lt_num. cbv iota.
      destruct depth as [|depth].
      * rewrite take_0 in Hall. simpl in Hall. injection Hall as <-.
        exists w3. split; [exact Hh2|]. split; [exact He1|]. split.
        -- simpl. lia.
        -- intros _. split; [reflexivity|].
           split; [unfold FontCrawler.isPending; change (__frameInterval w3) with (__frameInterval w1);
                   rewrite Hi1; reflexivity | exact Hf1].
      * assert (Hobj3 : heap w3 !! source = Some o1).
        { change (heap w3) with (heap w2). rewrite Hh2. apply list_lookup_insert_eq. exact Hlt. }
        destruct (IH depth w3 o1 Hf1 Hobj3 Hall) as (w' & Hh & He & Hfit & Hover).
        exists w'. split.
        { rewrite Hh. change (heap w3) with (heap w2). rewrite Hh2.
          apply list_insert_insert_eq. }
        split; [simpl in He; congruence|]. split.
        -- intros Hlen. destruct Hfit as (E & Hp & Hfr); [simpl in *; lia|].
           split; [exact E|]. split; [exact Hp|]. rewrite Hfr. simpl. rewrite Hn1. reflexivity.
        -- intros Hlen. destruct Hover as (E & Hp & Hfr); [simpl in *; lia|].
           split; [exact E|]. split; [|exact Hfr].
           rewrite Hp. unfold FontCrawler.isPending.
           change (__frameInterval w3) with (__frameInterval w1). rewrite Hi1. reflexivity.
Qed.

Lemma whole_queue_in_one_frame_witness :
  let options := FontCrawler.with_asyncIntervalDuration Js.PosInfinity Page.georgia in
  let entries := [(1%nat, None); (2%nat, None); (3%nat, None)] in
  let w := set_frameInterval (Some 1%nat) (set_heap [∅] fresh) in
  (exists w',
     FontCrawler._crawlAsyncCallback Page.host options 2 entries 0 (Some 7%nat) w
     = (Returned tt, w') /\
     FontCrawler.isPending w' = false /\
     heap w' = [ {[ "Arial" := ["700i"]; "Georgia" := ["400"; "400i"] ]} ]) /\
  (exists w',
     FontCrawler._crawlAsyncCallback Page.host options 1 entries 0 (Some 7%nat) w
     = (Thrown Js.RangeError, w') /\
     FontCrawler.isPending w' = true /\
     animationFrames w' = [] /\
     heap w' = [ {[ "Georgia" := ["400"; "400i"] ]} ]).
Proof.
  intros options entries w. split.
  - destruct (whole_queue_in_one_frame Page.host options 2 entries 0 (Some 7%nat) w ∅
                {[ "Arial" := ["700i"]; "Georgia" := ["400"; "400i"] ]} eq_refl eq_refl eq_refl)
      as (w' & Hh & _ & Hfit & _); [vm_compute; reflexivity|].
    destruct Hfit as (E & Hp & _); [simpl; lia|].
    exists w'. split; [exact E|]. split; [exact Hp | exact Hh].
  - destruct (whole_queue_in_one_frame Page.host options 1 entries 0 (Some 7%nat) w ∅
                {[ "Georgia" := ["400"; "400i"] ]} eq_refl eq_refl eq_refl)
      as (w' & Hh & _ & _ & Hover); [vm_compute; reflexivity|].
    destruct Hover as (E & Hp & Hf); [simpl; lia|].
    exists w'. split; [exact E|]. split; [exact Hp|]. split; [exact Hf | exact Hh].
Defined.

(** X8. clear() works in every world: the crawler is idle afterwards, so a
    crawl() that follows is not rejected and does what crawl() does; the
    maps, the events and every requested frame but the one whose id the
    crawler held are left as they were. *)
Theorem clear_recovers {Element : Type} (host : Host Element) (target : Element)
    (options : FontCrawler.Options Element) (w : World (FontCrawler.Task Element)) :
  exists w',
    FontCrawler.clear w = (Returned tt, w') /\
    FontCrawler.isPending w' = false /\
    FontCrawler.crawl host target options w'
    = (handleAll host options (FontCrawler._getEntries host target options) ∅, w') /\
    heap w' = heap w /\ events w' = events w /\
    (forall h task, (h, task) ∈ animationFrames w' <->
                    (h, task) ∈ animationFrames w /\
                    ~ (FontCrawler.isPending w = true /\ __frameInterval w = Some h)).
Proof.
  destruct (clear_effect w) as (w' & E & Hi & Ht & Hf & Hn & Hh & He).
  exists w'. split; [exact E|].
  assert (Hp : FontCrawler.isPending w' = false)
    by (unfold FontCrawler.isPending; rewrite Hi; reflexivity).
  split; [exact Hp|]. split; [apply crawl_returns; exact Hp|].
  split; [exact Hh|]. split; [exact He|].
  intros h task. rewrite Hf. unfold FontCrawler.isPending.
  destruct (__frameInterval w) as [[|h']|].
  - split; [intros H; split; [exact H | intros [? _]; discriminate] | tauto].
  - rewrite list_elem_of_filter. simpl. split.
    + intros [Hne Hin]. split; [exact Hin|]. intros [_ [= <-]]. contradiction.
    + intros [Hin Hne]. split; [|exact Hin]. intros ->. apply Hne. auto.
  - split; [intros H; split; [exact H | intros [? _]; discriminate] | tauto].
Qed.

(** ** The entries of the pipeline *)

Section Entries.
Context {Element : Type}.
Variable host : Host Element.
Variable target : Element.
Variable options : FontCrawler.Options Element.

Lemma strip_no_colon (s : string) :
  match Js.strip_leading_colons s with
  | String c _ => c <> ":"%char
  | EmptyString => True
  end.
Proof.
  induction s as [|c s IH]; simpl; [exact I|].
  destruct (Ascii.eqb_spec c ":") as [->|Hne]; [exact IH|].
  destruct c as [[] [] [] [] [] [] [] []]; simpl; try exact Hne; exact IH.
Qed.

Lemma strip_strip (s : string) :
  Js.strip_leading_colons (Js.strip_leading_colons s) = Js.strip_leading_colons s.
Proof.
  pose proof (strip_no_colon s) as H.
  destruct (Js.strip_leading_colons s) as [|c t]; [reflexivity|].
  destruct c as [[] [] [] [] [] [] [] []]; try reflexivity. contradiction.
Qed.

Lemma in_expansion (names : list string) (base entry : Element * option string) :
  In entry (expansionOf names base) ->
  fst entry = fst base /\
  (entry = base \/
   exists name, snd entry = Some ("::" +:+ Js.strip_leading_colons name)).
Proof.
  unfold expansionOf. intros [<-|Hin]; [auto|].
  apply in_map_iff in Hin as (name & <- & _). simpl. eauto.
Qed.

(** Every entry of the expansion stage belongs to one entry of its input. *)
Lemma in_usePseudoElementEntries (entries : list (Element * option string))
    (entry : Element * option string) :
  In entry (FontCrawler._usePseudoElementEntries options entries) ->
  exists base, In base entries /\ fst entry = fst base /\
    (entry = base \/
     exists name, snd entry = Some ("::" +:+ Js.strip_leading_colons name)).
Proof.
  rewrite usePseudoElementEntries_expands.
  destruct (FontCrawler.usePseudoElement options) as [|s|names|f].
  - intros H. exists entry. auto.
  - destruct (Js.truthy s).
    + intros H. apply in_flat_map in H as (base & Hb & H).
      exists base. split; [exact Hb|]. eapply in_expansion, H.
    + intros H. exists entry. auto.
  - intros H. apply in_flat_map in H as (base & Hb & H).
    exists base. split; [exact Hb|]. eapply in_expansion, H.
  - intros H. apply in_flat_map in H as (base & Hb & H).
    exists base. split; [exact Hb|]. eapply in_expansion, H.
Qed.

Lemma filterElements_In (elements : list Element) (e : Element) :
  In e (FontCrawler._filterElements host options elements) <->
  In e elements /\
  (matchesConfigured host (FontCrawler.includeElements options) e \/
   (~ matchesConfigured host (FontCrawler.excludeElements options) e /\
    hasMeaningfulText host e)).
Proof.
  unfold FontCrawler._filterElements. rewrite filter_In.
  rewrite <- !matches_option_spec, <- hasTextNodeChild_spec.
  destruct (FontCrawler.matches_option host (FontCrawler.includeElements options) e);
    [tauto|].
  destruct (FontCrawler.matches_option host (FontCrawler.excludeElements options) e).
  - split; [intros [_ H]; discriminate | intros [_ [H|[H _]]]; [discriminate | contradiction]].
  - split.
    + intros [Hin H]. split; [exact Hin|]. right. split; [discriminate | exact H].
    + intros [Hin [H|[_ H]]]; [discriminate | auto].
Qed.

End Entries.

(** X9. Every entry that _getEntries yields is sound: its element is the
    target (when includeTarget is set) or a result of the selector query, it
    passed the element filter, it passed the filter option if there is one,
    and its pseudo part is null or "::" followed by a name that does not
    begin with a colon. *)
Theorem getEntries_sound {Element : Type} (host : Host Element) (target : Element)
    (options : FontCrawler.Options Element) (e : Element) (p : option string) :
  In (e, p) (FontCrawler._getEntries host target options) ->
  ((FontCrawler.includeTarget options = true /\ e = target) \/
   In e (querySelectorAll host target (FontCrawler.querySelector options))) /\
  (matchesConfigured host (FontCrawler.includeElements options) e \/
   (~ matchesConfigured host (FontCrawler.excludeElements options) e /\
    hasMeaningfulText host e)) /\
  (forall f, FontCrawler.filter options = Some f -> f e p = true) /\
  (p = None \/
   exists name, p = Some ("::" +:+ name) /\
     match name with String c _ => c <> ":"%char | EmptyString => True end).
Proof.
  unfold FontCrawler._getEntries. intros Hin.
  assert (Hfiltered : In (e, p)
            (FontCrawler._usePseudoElementEntries options
               (FontCrawler._mapElementsAsEntries
                  (FontCrawler._filterElements host options
                     (FontCrawler._querySelectorElements host target options)))) /\
            forall f, FontCrawler.filter options = Some f -> f e p = true).
  { unfold FontCrawler._filterEntries in Hin.
    destruct (FontCrawler.filter options) as [f|].
    - apply filter_In in Hin as [Hin Hf]. split; [exact Hin|]. intros f' [= <-]. exact Hf.
    - split; [exact Hin | discriminate]. }
  destruct Hfiltered as [Hexp Hfilter].
  apply in_usePseudoElementEntries in Hexp as (base & Hbase & Hfst & Hpseudo).
  unfold FontCrawler._mapElementsAsEntries in Hbase.
  apply in_map_iff in Hbase as (e0 & <- & He0). simpl in Hfst. subst e0.
  apply filterElements_In in He0 as [Hquery Hkept].
  split; [|split; [exact Hkept|split; [exact Hfilter|]]].
  - unfold FontCrawler._querySelectorElements in Hquery.
    destruct (FontCrawler.includeTarget options); [|right; exact Hquery].
    destruct Hquery as [<-|Hquery]; [left; auto | right; exact Hquery].
  - destruct Hpseudo as [[= ->]|(name & Hname)]; [left; reflexivity|].
    right. simpl in Hname. exists (Js.strip_leading_colons name).
    split; [exact Hname | apply strip_no_colon].
Qed.

Lemma getEntries_sound_witness :
  In (2%nat, Some "::after")
     (FontCrawler._getEntries Page.host 0%nat
        (Page.with_pseudo (FontCrawler.PseudoString ":before, ::after") Page.georgia)) /\
  In 2%nat (querySelectorAll Page.host 0%nat "p,em") /\
  hasMeaningfulText Page.host 2%nat.
Proof.
  assert (Hin : In (2%nat, Some "::after")
     (FontCrawler._getEntries Page.host 0%nat
        (Page.with_pseudo (FontCrawler.PseudoString ":before, ::after") Page.georgia)))
    by (vm_compute; tauto).
  destruct (getEntries_sound Page.host 0%nat _ 2%nat (Some "::after") Hin)
    as (Hquery & Hkept & _).
  split; [exact Hin|]. split.
  - destruct Hquery as [[H _]|H]; [discriminate | exact H].
  - destruct Hkept as [(s & H & _)|[_ H]]; [discriminate | exact H].
Defined.

Lemma expansionOf_stripped {Element : Type} (names : list string)
    (entry : Element * option string) :
  expansionOf names entry
  = entry :: map (fun name => (fst entry, Some ("::" +:+ name)))
               (map Js.strip_leading_colons names).
Proof. unfold expansionOf. rewrite map_map. reflexivity. Qed.

Lemma length_expansion {Element : Type} (names : list string)
    (entries : list (Element * option string)) :
  length (flat_map (expansionOf names) entries) = length entries * S (length names).
Proof.
  induction entries as [|entry entries IH]; [reflexivity|].
  simpl. rewrite length_app, IH, length_map. lia.
Qed.

(** X10. The expansion depends on the configured names only up to their
    leading colons, and it yields one entry plus one per name for every
    input entry. *)
Theorem expansion_modulo_colons {Element : Type}
    (options options' : FontCrawler.Options Element) (names names' : list string)
    (entries : list (Element * option string)) :
  FontCrawler.usePseudoElement options = FontCrawler.PseudoArray names ->
  FontCrawler.usePseudoElement options' = FontCrawler.PseudoArray names' ->
  map Js.strip_leading_colons names = map Js.strip_leading_colons names' ->
  FontCrawler._usePseudoElementEntries options entries
  = FontCrawler._usePseudoElementEntries options' entries /\
  length (FontCrawler._usePseudoElementEntries options entries)
  = length entries * S (length names).
Proof.
  intros Ho Ho' Hnames. rewrite !usePseudoElementEntries_expands, Ho, Ho'. split.
  - induction entries as [|entry entries IH]; [reflexivity|].
    cbn [flat_map]. rewrite IH, !expansionOf_stripped, Hnames. reflexivity.
  - apply length_expansion.
Qed.

Lemma expansion_modulo_colons_witness :
  FontCrawler._usePseudoElementEntries
    (Page.with_pseudo (FontCrawler.PseudoArray ["before"; ":::after"]) Page.georgia)
    [(1%nat, None); (2%nat, None)]
  = FontCrawler._usePseudoElementEntries
      (Page.with_pseudo (FontCrawler.PseudoArray ["::before"; ":after"]) Page.georgia)
      [(1%nat, None); (2%nat, None)] /\
  length (FontCrawler._usePseudoElementEntries
            (Page.with_pseudo (FontCrawler.PseudoArray ["before"; ":::after"]) Page.georgia)
            [(1%nat, None); (2%nat, None)])
  = 2 * 3.
Proof.
  exact (expansion_modulo_colons
           (Page.with_pseudo (FontCrawler.PseudoArray ["before"; ":::after"]) Page.georgia)
           (Page.with_pseudo (FontCrawler.PseudoArray ["::before"; ":after"]) Page.georgia)
           ["before"; ":::after"] ["::before"; ":after"]
           [(1%nat, None); (2%nat, None)] eq_refl eq_refl eq_refl).
Defined.

(** ** A delimited string and the list of its names *)

Lemma append_assoc (a b c : string) : (a +:+ b) +:+ c = a +:+ (b +:+ c).
Proof.
  induction a as [|x a IH]; [reflexivity|].
  change (String x ((a +:+ b) +:+ c) = String x (a +:+ (b +:+ c))). rewrite IH. reflexivity.
Qed.

Lemma split_comma_plain (s : string) (after : bool) (cur t : string) :
  plain s = true ->
  Js.split_comma_ws after cur "" (s +:+ String "," t)
  = (cur +:+ s) :: Js.split_comma_ws true "" "" t.
Proof.
  revert after cur. induction s as [|c s IH]; intros after cur Hplain.
  - change ("" +:+ String "," t) with (String "," t). simpl.
    rewrite append_empty_r. reflexivity.
  - simpl in Hplain. apply andb_true_iff in Hplain as [Hc Hplain].
    apply andb_true_iff in Hc as [Hcomma Hws].
    apply negb_true_iff in Hcomma, Hws.
    change (String c s +:+ String "," t) with (String c (s +:+ String "," t)).
    simpl. rewrite Hcomma, Hws. rewrite IH by exact Hplain.
    rewrite append_assoc. reflexivity.
Qed.

Lemma split_comma_plain_last (s : string) (after : bool) (cur : string) :
  plain s = true ->
  Js.split_comma_ws after cur "" s = [cur +:+ s].
Proof.
  revert after cur. induction s as [|c s IH]; intros after cur Hplain.
  - simpl. rewrite !append_empty_r. reflexivity.
  - simpl in Hplain. apply andb_true_iff in Hplain as [Hc Hplain].
    apply andb_true_iff in Hc as [Hcomma Hws].
    apply negb_true_iff in Hcomma, Hws.
    simpl. rewrite Hcomma, Hws. rewrite IH by exact Hplain.
    rewrite append_assoc. reflexivity.
Qed.

(** Splitting the names joined by commas gives the names back. *)
Lemma split_comma_join (name : string) (names : list string) (after : bool) :
  Forall (fun s => plain s = true) (name :: names) ->
  Js.split_comma_ws after "" "" (String.concat "," (name :: names)) = name :: names.
Proof.
  revert name after. induction names as [|next names IH]; intros name after Hplain.
  - simpl. apply split_comma_plain_last. inversion Hplain. assumption.
  - change (String.concat "," (name :: next :: names))
      with (name +:+ String "," (String.concat "," (next :: names))).
    inversion Hplain as [|? ? Hname Hrest]; subst.
    rewrite split_comma_plain by exact Hname. rewrite IH by exact Hrest. reflexivity.
Qed.

(** X11. A delimited string configures the same expansion as the list of
    its names: for names without commas and white space, usePseudoElement
    given as the names joined by commas behaves as usePseudoElement given as
    the array of the names. *)
Theorem string_as_array {Element : Type}
    (options options' : FontCrawler.Options Element) (names : list string)
    (entries : list (Element * option string)) :
  Forall (fun s => plain s = true) names ->
  String.concat "," names <> "" ->
  FontCrawler.usePseudoElement options = FontCrawler.PseudoString (String.concat "," names) ->
  FontCrawler.usePseudoElement options' = FontCrawler.PseudoArray names ->
  FontCrawler._usePseudoElementEntries options entries
  = FontCrawler._usePseudoElementEntries options' entries.
Proof.
  intros Hplain Hne Ho Ho'. rewrite !usePseudoElementEntries_expands, Ho, Ho'.
  apply truthy_nonempty in Hne. rewrite Hne.
  destruct names as [|name names]; [discriminate|].
  unfold Js.split_comma. rewrite split_comma_join by exact Hplain. reflexivity.
Qed.

Lemma string_as_array_witness :
  FontCrawler._usePseudoElementEntries
    (Page.with_pseudo (FontCrawler.PseudoString "before,after,first-line") Page.georgia)
    [(1%nat, None)]
  = FontCrawler._usePseudoElementEntries
      (Page.with_pseudo (FontCrawler.PseudoArray ["before"; "after"; "first-line"]) Page.georgia)
      [(1%nat, None)].
Proof.
  apply (string_as_array _ _ ["before"; "after"; "first-line"]).
  - repeat constructor.
  - discriminate.
  - reflexivity.
  - reflexivity.
Defined.

(** ** Text nodes: the strict and the simple check *)

(** X12. The strict check of src/font-crawler.js implies the simple check
    of the earlier revisions: an element the strict check keeps has a text
    node child. *)
Theorem strict_implies_simple {Element : Type} (host : Host Element) (element : Element) :
  FontCrawler._hasTextNodeChild host element = true ->
  CountBudgeted._hasTextNodeChild host element = true /\
  Draft._hasTextNodeChild host element = true.
Proof.
  intros H. apply hasTextNodeChild_spec in H as (child & Hin & Hty & _).
  assert (Hsimple : existsb (fun child => (nodeType child =? TEXT_NODE)%Z)
                      (childNodes host element) = true).
  { apply existsb_exists. exists child. split; [apply list_elem_of_In; exact Hin|].
    apply Z.eqb_eq. exact Hty. }
  split; exact Hsimple.
Qed.

Lemma strict_implies_simple_witness :
  FontCrawler._hasTextNodeChild Page.host 0%nat = true /\
  CountBudgeted._hasTextNodeChild Page.host 0%nat = true /\
  Draft._hasTextNodeChild Page.host 0%nat = true.
Proof.
  split; [reflexivity|].
  exact (strict_implies_simple Page.host 0%nat eq_refl).
Defined.

(** ** The first revision: slices by count *)

Section Counted.
Context {Element : Type}.
Variable host : Host Element.

Lemma lt_num_nat (done n : nat) :
  Js.lt_num (inject_Z (Z.of_nat done)) (Js.Num (inject_Z (Z.of_nat n))) = (done <? n)%nat.
Proof.
  simpl. unfold Js.Qltb.
  destruct (Nat.ltb_spec done n) as [H|H].
  - apply negb_true_iff. destruct (Qle_bool _ _) eqn:E; [|reflexivity].
    apply Qle_bool_iff in E. rewrite <- Zle_Qle in E. lia.
  - apply negb_false_iff, Qle_bool_iff. rewrite <- Zle_Qle. lia.
Qed.

Lemma handleAllCounted_cons (entry : Element * option string)
    (entries : list (Element * option string)) (m : Source) :
  handleAllCounted host (entry :: entries) m =
  match CountBudgeted._handleElement host (fst entry) (snd entry) m with
  | Returned m' => handleAllCounted host entries m'
  | Thrown e => Thrown e
  end.
Proof. reflexivity. Qed.

(** The loop of a slice: it samples a prefix of the queue, whose length the
    count decides, and touches nothing but the source object. *)
Lemma processUpTo_prefix (done : nat) (count : Js.number)
    (entries : list (Element * option string)) (source : nat) :
  exists k,
    k <= length entries /\
    (Js.lt_num (inject_Z (Z.of_nat done)) count = true -> entries <> [] -> 1 <= k) /\
    (forall n, count = Js.Num (inject_Z (Z.of_nat n)) -> k = min (n - done) (length entries)) /\
    forall (w : World (CountBudgeted.Task Element)) (object object' : Source),
      heap w !! source = Some object ->
      handleAllCounted host (take k entries) object = Returned object' ->
      CountBudgeted.processUpTo host done count entries source w
      = (Returned (drop k entries), set_heap (<[source := object']> (heap w)) w).
Proof.
  revert done. induction entries as [|entry entries IH]; intros done.
  - exists 0. split; [simpl; lia|]. split; [congruence|]. split; [intros n _; simpl; lia|].
    intros w object object' Hobj [= <-]. simpl.
    rewrite list_insert_id by exact Hobj.
    destruct (Js.lt_num _ count); unfold ret; destruct w; reflexivity.
  - simpl CountBudgeted.processUpTo.
    destruct (Js.lt_num (inject_Z (Z.of_nat done)) count) eqn:Hlt.
    + destruct (IH (S done)) as (k & Hk & _ & Hint & Hrun).
      exists (S k). split; [simpl; lia|]. split; [lia|]. split.
      * intros n Hn. rewrite (Hint n Hn). subst count. rewrite lt_num_nat in Hlt.
        apply Nat.ltb_lt in Hlt. simpl. lia.
      * intros w object object' Hobj Hall.
        change (take (S k) (entry :: entries)) with (entry :: take k entries) in Hall.
        rewrite handleAllCounted_cons in Hall.
        destruct (CountBudgeted._handleElement host entry.1 entry.2 object) as [o1|] eqn:E1;
          [|discriminate].
        unfold bind, updateObject. rewrite Hobj, E1.
        set (w1 := set_heap _ w).
        assert (Hobj1 : heap w1 !! source = Some o1).
        { apply list_lookup_insert_eq. eapply lookup_lt_Some, Hobj. }
        rewrite (Hrun w1 o1 object' Hobj1 Hall). simpl.
        rewrite list_insert_insert_eq. reflexivity.
    + exists 0. split; [simpl; lia|]. split; [discriminate|]. split.
      * intros n Hn. subst count. rewrite lt_num_nat in Hlt. apply Nat.ltb_ge in Hlt. lia.
      * intros w object object' Hobj [= <-]. simpl.
        rewrite list_insert_id by exact Hobj. unfold ret. destruct w; reflexivity.
Qed.

Lemma counted_frames_idle (n : nat) (w : World (CountBudgeted.Task Element)) :
  animationFrames w = [] -> CountBudgeted.frames host n w = w.
Proof.
  intros Hf. induction n as [|n IH]; [reflexivity|].
  unfold CountBudgeted.frames in *. simpl. unfold runAnimationFrame at 1. rewrite Hf. exact IH.
Qed.

Lemma positiveCount_lt (count : Js.number) :
  positiveCount count -> Js.lt_num (inject_Z (Z.of_nat 0)) count = true.
Proof.
  destruct count as [q| | |]; simpl; try tauto.
  intros Hq. unfold Js.Qltb. apply negb_true_iff.
  destruct (Qle_bool q (inject_Z (Z.of_nat 0))) eqn:E; [|reflexivity].
  apply Qle_bool_iff in E. exfalso. apply (Qlt_irrefl 0).
  eapply Qlt_le_trans; [exact Hq | exact E].
Qed.

(** One frame of the first revision, when its samples can be recorded. *)
Lemma counted_frame (entries : list (Element * option string)) (count : Js.number)
    (source h : nat) (callback : option nat) :
  exists k,
    k <= length entries /\
    (positiveCount count -> entries <> [] -> 1 <= k) /\
    forall (w : World (CountBudgeted.Task Element)) (object object' : Source),
      animationFrames w = [(h, CountBudgeted.Slice entries count source callback)] ->
      heap w !! source = Some object ->
      handleAllCounted host (take k entries) object = Returned object' ->
      let sampled :=
        set_heap (<[source := object']> (heap w)) (set_animationFrames [] w) in
      runAnimationFrame (CountBudgeted.call host) w =
      match drop k entries with
      | [] => match callback with
              | Some c => set_events (events w ++ [Invoked c source]) sampled
              | None => sampled
              end
      | rest =>
          set_nextHandle (S (nextHandle w))
            (set_animationFrames
               [(nextHandle w, CountBudgeted.Slice rest count source callback)] sampled)
      end.
Proof.
  destruct (processUpTo_prefix 0 count entries source) as (k & Hk & Hprogress & _ & Hrun).
  exists k. split; [exact Hk|]. split.
  { intros Hpos. apply Hprogress, positiveCount_lt, Hpos. }
  intros w object object' Hf Hobj Hall.
  unfold runAnimationFrame. rewrite Hf. unfold CountBudgeted.call, bind.
  rewrite (Hrun (set_animationFrames [] w) object object' Hobj Hall).
  destruct (drop k entries) as [|entry rest]; [destruct callback|]; reflexivity.
Qed.

(** A queue of slices with a positive count, whose samples can all be
    recorded, runs to its end. *)
Lemma counted_run (n : nat) :
  forall (entries : list (Element * option string)) (count : Js.number)
         (source h : nat) (callback : option nat) (w : World (CountBudgeted.Task Element))
         (object final : Source),
    positiveCount count ->
    length entries <= n ->
    animationFrames w = [(h, CountBudgeted.Slice entries count source callback)] ->
    heap w !! source = Some object ->
    handleAllCounted host entries object = Returned final ->
    let w' := CountBudgeted.frames host (S n) w in
    animationFrames w' = [] /\
    heap w' = <[source := final]> (heap w) /\
    events w' = events w ++ match callback with
                            | Some c => [Invoked c source]
                            | None => []
                            end.
Proof.
  induction n as [|n IH];
    intros entries count source h callback w object final Hpos Hlen Hf Hobj Hfinal;
    destruct (counted_frame entries count source h callback) as (k & Hk & Hprogress & Hone);
    assert (Hprefix : exists o', handleAllCounted host (take k entries) object = Returned o' /\
                                 handleAllCounted host (drop k entries) o' = Returned final)
      by (unfold handleAllCounted in *; rewrite <- (take_drop k entries), reduce_app in Hfinal;
          destruct (reduce _ (take k entries) object) as [o'|]; [eauto | discriminate]);
    destruct Hprefix as (o' & Htake & Hdrop);
    specialize (Hone w object o' Hf Hobj Htake); cbv zeta in Hone |- *.
  - change (CountBudgeted.frames host 1 w)
      with (runAnimationFrame (CountBudgeted.call host) w).
    rewrite Hone; clear Hone.
    destruct entries as [|? ?]; [|simpl in Hlen; lia].
    rewrite drop_nil. rewrite take_nil in Htake. simpl in Htake, Hfinal.
    assert (o' = final) as -> by congruence.
    destruct callback as [c|]; simpl; rewrite ?app_nil_r; repeat split.
  - change (CountBudgeted.frames host (S (S n)) w)
      with (CountBudgeted.frames host (S n) (runAnimationFrame (CountBudgeted.call host) w)).
    rewrite Hone; clear Hone.
    destruct (drop k entries) as [|entry rest] eqn:Hrest.
    + simpl in Hdrop. injection Hdrop as ->.
      destruct callback as [c|]; (rewrite counted_frames_idle by reflexivity);
        simpl; rewrite ?app_nil_r; repeat split.
    + assert (Hk1 : 1 <= k).
      { apply Hprogress; [exact Hpos|]. intros ->. rewrite drop_nil in Hrest. discriminate. }
      assert (Hlen' : length (entry :: rest) <= n).
      { rewrite <- Hrest, length_drop. lia. }
      match goal with |- context [CountBudgeted.frames host (S n) ?v] => set (w1 := v) end.
      assert (Hobj1 : heap w1 !! source = Some o').
      { unfold w1. simpl. apply list_lookup_insert_eq. eapply lookup_lt_Some, Hobj. }
      destruct (IH (entry :: rest) count source (nextHandle w) callback w1 o' final
                  Hpos Hlen' eq_refl Hobj1 Hdrop) as (Hf' & Hh' & He').
      split; [exact Hf'|]. split; [|exact He'].
      rewrite Hh'. unfold w1. simpl. apply list_insert_insert_eq.
Qed.

End Counted.

(** X13. In the first revision a slice with an integer count n samples the
    first n entries of its queue, or all of them if there are fewer: when
    these samples can be recorded, with entries left it requests a frame
    for them and does not call the callback, without entries left it calls
    the callback and requests nothing. *)
Theorem slice_respects_count {Element : Type} (host : Host Element) (n : nat)
    (entries : list (Element * option string)) (source : nat) (callback : option nat)
    (w : World (CountBudgeted.Task Element)) (object object' : Source) :
  let count := Js.Num (inject_Z (Z.of_nat n)) in
  heap w !! source = Some object ->
  handleAllCounted host (take n entries) object = Returned object' ->
  exists w',
    CountBudgeted.call host (CountBudgeted.Slice entries count source callback) w
    = (Returned tt, w') /\
    heap w' = <[source := object']> (heap w) /\
    (n < length entries ->
     events w' = events w /\
     animationFrames w'
     = animationFrames w ++
       [(nextHandle w, CountBudgeted.Slice (drop n entries) count source callback)]) /\
    (length entries <= n ->
     animationFrames w' = animationFrames w /\
     events w' = events w ++ match callback with
                             | Some c => [Invoked c source]
                             | None => []
                             end).
Proof.
  intros count Hobj Hall.
  destruct (processUpTo_prefix host 0 count entries source) as (k & Hk & _ & Hint & Hrun).
  specialize (Hint n eq_refl). rewrite Nat.sub_0_r in Hint.
  unfold CountBudgeted.call, bind.
  destruct (Nat.lt_ge_cases n (length entries)) as [Hlt|Hge].
  - assert (k = n) by lia. clear Hint. subst k.
    rewrite (Hrun w object object' Hobj Hall).
    destruct (drop n entries) as [|entry rest] eqn:Hdrop.
    { apply (f_equal length) in Hdrop. rewrite length_drop in Hdrop. simpl in Hdrop. lia. }
    unfold CountBudgeted._crawlAsyncRecursive, bind, requestAnimationFrame, ret.
    eexists. split; [reflexivity|]. simpl. split; [reflexivity|].
    split; [auto | lia].
  - assert (k = length entries) by lia. clear Hint. subst k.
    assert (Htake : take (length entries) entries = take n entries)
      by (rewrite firstn_all, take_ge by exact Hge; reflexivity).
    rewrite <- Htake in Hall.
    rewrite (Hrun w object object' Hobj Hall).
    rewrite drop_all.
    destruct callback as [c|]; unfold invoke, modify, ret;
      eexists; (split; [reflexivity|]); simpl; rewrite ?app_nil_r;
      (split; [reflexivity|]); (split; [lia | auto]).
Qed.

Lemma slice_respects_count_witness :
  exists w',
    CountBudgeted.call Page.host
      (CountBudgeted.Slice [(1%nat, None); (2%nat, None); (3%nat, None)]
         (Js.Num (inject_Z (Z.of_nat 2))) 0 (Some 7%nat))
      (set_heap [∅] fresh)
    = (Returned tt, w') /\
    heap w' = [ {[ "Georgia" := ["400"; "400i"] ]} ] /\
    events w' = [] /\
    animationFrames w'
    = [(1%nat, CountBudgeted.Slice [(3%nat, None)] (Js.Num (inject_Z (Z.of_nat 2))) 0
                 (Some 7%nat))].
Proof.
  destruct (slice_respects_count Page.host 2 [(1%nat, None); (2%nat, None); (3%nat, None)]
              0 (Some 7%nat) (set_heap [∅] fresh) ∅ {[ "Georgia" := ["400"; "400i"] ]}
              eq_refl) as (w' & E & Hh & Hmore & _); [vm_compute; reflexivity|].
  exists w'. split; [exact E|]. split; [exact Hh|]. apply Hmore. simpl. lia.
Defined.

(** X14. In the first revision crawlAsync(callback), started in a window
    without frames, calls the callback once, after at most one frame per
    entry and one more, on the map crawl() returns, when crawl() returns
    one; the slicing does not show in the result. *)
Theorem counted_async_agrees {Element : Type} (host : Host Element) (target : Element)
    (options : CountBudgeted.Options Element) (c : nat)
    (w0 : World (CountBudgeted.Task Element)) (m : Source) :
  animationFrames w0 = [] ->
  CountBudgeted.crawl host target options = Returned m ->
  exists w1,
    CountBudgeted.crawlAsync host target options (Some c) w0 = (Returned tt, w1) /\
    events w1 = events w0 /\
    forall n,
      S (length (CountBudgeted._elementWithPseudoEntries host target options)) <= n ->
      let w := CountBudgeted.frames host n w1 in
      animationFrames w = [] /\
      events w = events w0 ++ [Invoked c (length (heap w0))] /\
      heap w !! length (heap w0) = Some m.
Proof.
  intros Hf Hm.
  set (entries := CountBudgeted._elementWithPseudoEntries host target options).
  unfold CountBudgeted.crawlAsync, CountBudgeted._crawlAsyncRecursive, newObject, bind,
    requestAnimationFrame, ret.
  set (count := if negb (Js.truthy_num (CountBudgeted.asyncMax options))
                   || Js.is_negative (CountBudgeted.asyncMax options)
                then _ else _).
  assert (Hpos : positiveCount count).
  { unfold count. destruct (CountBudgeted.asyncMax options) as [q| | |]; simpl;
      try exact I; try reflexivity.
    unfold Js.Qltb. destruct (Qeq_bool q 0) eqn:E0; simpl; [reflexivity|].
    destruct (Qle_bool 0 q) eqn:E1; simpl; [|reflexivity].
    apply Qle_bool_iff in E1. apply Qle_lteq in E1 as [Hlt|Heq]; [exact Hlt|].
    symmetry in Heq. apply Qeq_bool_iff in Heq. congruence. }
  eexists. split; [reflexivity|]. simpl. split; [reflexivity|]. rewrite Hf. simpl.
  fold entries. intros n Hn.
  match goal with |- context [CountBudgeted.frames host n ?v] => set (w1 := v) end.
  assert (Hobj : heap w1 !! length (heap w0) = Some ∅).
  { unfold w1. simpl. apply list_lookup_middle. reflexivity. }
  pose proof (counted_run host (length entries) entries count (length (heap w0))
                (nextHandle w0) (Some c) w1 ∅ m Hpos (le_n _) eq_refl Hobj Hm)
    as (Hf' & Hh' & He').
  replace n with (S (length entries) + (n - S (length entries))) by lia.
  assert (Hsplit : forall a b v,
             CountBudgeted.frames host (a + b) v
             = CountBudgeted.frames host b (CountBudgeted.frames host a v)).
  { intros a b. induction a as [|a IH]; intros v; [reflexivity|]. apply (IH _). }
  rewrite Hsplit, counted_frames_idle by exact Hf'.
  split; [exact Hf'|]. split; [exact He'|].
  rewrite Hh'. apply list_lookup_insert_eq. eapply lookup_lt_Some, Hobj.
Qed.

Lemma counted_async_agrees_witness :
  exists w1,
    CountBudgeted.crawlAsync Page.host 0%nat Page.counted (Some 7%nat) fresh = (Returned tt, w1) /\
    events w1 = [] /\
    forall n, 2 <= n ->
      let w := CountBudgeted.frames Page.host n w1 in
      animationFrames w = [] /\
      events w = [Invoked 7 0] /\
      heap w !! 0%nat = Some {[ "Arial" := ["700i"] ]}.
Proof.
  apply (counted_async_agrees Page.host 0%nat Page.counted 7%nat fresh
           {[ "Arial" := ["700i"] ]} eq_refl).
  vm_compute. reflexivity.
Defined.

(** ** The intermediate revision against the other two *)

Section Revisions.
Context {Element : Type}.
Variable host : Host Element.
Variable target : Element.

Lemma addPseudoEntries_configured (options : Draft.Options Element) (s : string)
    (entries : list (Element * option string)) :
  Draft.usePseudoElements options = Some s -> s <> "" ->
  Draft._addPseudoEntries options entries =
  match entries with
  | [] => Returned (Some [])
  | [_] => Returned None
  | _ :: _ :: _ => Thrown Draft.TypeError
  end.
Proof.
  intros Hs Hne. unfold Draft._addPseudoEntries. rewrite Hs.
  destruct s as [|c s]; [contradiction|].
  destruct entries as [|e1 [|e2 rest]]; reflexivity.
Qed.

Lemma addPseudoEntries_unconfigured (options : Draft.Options Element)
    (entries : list (Element * option string)) :
  noPseudo (Draft.usePseudoElements options) ->
  Draft._addPseudoEntries options entries = Returned (Some entries).
Proof.
  unfold Draft._addPseudoEntries. intros [-> | ->]; reflexivity.
Qed.

Lemma filter_base_entries (useText : bool) (hasText : Element -> bool)
    (f : Element * option string -> bool) (elements : list Element) :
  List.filter (fun entry => if useText && negb (hasText (fst entry)) then false else f entry)
              (map (fun element => (element, None)) elements)
  = List.filter f
      (map (fun element => (element, None))
           (if useText then List.filter hasText elements else elements)).
Proof.
  destruct useText; simpl.
  - induction elements as [|e elements IH]; [reflexivity|].
    simpl. destruct (hasText e); simpl; rewrite IH; reflexivity.
  - reflexivity.
Qed.

End Revisions.

(** X15. In the intermediate revision crawl() with pseudo elements
    configured returns only when no element passes the element filter, and
    then returns the empty map; with one element or more it throws a
    TypeError, and nothing else changes. *)
Theorem draft_crawl_with_pseudo {Element : Type} (host : Host Element) (target : Element)
    (options : Draft.Options Element) (s : string) (w : World (Draft.Task Element)) :
  Draft.usePseudoElements options = Some s -> s <> "" ->
  Draft.isPending w = false ->
  Draft.crawl host target options w =
  match Draft._filterElements host options (Draft._querySelectorElements host target options) with
  | [] => (Returned ∅, w)
  | _ :: _ => (Thrown Draft.TypeError, w)
  end.
Proof.
  intros Hs Hne Hp.
  unfold Draft.crawl, Draft._checkBusy, Draft._getEntries, bind, lift. rewrite Hp.
  rewrite (addPseudoEntries_configured _ s) by assumption.
  unfold Draft._mapElementsAsEntries, Draft._filterEntries.
  destruct (Draft._filterElements host options (Draft._querySelectorElements host target options))
    as [|e1 [|e2 rest]]; simpl; destruct (Draft.filter options); reflexivity.
Qed.

Lemma draft_crawl_with_pseudo_witness :
  Draft.crawl Page.host 0%nat Page.draft fresh = (Thrown Draft.TypeError, fresh).
Proof.
  exact (draft_crawl_with_pseudo Page.host 0%nat Page.draft "before,after" fresh
           eq_refl ltac:(discriminate) eq_refl).
Defined.

(** X16. Without pseudo elements the intermediate revision collects the
    entries the first revision collects, and its crawl() ends as the first
    revision's crawl() does: with the same map, or with the same
    exception. *)
Theorem draft_agrees_with_first {Element : Type} (host : Host Element) (target : Element)
    (d : Draft.Options Element) (c : CountBudgeted.Options Element) :
  Draft.querySelector d = CountBudgeted.querySelector c ->
  Draft.includeTarget d = CountBudgeted.includeTarget c ->
  Draft.useTextNodesOnly d = CountBudgeted.useTextNodesOnly c ->
  Draft.filter d = CountBudgeted.filter c ->
  noPseudo (Draft.usePseudoElements d) ->
  noPseudo (CountBudgeted.usePseudoElements c) ->
  Draft._getEntries host target d
  = Returned (Some (CountBudgeted._elementWithPseudoEntries host target c)) /\
  forall w : World (Draft.Task Element),
    Draft.isPending w = false ->
    Draft.crawl host target d w = (CountBudgeted.crawl host target c, w).
Proof.
  intros Hq Hi Ht Hfl Hd Hc.
  assert (Hentries : Draft._getEntries host target d
            = Returned (Some (CountBudgeted._elementWithPseudoEntries host target c))).
  { unfold Draft._getEntries. rewrite addPseudoEntries_unconfigured by exact Hd.
    unfold CountBudgeted._elementWithPseudoEntries, Draft._filterEntries,
      Draft._mapElementsAsEntries, Draft._filterElements, Draft._querySelectorElements.
    rewrite Hq, Hi, Ht, Hfl.
    assert (Hnames : match CountBudgeted.usePseudoElements c with
                     | Some s => if Js.truthy s
                                 then Js.split_on_comma "" (Js.keep_word_dash_comma s)
                                 else []
                     | None => []
                     end = []) by (destruct Hc as [-> | ->]; reflexivity).
    rewrite Hnames.
    change (fold_left
              (fun carry element =>
                 fold_left (fun carry0 pseudo => carry0 ++ [(element, Some ("::" +:+ pseudo))])
                           [] (carry ++ [(element, None)])))
      with (fold_left (fun (carry : list (Element * option string)) (element : Element) =>
                         carry ++ [(element, None)])).
    rewrite (fold_push (fun element : Element => (element, None : option string))).
    simpl app.
    rewrite (filter_base_entries (CountBudgeted.useTextNodesOnly c)
               (CountBudgeted._hasTextNodeChild host)
               (fun entry => match CountBudgeted.filter c with
                             | Some f => f (fst entry) (snd entry)
                             | None => true
                             end)).
    destruct (CountBudgeted.filter c) as [f|].
    - reflexivity.
    - f_equal. f_equal. symmetry. apply forallb_filter_id. apply forallb_forall. reflexivity. }
  split; [exact Hentries|].
  intros w Hp. unfold Draft.crawl, Draft._checkBusy, bind, lift. rewrite Hp, Hentries.
  reflexivity.
Qed.

Lemma draft_agrees_with_first_witness :
  Draft._getEntries Page.host 0%nat Page.draft_img
  = Returned (Some (CountBudgeted._elementWithPseudoEntries Page.host 0%nat
                      Setups.counted_img)) /\
  Draft.crawl Page.host 0%nat Setups.draft_plain fresh
  = (CountBudgeted.crawl Page.host 0%nat Page.counted, fresh).
Proof.
  split.
  - apply (draft_agrees_with_first Page.host 0%nat Page.draft_img Setups.counted_img);
      try reflexivity; left; reflexivity.
  - apply (draft_agrees_with_first Page.host 0%nat Setups.draft_plain Page.counted);
      try reflexivity; left; reflexivity.
Defined.

(** X17. Where no family is excluded the current revision records a sample
    exactly as the two earlier revisions do, so the three revisions end
    alike over the same entries: with the same map, or with the same
    exception. *)
Theorem revisions_record_alike {Element : Type} (host : Host Element)
    (options : FontCrawler.Options Element)
    (entries : list (Element * option string)) (source : Source) :
  FontCrawler.excludeFontFamilies options = None ->
  handleAll host options entries source = handleAllCounted host entries source /\
  handleAll host options entries source
  = reduce (fun carry entry => Draft._handleEntry host entry carry) entries source.
Proof.
  intros Hex.
  assert (Hone : forall entry m,
             FontCrawler._handleEntry host options entry m
             = CountBudgeted._handleElement host (fst entry) (snd entry) m).
  { intros entry m. unfold FontCrawler._handleEntry, FontCrawler._handleElement,
      FontCrawler._handleSource, FontCrawler.isExcluded. rewrite Hex. reflexivity. }
  split; unfold handleAll, handleAllCounted; apply reduce_ext; intros m entry;
    rewrite Hone; reflexivity.
Qed.

Lemma revisions_record_alike_witness :
  let entries := FontCrawler._getEntries Page.host 0%nat Page.georgia in
  handleAll Page.host Page.georgia entries ∅ = handleAllCounted Page.host entries ∅ /\
  handleAll Page.host Page.georgia entries ∅
  = reduce (fun carry entry => Draft._handleEntry Page.host entry carry) entries ∅.
Proof.
  intros entries.
  apply (revisions_record_alike Page.host Page.georgia entries ∅). reflexivity.
Defined.

(** ** The slice of the intermediate revision on a queue that is not empty *)

Section DraftSlice.
Context {Element : Type}.
Variable host : Host Element.
Variable options : Draft.Options Element.

Lemma draft_stampFrame_effect (w : World (Draft.Task Element)) :
  exists w1, Draft.stampFrame host w = (Returned tt, w1) /\
    events w1 = events w /\ animationFrames w1 = animationFrames w /\ heap w1 = heap w.
Proof.
  unfold Draft.stampFrame, Draft._getTimestamp, bind, gets, modify, ret.
  destruct (__frameTimestamp w) as [t|]; [destruct (Qeq_bool t 0)|];
    eexists; (split; [reflexivity|]); repeat split.
Qed.

Lemma draft_callback_cons (depth : nat) (entry : Element * option string)
    (rest : list (Element * option string)) (source : nat) (callback : option nat)
    (w w1 : World (Draft.Task Element)) :
  Draft.stampFrame host w = (Returned tt, w1) ->
  Draft._crawlAsyncCallback_array host options depth (entry :: rest) source callback w =
  match Draft.handleEntryAt host entry source w1 with
  | (Returned _, w2) =>
      Draft._crawlAsyncRecursion host options
        (fun entries source callback =>
           match depth with
           | S depth => Draft._crawlAsyncCallback_array host options depth entries source callback
           | O => throw Js.RangeError
           end) rest source callback w2
  | (Thrown e, w2) => (Thrown e, w2)
  end.
Proof. intros E. simpl. unfold bind at 1. rewrite E. reflexivity. Qed.

Lemma draft_recursion_cons
    (again : list (Element * option string) -> nat -> option nat -> M (Draft.Task Element) unit)
    (entry : Element * option string) (rest : list (Element * option string))
    (source : nat) (callback : option nat) (w : World (Draft.Task Element)) :
  Draft._crawlAsyncRecursion host options again (entry :: rest) source callback w =
  let now := (inject_Z (getTime host (clockReads w)) / 1000)%Q in
  let w' := set_clockReads (S (clockReads w)) w in
  if match __frameTimestamp w with
     | Some start =>
         Js.lt_num (now - start)%Q (Js.div1000 (Draft.asyncIntervalDuration options))
     | None => false
     end
  then again (entry :: rest) source callback w'
  else match Draft.clear w' with
       | (Returned _, w'') =>
           Draft._crawlAsyncRequestFrame (Some (entry :: rest)) source callback w''
       | (Thrown e, w'') => (Thrown e, w'')
       end.
Proof.
  unfold Draft._crawlAsyncRecursion, bind, gets, Draft._getTimestamp. cbv zeta.
  destruct (__frameTimestamp w) as [start|]; [destruct (Js.lt_num _ _)|]; reflexivity.
Qed.

Lemma draft_handleEntryAt_returned (entry : Element * option string) (source : nat)
    (w : World (Draft.Task Element)) (object object' : Source) :
  heap w !! source = Some object ->
  Draft._handleEntry host entry object = Returned object' ->
  Draft.handleEntryAt host entry source w
  = (Returned tt, set_heap (<[source := object']> (heap w)) w).
Proof.
  intros Hobj E. unfold Draft.handleEntryAt, updateObject. rewrite Hobj, E. reflexivity.
Qed.

End DraftSlice.

(** X18. In the intermediate revision the slice throws its TypeError for an
    empty queue only at the start of a crawl: called on a queue with an
    entry, whose samples can be recorded and which the stack holds, it
    returns, without calling the callback, and the frame it may request
    carries a queue that is not empty again. *)
Theorem draft_slice_on_entries {Element : Type} (host : Host Element)
    (options : Draft.Options Element) (depth : nat)
    (entries : list (Element * option string)) (source : nat) (callback : option nat)
    (w : World (Draft.Task Element)) (object final : Source) :
  entries <> [] ->
  heap w !! source = Some object ->
  reduce (fun carry entry => Draft._handleEntry host entry carry) entries object
  = Returned final ->
  length entries <= S depth ->
  exists w',
    Draft._crawlAsyncCallback host options depth (Some entries) source callback w
    = (Returned tt, w') /\
    events w' = events w /\
    forall h queue source' callback',
      (h, Draft.Bound_crawlAsyncCallback queue source' callback') ∈ animationFrames w' ->
      (h, Draft.Bound_crawlAsyncCallback queue source' callback') ∈ animationFrames w \/
      exists next rest, queue = Some (next :: rest).
Proof.
  intros Hne. destruct entries as [|entry rest]; [contradiction|]. clear Hne.
  unfold Draft._crawlAsyncCallback.
  revert entry depth w object. induction rest as [|next rest IH];
    intros entry depth w object Hobj Hall Hlen;
    destruct (draft_stampFrame_effect host w) as (w1 & E1 & He1 & Hf1 & Hh1);
    simpl in Hall;
    (destruct (Draft._handleEntry host entry object) as [o1|] eqn:Eentry; [|discriminate]);
    rewrite (draft_callback_cons host options depth entry _ source callback w w1 E1);
    (assert (Hobj1 : heap w1 !! source = Some object) by (rewrite Hh1; exact Hobj));
    rewrite (draft_handleEntryAt_returned host entry source w1 object o1 Hobj1 Eentry);
    set (w2 := set_heap _ w1).
  - unfold Draft._crawlAsyncRecursion, Draft._crawlAsyncClear, Draft.clear,
      cancelAnimationFrame, bind, gets, modify, ret.
    destruct (__frameInterval w2) as [[|h0]|]; destruct callback as [c|];
      unfold requestAnimationFrame; simpl;
      eexists; (split; [reflexivity|]); simpl; (split; [exact He1|]);
      intros h queue source' callback' Hin; rewrite ?Hf1 in Hin;
      rewrite ?elem_of_app, ?list_elem_of_filter, ?list_elem_of_singleton in Hin;
      left; intuition congruence.
  - rewrite draft_recursion_cons. cbv zeta.
    set (w3 := set_clockReads _ w2).
    match goal with |- context [if ?c then _ else _] => destruct c end.
    + destruct depth as [|depth]; [simpl in Hlen; lia|].
      assert (Hobj3 : heap w3 !! source = Some o1).
      { unfold w3, w2. simpl. rewrite Hh1. apply list_lookup_insert_eq.
        eapply lookup_lt_Some, Hobj. }
      destruct (IH next depth w3 o1 Hobj3 Hall) as (w' & E & He & Hq); [simpl in *; lia|].
      exists w'. split; [exact E|].
      split; [simpl in He; congruence|].
      intros h queue source' callback' Hin.
      destruct (Hq _ _ _ _ Hin) as [Hold|Hnew]; [left|right; exact Hnew].
      simpl in Hold. rewrite Hf1 in Hold. exact Hold.
    + unfold Draft.clear, cancelAnimationFrame, Draft._crawlAsyncRequestFrame,
        bind, gets, modify, ret, requestAnimationFrame.
      destruct (__frameInterval w3) as [[|h0]|]; simpl;
        eexists; (split; [reflexivity|]); simpl; (split; [exact He1|]);
        intros h queue source' callback' Hin; rewrite ?Hf1 in Hin;
        rewrite ?elem_of_app, ?list_elem_of_filter, ?list_elem_of_singleton in Hin;
        (destruct Hin as [Hin|Hin]; [left; tauto | right; inversion Hin; eauto]).
Qed.

Lemma draft_slice_on_entries_witness :
  exists w',
    Draft._crawlAsyncCallback Page.host Setups.draft_plain 0 (Some [(3%nat, None)]) 0
      (Some 7%nat) (set_heap [∅] fresh)
    = (Returned tt, w') /\
    events w' = [].
Proof.
  destruct (draft_slice_on_entries Page.host Setups.draft_plain 0 [(3%nat, None)] 0
              (Some 7%nat) (set_heap [∅] fresh) ∅ {[ "Arial" := ["700i"] ]})
    as (w' & E & He & _).
  - discriminate.
  - reflexivity.
  - vm_compute. reflexivity.
  - simpl. lia.
  - exists w'. split; assumption.
Defined.

(** ** The stages of a crawl of src/font-crawler.js, seen from outside *)

(** X19. crawlAsync leaves the crawler idle: until the entries have been
    collected isPending is false, clear() changes nothing and a second
    crawlAsync is accepted. *)
Theorem crawlAsync_starts_idle {Element : Type} (host : Host Element) (target : Element)
    (options : FontCrawler.Options Element)
    (w0 : World (FontCrawler.Task Element)) (callback callback' : option nat) :
  quiescent w0 ->
  let w1 := (FontCrawler.crawlAsync host target options callback w0).2 in
  FontCrawler.isPending w1 = false /\
  FontCrawler.isPending (FontCrawler.nextFrame host target options w1) = false /\
  FontCrawler.clear w1 = (Returned tt, w1) /\
  animationFrames w1
  = [(nextHandle w0, FontCrawler.Delayed_querySelectorElements callback)] /\
  fst (FontCrawler.crawlAsync host target options callback' w1) = Returned tt.
Proof.
  intros Hq w1.
  destruct (collecting_is_not_pending host target options w0 callback callback' Hq)
    as (H1 & H2 & H3 & H4 & w2 & E & _).
  repeat split; try assumption.
  fold w1 in E. rewrite E. reflexivity.
Qed.

Lemma crawlAsync_starts_idle_witness :
  let w1 := (FontCrawler.crawlAsync Page.host 0%nat Page.georgia (Some 7%nat) fresh).2 in
  FontCrawler.isPending w1 = false /\
  FontCrawler.clear w1 = (Returned tt, w1) /\
  fst (FontCrawler.crawlAsync Page.host 0%nat Page.georgia (Some 8%nat) w1) = Returned tt.
Proof.
  intros w1.
  destruct (crawlAsync_starts_idle Page.host 0%nat Page.georgia fresh (Some 7%nat)
              (Some 8%nat) fresh_quiescent) as (H1 & _ & H3 & _ & H5).
  repeat split; assumption.
Defined.

(** X20. During a crawl isPending is true exactly while a frame for a slice
    is requested, or after an exception has escaped a slice, which leaves
    the crawler pending with no frame; it is false while the entries are
    collected, while the frame of the callback is awaited and when the crawl
    has finished. *)
Theorem pending_iff_slice_requested {Element : Type} (host : Host Element) (target : Element)
    (options : FontCrawler.Options Element)
    (w0 : World (FontCrawler.Task Element)) (callback : option nat) (n : nat) :
  quiescent w0 ->
  let w := FontCrawler.frames host target options n
             (FontCrawler.crawlAsync host target options callback w0).2 in
  FontCrawler.isPending w = true <->
  (exists h rest,
     animationFrames w
     = [(h, FontCrawler.Bound_crawlAsyncCallback rest (length (heap w0)) callback)]) \/
  (animationFrames w = [] /\ exists e, events w = events w0 ++ [Uncaught e]).
Proof.
  intros Hq w.
  destruct (crawlAsync_completes host target options w0 callback Hq) as (w1 & E & Hst & _).
  assert (Hstage : Stage host target options w0 callback w)
    by (unfold w; rewrite E; apply Hst).
  unfold FontCrawler.isPending.
  destruct Hstage as [h task Htask Hf Hi _ _ He _
                     |h done rest object Hf Hi Hh1 _ _ _ _ _ He
                     |h c object _ Hf Hi _ _ _ _ He
                     |object Hf Hi _ _ _ _ He
                     |h done rest object e Hf Hi Hh1 _ _ _ _ He _]; rewrite Hi, Hf.
  - split; [discriminate|]. intros [(h' & rest & [= _ ->])|(H & _)]; [|discriminate].
    destruct Htask as [H|[H|[H|H]]]; discriminate.
  - destruct h as [|h]; [lia|]. split; [eauto | reflexivity].
  - split; [discriminate|]. intros [(h' & rest & [= _ H])|(H & _)]; discriminate.
  - split; [discriminate|]. intros [(h' & rest & H)|(_ & e & He')]; [discriminate|].
    rewrite He in He'. apply app_inv_head in He'. destruct callback; discriminate.
  - destruct h as [|h]; [lia|]. split; [|reflexivity]. intros _. right. eauto.
Qed.

Lemma pending_iff_slice_requested_witness :
  let w := FontCrawler.frames Page.host 0%nat Page.georgia 2
             (FontCrawler.crawlAsync Page.host 0%nat Page.georgia (Some 7%nat) fresh).2 in
  FontCrawler.isPending w = true /\
  exists h rest,
    animationFrames w = [(h, FontCrawler.Bound_crawlAsyncCallback rest 0 (Some 7%nat))].
Proof.
  intros w.
  assert (Hp : FontCrawler.isPending w = true) by reflexivity.
  split; [exact Hp|].
  destruct (proj1 (pending_iff_slice_requested Page.host 0%nat Page.georgia fresh
                     (Some 7%nat) 2 fresh_quiescent) Hp) as [H|(H & _)]; [exact H|].
  vm_compute in H. discriminate.
Defined.

(** X21. A crawl has no frame left after six frames and one per entry,
    whatever the clock and the interval.  When crawl() returns a map, and
    the stack holds a slice over all entries or no slice samples a second
    entry, the callback has then been called exactly once, on that map, and
    the world is quiescent again, ready for the next crawlAsync. *)
Theorem crawl_finishes_within {Element : Type} (host : Host Element) (target : Element)
    (options : FontCrawler.Options Element)
    (w0 : World (FontCrawler.Task Element)) (c : nat) (n : nat) :
  quiescent w0 ->
  length (FontCrawler._getEntries host target options) + 6 <= n ->
  let w := FontCrawler.frames host target options n
             (FontCrawler.crawlAsync host target options (Some c) w0).2 in
  animationFrames w = [] /\
  forall m,
    FontCrawler.crawl host target options w0 = (Returned m, w0) ->
    length (FontCrawler._getEntries host target options) <= S (callStack host) \/
    oneAtATime host (FontCrawler.asyncIntervalDuration options) ->
    quiescent w /\
    events w = events w0 ++ [Invoked c (length (heap w0))] /\
    heap w = heap w0 ++ [m].
Proof.
  intros Hq Hn w.
  destruct (crawlAsync_completes host target options w0 (Some c) Hq)
    as (w1 & E & _ & Hnil & Hfin).
  unfold w. rewrite E. simpl. split; [apply Hnil, Hn|].
  intros m Hm Hfit.
  rewrite (crawl_returns host target options w0 (quiescent_idle w0 Hq)) in Hm.
  injection Hm as Hm.
  destruct (Hfin m Hm Hfit n Hn) as (H1 & H2 & H3). auto.
Qed.

Lemma crawl_finishes_within_witness :
  let w := FontCrawler.frames Page.host 0%nat Page.georgia 8
             (FontCrawler.crawlAsync Page.host 0%nat Page.georgia (Some 7%nat) fresh).2 in
  quiescent w /\ events w = [Invoked 7 0].
Proof.
  intros w.
  destruct (crawl_finishes_within Page.host 0%nat Page.georgia fresh 7%nat 8 fresh_quiescent)
    as (_ & Hfin); [vm_compute; lia|].
  destruct (Hfin {[ "Georgia" := ["400"; "400i"] ]}) as (H1 & H2 & _).
  - vm_compute. reflexivity.
  - left. vm_compute. lia.
  - split; assumption.
Defined.

(** X22. The expansion stage of src/font-crawler.js: every entry is
    followed by one pseudo entry per configured name, in the order of the
    names, each name stripped of its leading colons and prefixed with "::";
    a null or empty option leaves the entries as they are, and a function is
    asked for the names of each entry. *)
Theorem expansion_stage {Element : Type} (options : FontCrawler.Options Element)
    (entries : list (Element * option string)) :
  FontCrawler._usePseudoElementEntries options entries =
  match FontCrawler.usePseudoElement options with
  | FontCrawler.PseudoNull => entries
  | FontCrawler.PseudoString s =>
      if Js.truthy s then flat_map (expansionOf (Js.split_comma s)) entries else entries
  | FontCrawler.PseudoArray names => flat_map (expansionOf names) entries
  | FontCrawler.PseudoFunction f =>
      flat_map (fun entry => expansionOf (namesOf (f (fst entry) (snd entry))) entry) entries
  end.
Proof. apply usePseudoElementEntries_expands. Qed.

(** X23. In src/font-crawler.js a crawl whose pipeline yields no entry
    completes: the slice on the empty queue samples nothing, the crawler
    returns to idle and the callback is called with the empty map. *)
Theorem empty_crawl_completes {Element : Type} (host : Host Element) (target : Element)
    (options : FontCrawler.Options Element)
    (w0 : World (FontCrawler.Task Element)) (c : nat) :
  quiescent w0 ->
  FontCrawler._getEntries host target options = [] ->
  (forall depth source callback (w : World (FontCrawler.Task Element)),
      exists w',
        FontCrawler._crawlAsyncCallback host options depth [] source callback w
        = (Returned tt, w') /\
        heap w' = heap w /\ events w' = events w /\ FontCrawler.isPending w' = false) /\
  exists w1,
    FontCrawler.crawlAsync host target options (Some c) w0 = (Returned tt, w1) /\
    forall n, 6 <= n ->
      let w := FontCrawler.frames host target options n w1 in
      FontCrawler.isPending w = false /\
      events w = events w0 ++ [Invoked c (length (heap w0))] /\
      heap w !! length (heap w0) = Some ∅.
Proof.
  intros Hq Hnone. split.
  - intros. apply crawlAsyncCallback_empty.
  - apply empty_queue_completes; assumption.
Qed.

Lemma empty_crawl_completes_witness :
  FontCrawler._getEntries Page.host 0%nat Setups.georgia_img = [] /\
  exists w1,
    FontCrawler.crawlAsync Page.host 0%nat Setups.georgia_img (Some 7%nat) fresh
    = (Returned tt, w1) /\
    forall n, 6 <= n ->
      let w := FontCrawler.frames Page.host 0%nat Setups.georgia_img n w1 in
      FontCrawler.isPending w = false /\
      events w = [Invoked 7 0] /\
      heap w !! 0%nat = Some ∅.
Proof.
  split; [reflexivity|].
  exact (proj2 (empty_crawl_completes Page.host 0%nat Setups.georgia_img fresh 7%nat
                  fresh_quiescent eq_refl)).
Defined.
